(** * ExportBlend: the node-group to Python exporter

    A shallow embedding of [__init__.py] of the ExportBlend add-on: the
    value formatter, the identifier sanitizer, the discovery of nested node
    groups and the two emitters of construction routines, with the
    properties the specification states about them. *)

From Stdlib Require Import String Ascii NArith ZArith Lia.
From stdpp Require Import gmap list relations pretty.

Local Open Scope N_scope.
Local Open Scope nat_scope.

(** ** Python text

    A Python [str] is a sequence of Unicode code points.  Literals of the
    source are written [py "..."]; since the literals of the source are full
    of double quotes, a backquote inside [py "..."] stands for the double
    quote (no literal of the exported functions holds a backquote). *)

Abbreviation pystr := (list N).

Definition py_char (a : ascii) : N :=
  let c := N_of_ascii a in if (c =? 96)%N then 34%N else c.

Definition py (s : string) : pystr := py_char <$> list_ascii_of_string s.

Definition NEWLINE : N := 10%N.
Definition UNDERSCORE : N := 95%N.

(** [sep.join(lines)] *)
Fixpoint str_join (sep : pystr) (lines : list pystr) : pystr :=
  match lines with
  | [] => []
  | [l] => l
  | l :: rest => l ++ sep ++ str_join sep rest
  end.

(** [text.split(c)] for a separator of one character: never empty. *)
Fixpoint str_split (c : N) (text : pystr) : list pystr :=
  match text with
  | [] => [[]]
  | x :: rest =>
      if (x =? c)%N then [] :: str_split c rest
      else match str_split c rest with
           | [] => [[x]]
           | l :: ls => (x :: l) :: ls
           end
  end.

(** [str(i)] and [repr(i)] of an integer: its decimal numeral. *)
Definition nat_str (i : nat) : pystr := py (pretty i).
Definition int_repr (z : Z) : pystr := py (pretty z).
Definition bool_repr (b : bool) : pystr := if b then py "True" else py "False".

(** ** Outcomes

    A call either returns a value or raises.  [ReferenceError] is what the
    host raises on a data-block that is no longer there, [RecursionError]
    what a recursion that runs out of depth raises. *)

Inductive exn := ValueError | TypeError | ReferenceError | RecursionError | RuntimeError.

Inductive outcome (A : Type) :=
| Return (a : A)
| Raise (e : exn).
Arguments Return {A} a.
Arguments Raise {A} e.

#[global] Instance exn_eq_dec : EqDecision exn.
Proof. solve_decision. Defined.

#[global] Instance outcome_ret : MRet outcome := @Return.
#[global] Instance outcome_bind : MBind outcome := λ A B f m,
  match m with Return a => f a | Raise e => Raise e end.
#[global] Instance outcome_fmap : FMap outcome := λ A B f m,
  match m with Return a => Return (f a) | Raise e => Raise e end.

(** [try: m except: handler] *)
Definition try_except {A} (m : outcome A) (handler : outcome A) : outcome A :=
  match m with Return a => Return a | Raise _ => handler end.

(** A [for] loop whose body may raise, threading the loop state. *)
Fixpoint foldlM {A B} (f : B → A → outcome B) (l : list A) (b : B) : outcome B :=
  match l with
  | [] => Return b
  | x :: l' => b' ← f b x; foldlM f l' b'
  end.

(** A [for] loop appending lines: the lines of each iteration in order. *)
Fixpoint for_lines {A} (f : A → outcome (list pystr)) (l : list A) : outcome (list pystr) :=
  match l with
  | [] => Return []
  | x :: l' => ls ← f x; rest ← for_lines f l'; Return (ls ++ rest)
  end.

(** [enumerate(l)] *)
Definition enumerate {A} (l : list A) : list (nat * A) := imap pair l.

(** ** The Python runtime

    What the exporter takes from the interpreter and cannot be read off the
    source: floats and their two renderings, [repr] of a [str], and the
    Unicode tables behind [str.isalnum], [str.isdigit] and [str.lower]. *)

Class PythonRuntime := {
  float : Type;
  float_repr : float → pystr;          (* repr(x) *)
  float_format_1f : float → pystr;     (* f"{x:.1f}" *)
  str_repr : pystr → pystr;            (* repr(s) *)
  char_isalnum : N → bool;             (* c.isalnum() *)
  char_isdigit : N → bool;             (* c.isdigit() *)
  str_lower : pystr → pystr;           (* s.lower() *)
}.

(** The ASCII part of the Unicode tables. *)
Definition is_ascii (c : N) : bool := (c <? 128)%N.
Definition ascii_isdigit (c : N) : bool := (48 <=? c)%N && (c <=? 57)%N.
Definition ascii_isupper (c : N) : bool := (65 <=? c)%N && (c <=? 90)%N.
Definition ascii_islower (c : N) : bool := (97 <=? c)%N && (c <=? 122)%N.
Definition ascii_isalnum (c : N) : bool :=
  ascii_isdigit c || ascii_isupper c || ascii_islower c.
Definition ascii_lower (c : N) : N := if ascii_isupper c then (c + 32)%N else c.

(** A runtime agrees with ASCII when its tables are the ASCII ones on code
    points below 128, which holds of every Python 3. *)
Record ascii_conformant (R : PythonRuntime) : Prop := {
  conf_isalnum : ∀ c, is_ascii c = true → char_isalnum c = ascii_isalnum c;
  conf_isdigit : ∀ c, is_ascii c = true → char_isdigit c = ascii_isdigit c;
  conf_lower : ∀ s, Forall (λ c, is_ascii c = true) s → str_lower s = ascii_lower <$> s;
}.

(** ** Values and nodes of the host *)

Section Exporter.
Context {R : PythonRuntime}.

(** A runtime value as [format_value] looks at it.  An object shows the name
    of its type, what iterating it gives when it has [__iter__], and what
    [repr] gives; both may raise. *)
#[warnings="-register-all"] Inductive PyValue :=
| PyNone
| PyStr (s : pystr)
| PyBool (b : bool)
| PyInt (z : Z)
| PyFloat (x : float)
| PyObject (type_name : pystr) (iter : option (outcome (list PyValue))) (obj_repr : outcome pystr).

(** [repr(v)] *)
Definition py_repr (v : PyValue) : outcome pystr :=
  match v with
  | PyNone => Return (py "None")
  | PyStr s => Return (str_repr s)
  | PyBool b => Return (bool_repr b)
  | PyInt z => Return (int_repr z)
  | PyFloat x => Return (float_repr x)
  | PyObject _ _ r => r
  end.

Fixpoint reprs (items : list PyValue) : outcome (list pystr) :=
  match items with
  | [] => Return []
  | v :: rest => r ← py_repr v; rs ← reprs rest; Return (r :: rs)
  end.

(** [repr(tuple(items))] *)
Definition tuple_repr (items : list PyValue) : outcome pystr :=
  rs ← reprs items;
  Return (match rs with
          | [r] => py "(" ++ r ++ py ",)"
          | _ => py "(" ++ str_join (py ", ") rs ++ py ")"
          end).

Definition is_single_char_str (v : PyValue) : bool :=
  match v with PyStr [_] => true | _ => false end.

Definition AGGREGATE_TYPES : list pystr :=
  [py "Vector"; py "Color"; py "Euler"; py "Quaternion"].

(** [format_value(val)]: [Return None] is the Python [None]. *)
Definition format_value (val : PyValue) : outcome (option pystr) :=
  match val with
  | PyNone => Return None
  | PyStr s => Return (Some (str_repr s))
  | PyBool b => Return (Some (bool_repr b))
  | PyInt z => Return (Some (int_repr z))
  | PyFloat x => Return (Some (float_repr x))
  | PyObject type_name iter obj_repr =>
      if bool_decide (type_name ∈ AGGREGATE_TYPES) then
        match iter with
        | Some it => items ← it; Some <$> tuple_repr items
        | None => Raise TypeError
        end
      else
        match iter with
        | Some it =>
            try_except
              (items ← it;
               if negb (bool_decide (items = [])) && forallb is_single_char_str items
               then Return None
               else Some <$> tuple_repr items)
              (Return None)
        | None => Some <$> obj_repr
        end
  end.

(** [sanitize_name(name)] *)
Definition sanitize_char (c : N) : N :=
  if char_isalnum c || (c =? UNDERSCORE)%N then c else UNDERSCORE.

Definition sanitize_name (name : pystr) : pystr :=
  let result := sanitize_char <$> name in
  let result :=
    match result with
    | c :: _ => if char_isdigit c then UNDERSCORE :: result else result
    | [] => result
    end in
  let result := match result with [] => py "node" | _ => result end in
  str_lower result.

(** ** The data model: node trees, nodes, sockets, links

    Data-blocks, sockets and nodes are live objects of the host; a socket is
    identified by its pointer, a node tree by the pointer the node that
    groups it holds ([node.node_tree]); [==] and [in] on them compare these
    pointers. *)

Record InterfaceItem := {
  item_type : pystr;
  item_name : pystr;
  item_in_out : pystr;
  item_socket_type : pystr;
}.

Record Socket := {
  socket_ptr : positive;
  default_value : option PyValue;     (* None: no such attribute *)
  is_linked : bool;
}.

Record Node := {
  node_name : pystr;
  node_label : pystr;
  node_bl_idname : pystr;
  location_x : float;
  location_y : float;
  node_width : option float;          (* None: no such attribute *)
  node_hide : bool;
  node_mute : bool;
  inputs : list Socket;
  outputs : list Socket;
  node_tree : option positive;        (* None: no attribute, or an empty slot *)
}.

Record Link := {
  from_node : Node;
  to_node : Node;
  from_socket : Socket;
  to_socket : Socket;
}.

Record NodeTree := {
  tree_name : pystr;
  tree_bl_idname : pystr;
  interface : option (list InterfaceItem);   (* None: no such attribute *)
  nodes : list Node;
  links : list Link;
}.

(** The node trees of the host, by pointer. *)
Abbreviation Heap := (gmap positive NodeTree).

Definition deref (heap : Heap) (p : positive) : outcome NodeTree :=
  match heap !! p with
  | Some node_group => Return node_group
  | None => Raise ReferenceError
  end.

Fixpoint deref_all (heap : Heap) (ps : list positive) : outcome (list NodeTree) :=
  match ps with
  | [] => Return []
  | p :: rest => g ← deref heap p; gs ← deref_all heap rest; Return (g :: gs)
  end.

(** [get_socket_default_value(socket)] *)
Definition get_socket_default_value (socket : Socket) : outcome (option pystr) :=
  match default_value socket with
  | None => Return None
  | Some val => format_value val
  end.

(** [get_node_tree_type(node_tree)] *)
Definition get_node_tree_type (node_tree : NodeTree) : pystr :=
  let tree_type := tree_bl_idname node_tree in
  if decide (tree_type = py "ShaderNodeTree") then py "ShaderNodeTree"
  else if decide (tree_type = py "GeometryNodeTree") then py "GeometryNodeTree"
  else if decide (tree_type = py "CompositorNodeTree") then py "CompositorNodeTree"
  else if decide (tree_type = py "TextureNodeTree") then py "TextureNodeTree"
  else tree_type.

(** [l.index(x)] on sockets: the first position holding that socket. *)
Fixpoint list_index (x : Socket) (l : list Socket) : outcome nat :=
  match l with
  | [] => Raise ValueError
  | y :: rest =>
      if decide (socket_ptr y = socket_ptr x) then Return 0
      else S <$> list_index x rest
  end.

(** ** Discovery of nested node groups *)

Definition GROUP_NODE_IDNAMES : list pystr :=
  [py "GeometryNodeGroup"; py "ShaderNodeGroup"; py "CompositorNodeGroup"; py "TextureNodeGroup"].

Definition is_group_node (node : Node) : bool :=
  bool_decide (node_bl_idname node ∈ GROUP_NODE_IDNAMES).

(** [if x not in nested_groups: nested_groups.append(x)] *)
Definition append_if_absent (x : positive) (nested_groups : list positive) : list positive :=
  if decide (x ∈ nested_groups) then nested_groups else nested_groups ++ [x].

(** The state of the loop over the nodes: the list under construction and
    the visited set, which all the calls share and update. *)
Abbreviation find_state := (list positive * gset pystr)%type.

(** One iteration of the loop of [find_nested_node_groups], [rec] being the
    recursive call. *)
Definition visit_node (rec : positive → gset pystr → outcome find_state)
    (st : find_state) (node : Node) : outcome find_state :=
  if is_group_node node then
    match node_tree node with
    | Some nested_tree =>
        '(sub_nested, visited) ← rec nested_tree st.2;
        Return (append_if_absent nested_tree
                  (foldl (λ acc sub_group, append_if_absent sub_group acc) st.1 sub_nested),
                visited)
    | None => Return st
    end
  else Return st.

(** [find_nested_node_groups(node_group, visited)], the depth of the
    recursion bounded by [fuel]; it returns the list and the visited set as
    the call leaves it. *)
Fixpoint find_fuel (heap : Heap) (fuel : nat) (p : positive) (visited : gset pystr)
    : outcome find_state :=
  match fuel with
  | O => Raise RecursionError
  | S fuel' =>
      node_group ← deref heap p;
      if decide (tree_name node_group ∈ visited) then Return ([], visited)
      else foldlM (visit_node (find_fuel heap fuel')) (nodes node_group)
                  ([], {[tree_name node_group]} ∪ visited)
  end.

(** [find_nested_node_groups(node_group)]: a fresh visited set; a recursion
    never goes deeper than the number of node trees plus one
    ([find_fuel_total]). *)
Definition find_nested_node_groups (heap : Heap) (p : positive) : outcome (list positive) :=
  fst <$> find_fuel heap (S (size heap)) p ∅.

(** ** The emitters

    [export_node_properties(lines, node, var_name)] appends to [lines] the
    statements that replay the settings of [node], read from attributes of
    the node that the model above does not list; it is taken as the function
    from the node and its variable to the appended lines. *)

Variable export_node_properties : Node → pystr → outcome (list pystr).

(** [if from_node_var and to_node_var]: found and not the empty string. *)
Definition truthy (v : option pystr) : bool :=
  match v with Some (_ :: _) => true | _ => false end.

(** *** [export_single_node_group] *)

Definition single_var_name (i : nat) (node : Node) : pystr :=
  py "node_" ++ nat_str i ++ py "_" ++ sanitize_name (node_name node).

Definition single_interface_lines (node_group : NodeTree) : list pystr :=
  match interface node_group with
  | Some items_tree =>
      [py "    # Create group interface (sockets)"]
      ++ flat_map (λ item,
           if decide (item_type item = py "SOCKET") then
             let socket_type := item_socket_type item in
             let in_out := if decide (item_in_out item = py "INPUT")
                           then py "INPUT" else py "OUTPUT" in
             [py "    node_group.interface.new_socket(name=`" ++ item_name item
              ++ py "`, in_out='" ++ in_out ++ py "', socket_type='" ++ socket_type ++ py "')"]
           else []) items_tree
      ++ [[]]
  | None => []
  end.

Definition single_default_lines (var_name : pystr) (entry : nat * Socket)
    : outcome (list pystr) :=
  let '(j, input_socket) := entry in
  if bool_decide (is_Some (default_value input_socket)) && negb (is_linked input_socket) then
    default_val ← get_socket_default_value input_socket;
    match default_val with
    | Some default_val =>
        Return [py "    if len(" ++ var_name ++ py ".inputs) > " ++ nat_str j
                ++ py " and hasattr(" ++ var_name ++ py ".inputs[" ++ nat_str j
                ++ py "], `default_value`):";
                py "        try:";
                py "            " ++ var_name ++ py ".inputs[" ++ nat_str j
                ++ py "].default_value = " ++ default_val;
                py "        except:";
                py "            pass"]
    | None => Return []
    end
  else Return [].

Definition single_node_lines (entry : nat * Node) : outcome (list pystr) :=
  let '(i, node) := entry in
  let var_name := single_var_name i node in
  properties ← export_node_properties node var_name;
  defaults ← for_lines (single_default_lines var_name) (enumerate (inputs node));
  Return ([py "    # Node: " ++ node_name node;
           py "    " ++ var_name ++ py " = node_group.nodes.new(type='" ++ node_bl_idname node ++ py "')";
           py "    " ++ var_name ++ py ".name = `" ++ node_name node ++ py "`";
           py "    " ++ var_name ++ py ".label = `" ++ node_label node ++ py "`";
           py "    " ++ var_name ++ py ".location = (" ++ float_format_1f (location_x node)
           ++ py ", " ++ float_format_1f (location_y node) ++ py ")"]
          ++ match node_width node with
             | Some width => [py "    " ++ var_name ++ py ".width = " ++ float_format_1f width]
             | None => []
             end
          ++ (if node_hide node then [py "    " ++ var_name ++ py ".hide = True"] else [])
          ++ (if node_mute node then [py "    " ++ var_name ++ py ".mute = True"] else [])
          ++ properties ++ defaults ++ [[]]).

(** The dictionary [node_var_names] as the loop over the nodes leaves it. *)
Definition single_node_var_names (node_group : NodeTree) : gmap pystr pystr :=
  foldl (λ node_var_names entry,
           <[node_name entry.2 := single_var_name entry.1 entry.2]> node_var_names)
        ∅ (enumerate (nodes node_group)).

Definition single_link_lines (node_var_names : gmap pystr pystr) (link : Link)
    : outcome (list pystr) :=
  let from_node_var := node_var_names !! node_name (from_node link) in
  let to_node_var := node_var_names !! node_name (to_node link) in
  if truthy from_node_var && truthy to_node_var then
    from_socket_index ← list_index (from_socket link) (outputs (from_node link));
    to_socket_index ← list_index (to_socket link) (inputs (to_node link));
    Return [py "    node_group.links.new(" ++ default [] from_node_var ++ py ".outputs["
            ++ nat_str from_socket_index ++ py "], " ++ default [] to_node_var
            ++ py ".inputs[" ++ nat_str to_socket_index ++ py "])"]
  else Return [].

Definition export_single_node_group_lines (node_group : NodeTree) : outcome (list pystr) :=
  let func_name := sanitize_name (tree_name node_group) in
  let tree_type := get_node_tree_type node_group in
  node_lines ← for_lines single_node_lines (enumerate (nodes node_group));
  link_lines ← for_lines (single_link_lines (single_node_var_names node_group))
                         (links node_group);
  Return ([py "def create_" ++ func_name ++ py "_node_group():";
           py "    ```Create the " ++ tree_name node_group ++ py " node group.```";
           [];
           py "    # Check if node group already exists";
           py "    if `" ++ tree_name node_group ++ py "` in bpy.data.node_groups:";
           py "        return bpy.data.node_groups[`" ++ tree_name node_group ++ py "`]";
           [];
           py "    # Create new node group";
           py "    node_group = bpy.data.node_groups.new(name=`" ++ tree_name node_group
           ++ py "`, type='" ++ tree_type ++ py "')";
           []]
          ++ single_interface_lines node_group
          ++ [py "    # Create nodes"] ++ node_lines
          ++ [py "    # Create links"] ++ link_lines
          ++ [[]; py "    return node_group"; []]).

(** [export_single_node_group(node_group)] *)
Definition export_single_node_group (node_group : NodeTree) : outcome pystr :=
  str_join [NEWLINE] <$> export_single_node_group_lines node_group.

(** *** [export_node_group_to_python] *)

(** The text of the helper [assign_to_object]. *)
Definition ASSIGN_TO_OBJECT_HELPER : list pystr :=
  [py "def assign_to_object(node_group, obj=None, create_if_none=True):";
   py "    ```Assign the geometry node group to an object.```";
   py "    ";
   py "    # If no object provided, try to use active object or create new one";
   py "    if obj is None:";
   py "        obj = bpy.context.active_object";
   py "    ";
   py "    if obj is None and create_if_none:";
   py "        # Create a new mesh object";
   py "        mesh = bpy.data.meshes.new(node_group.name + `_mesh`)";
   py "        obj = bpy.data.objects.new(node_group.name + `_object`, mesh)";
   py "        bpy.context.collection.objects.link(obj)";
   py "        bpy.context.view_layer.objects.active = obj";
   py "        obj.select_set(True)";
   py "    ";
   py "    if obj is None:";
   py "        print(`No object available to assign the node group to.`)";
   py "        return None";
   py "    ";
   py "    # Check if object already has a Geometry Nodes modifier with this node group";
   py "    for mod in obj.modifiers:";
   py "        if mod.type == `NODES` and mod.node_group == node_group:";
   py "            print(f`Object '{obj.name}' already has this node group assigned.`)";
   py "            return mod";
   py "    ";
   py "    # Add new Geometry Nodes modifier";
   py "    mod = obj.modifiers.new(name=node_group.name, type=`NODES`)";
   py "    mod.node_group = node_group";
   py "    ";
   py "    print(f`Assigned '{node_group.name}' to object '{obj.name}'`)";
   py "    return mod";
   [];
   []].

(** The text of the helper [assign_to_material]. *)
Definition ASSIGN_TO_MATERIAL_HELPER : list pystr :=
  [py "def assign_to_material(node_group, mat=None, create_if_none=True):";
   py "    ```Assign the shader node group to a material.```";
   py "    ";
   py "    # If no material provided, try to use active material or create new one";
   py "    if mat is None:";
   py "        # Try to get material from active object";
   py "        obj = bpy.context.active_object";
   py "        if obj and obj.active_material:";
   py "            mat = obj.active_material";
   py "    ";
   py "    if mat is None and create_if_none:";
   py "        # Create a new material";
   py "        mat = bpy.data.materials.new(name=node_group.name + `_material`)";
   py "        mat.use_nodes = True";
   py "        # Assign to active object if available";
   py "        obj = bpy.context.active_object";
   py "        if obj:";
   py "            if len(obj.data.materials) > 0:";
   py "                obj.data.materials[0] = mat";
   py "            else:";
   py "                obj.data.materials.append(mat)";
   py "    ";
   py "    if mat is None:";
   py "        print(`No material available to assign the node group to.`)";
   py "        return None";
   py "    ";
   py "    if not mat.use_nodes:";
   py "        mat.use_nodes = True";
   py "    ";
   py "    # Add the node group as a single group node (not expanded)";
   py "    nodes = mat.node_tree.nodes";
   py "    group_node = nodes.new(type=`ShaderNodeGroup`)";
   py "    group_node.node_tree = node_group";
   py "    group_node.name = node_group.name";
   py "    group_node.location = (-200, 300)";
   py "    ";
   py "    # Optionally connect to Material Output if present";
   py "    output_node = None";
   py "    for node in nodes:";
   py "        if node.type == `OUTPUT_MATERIAL`:";
   py "            output_node = node";
   py "            break";
   py "    ";
   py "    if output_node and len(group_node.outputs) > 0:";
   py "        # Connect first output to Surface input";
   py "        mat.node_tree.links.new(group_node.outputs[0], output_node.inputs[0])";
   py "    ";
   py "    print(f`Added shader node group '{node_group.name}' to material '{mat.name}'`)";
   py "    return group_node";
   [];
   []].

(** The lines of the driver that call [assign_to_object]. *)
Definition ASSIGN_TO_OBJECT_CALL : list pystr :=
  [[];
   py "# Assign to object (creates new object if none selected)";
   py "# Set create_if_none=False if you only want to assign to existing selected object";
   py "modifier = assign_to_object(node_group, obj=None, create_if_none=True)";
   [];
   py "# To assign to a specific existing object, use:";
   py "# modifier = assign_to_object(node_group, obj=bpy.data.objects['YourObjectName'], create_if_none=False)"].

(** The lines of the driver that call [assign_to_material]. *)
Definition ASSIGN_TO_MATERIAL_CALL : list pystr :=
  [[];
   py "# Assign to material (creates new material if none available)";
   py "# Set create_if_none=False if you only want to assign to existing material";
   py "material = assign_to_material(node_group, mat=None, create_if_none=True)";
   [];
   py "# To assign to a specific existing material, use:";
   py "# material = assign_to_material(node_group, mat=bpy.data.materials['YourMaterialName'], create_if_none=False)"].


Definition GEOMETRY : pystr := py "GeometryNodeTree".
Definition SHADER : pystr := py "ShaderNodeTree".

(** [has_geometry_nodes and auto_assign]: the condition under which the
    helper [assign_to_object] is appended. *)
Definition emits_assign_to_object (node_group : NodeTree) (nested_groups : list NodeTree)
    (auto_assign : bool) : bool :=
  let tree_type := get_node_tree_type node_group in
  let has_geometry_nodes :=
    bool_decide (tree_type = GEOMETRY)
    || existsb (λ ng, bool_decide (get_node_tree_type ng = GEOMETRY)) nested_groups in
  has_geometry_nodes && auto_assign.

(** The condition under which the helper [assign_to_material] is appended. *)
Definition emits_assign_to_material (node_group : NodeTree) (auto_assign : bool) : bool :=
  bool_decide (get_node_tree_type node_group = SHADER) && auto_assign.

(** The conditions of the [if] and of the [elif] that close the driver. *)
Definition calls_assign_to_object (node_group : NodeTree) (auto_assign : bool) : bool :=
  bool_decide (get_node_tree_type node_group = GEOMETRY) && auto_assign.

Definition calls_assign_to_material (node_group : NodeTree) (auto_assign : bool) : bool :=
  negb (calls_assign_to_object node_group auto_assign)
  && (bool_decide (get_node_tree_type node_group = SHADER) && auto_assign).

(** The routines of the nested groups, between their two banners. *)
Definition main_nested_lines (nested_groups : list NodeTree) : outcome (list pystr) :=
  match nested_groups with
  | [] => Return []
  | _ =>
      routines ← for_lines (λ nested_group,
                    text ← export_single_node_group nested_group;
                    Return (str_split NEWLINE text ++ [[]])) nested_groups;
      Return ([py "# === Nested Node Groups (Dependencies) ==="; []]
              ++ routines
              ++ [py "# === Main Node Group ==="; []])
  end.

Definition main_var_name (i : nat) (node : Node) : pystr :=
  py "node_" ++ nat_str i ++ py "_" ++ sanitize_name (node_name node).

Definition main_interface_lines (node_group : NodeTree) : list pystr :=
  match interface node_group with
  | Some items_tree =>
      [py "    # Create group interface (sockets)"]
      ++ flat_map (λ item,
           if decide (item_type item = py "SOCKET") then
             let socket_type := item_socket_type item in
             let in_out := if decide (item_in_out item = py "INPUT")
                           then py "INPUT" else py "OUTPUT" in
             [py "    node_group.interface.new_socket(name=`" ++ item_name item
              ++ py "`, in_out='" ++ in_out ++ py "', socket_type='" ++ socket_type ++ py "')"]
           else []) items_tree
      ++ [[]]
  | None => []
  end.

Definition main_default_lines (var_name : pystr) (entry : nat * Socket)
    : outcome (list pystr) :=
  let '(j, input_socket) := entry in
  if bool_decide (is_Some (default_value input_socket)) && negb (is_linked input_socket) then
    default_val ← get_socket_default_value input_socket;
    match default_val with
    | Some default_val =>
        Return [py "    if len(" ++ var_name ++ py ".inputs) > " ++ nat_str j
                ++ py " and hasattr(" ++ var_name ++ py ".inputs[" ++ nat_str j
                ++ py "], `default_value`):";
                py "        try:";
                py "            " ++ var_name ++ py ".inputs[" ++ nat_str j
                ++ py "].default_value = " ++ default_val;
                py "        except:";
                py "            pass"]
    | None => Return []
    end
  else Return [].

Definition main_node_lines (entry : nat * Node) : outcome (list pystr) :=
  let '(i, node) := entry in
  let var_name := main_var_name i node in
  properties ← export_node_properties node var_name;
  defaults ← for_lines (main_default_lines var_name) (enumerate (inputs node));
  Return ([py "    # Node: " ++ node_name node;
           py "    " ++ var_name ++ py " = node_group.nodes.new(type='" ++ node_bl_idname node ++ py "')";
           py "    " ++ var_name ++ py ".name = `" ++ node_name node ++ py "`";
           py "    " ++ var_name ++ py ".label = `" ++ node_label node ++ py "`";
           py "    " ++ var_name ++ py ".location = (" ++ float_format_1f (location_x node)
           ++ py ", " ++ float_format_1f (location_y node) ++ py ")"]
          ++ match node_width node with
             | Some width => [py "    " ++ var_name ++ py ".width = " ++ float_format_1f width]
             | None => []
             end
          ++ (if node_hide node then [py "    " ++ var_name ++ py ".hide = True"] else [])
          ++ (if node_mute node then [py "    " ++ var_name ++ py ".mute = True"] else [])
          ++ properties ++ defaults ++ [[]]).

Definition main_node_var_names (node_group : NodeTree) : gmap pystr pystr :=
  foldl (λ node_var_names entry,
           <[node_name entry.2 := main_var_name entry.1 entry.2]> node_var_names)
        ∅ (enumerate (nodes node_group)).

Definition main_link_lines (node_var_names : gmap pystr pystr) (link : Link)
    : outcome (list pystr) :=
  let from_node_var := node_var_names !! node_name (from_node link) in
  let to_node_var := node_var_names !! node_name (to_node link) in
  if truthy from_node_var && truthy to_node_var then
    from_socket_index ← list_index (from_socket link) (outputs (from_node link));
    to_socket_index ← list_index (to_socket link) (inputs (to_node link));
    Return [py "    node_group.links.new(" ++ default [] from_node_var ++ py ".outputs["
            ++ nat_str from_socket_index ++ py "], " ++ default [] to_node_var
            ++ py ".inputs[" ++ nat_str to_socket_index ++ py "])"]
  else Return [].

(** The routine of the main group, written out in line by
    [export_node_group_to_python]: from its [def] to the empty line after
    its [return]. *)
Definition main_routine_lines (node_group : NodeTree) : outcome (list pystr) :=
  let func_name := sanitize_name (tree_name node_group) in
  let tree_type := get_node_tree_type node_group in
  node_lines ← for_lines main_node_lines (enumerate (nodes node_group));
  link_lines ← for_lines (main_link_lines (main_node_var_names node_group))
                         (links node_group);
  Return ([py "def create_" ++ func_name ++ py "_node_group():";
           py "    ```Create the " ++ tree_name node_group ++ py " node group.```";
           [];
           py "    # Check if node group already exists";
           py "    if `" ++ tree_name node_group ++ py "` in bpy.data.node_groups:";
           py "        return bpy.data.node_groups[`" ++ tree_name node_group ++ py "`]";
           [];
           py "    # Create new node group";
           py "    node_group = bpy.data.node_groups.new(name=`" ++ tree_name node_group
           ++ py "`, type='" ++ tree_type ++ py "')";
           []]
          ++ main_interface_lines node_group
          ++ [py "    # Create nodes"] ++ node_lines
          ++ [py "    # Create links"] ++ link_lines
          ++ [[]; py "    return node_group"; []]).

(** The driver: the nested groups in order, the main group, and the call of
    a helper. *)
Definition main_driver_lines (node_group : NodeTree) (nested_groups : list NodeTree)
    (auto_assign : bool) : list pystr :=
  let func_name := sanitize_name (tree_name node_group) in
  match nested_groups with
  | [] => []
  | _ =>
      [py "# Create nested node groups first"]
      ++ flat_map (λ nested_group,
           let nested_func_name := sanitize_name (tree_name nested_group) in
           [nested_func_name ++ py "_group = create_" ++ nested_func_name ++ py "_node_group()";
            py "print(f`Created nested node group: " ++ tree_name nested_group ++ py "`)"])
         nested_groups
      ++ [[]]
  end
  ++ [py "# Create the main node group";
      py "node_group = create_" ++ func_name ++ py "_node_group()";
      py "print(f`Node group \`" ++ tree_name node_group ++ py "\` created successfully!`)"]
  ++ (if calls_assign_to_object node_group auto_assign then ASSIGN_TO_OBJECT_CALL
      else if bool_decide (get_node_tree_type node_group = SHADER) && auto_assign
           then ASSIGN_TO_MATERIAL_CALL
           else []).

Definition export_node_group_to_python_lines (heap : Heap) (p : positive)
    (auto_assign include_nested : bool) : outcome (list pystr) :=
  node_group ← deref heap p;
  nested_ptrs ← (if include_nested then find_nested_node_groups heap p else Return []);
  nested_groups ← deref_all heap nested_ptrs;
  nested_lines ← main_nested_lines nested_groups;
  routine ← main_routine_lines node_group;
  Return ([py "import bpy"; []; []]
          ++ nested_lines
          ++ routine ++ [[]]
          ++ (if emits_assign_to_object node_group nested_groups auto_assign
              then ASSIGN_TO_OBJECT_HELPER else [])
          ++ (if emits_assign_to_material node_group auto_assign
              then ASSIGN_TO_MATERIAL_HELPER else [])
          ++ main_driver_lines node_group nested_groups auto_assign).

(** [export_node_group_to_python(node_group, auto_assign, include_nested)],
    [node_group] being the node tree at [p]. *)
Definition export_node_group_to_python (heap : Heap) (p : positive)
    (auto_assign include_nested : bool) : outcome pystr :=
  str_join [NEWLINE] <$> export_node_group_to_python_lines heap p auto_assign include_nested.

End Exporter.

Abbreviation Heap := (gmap positive NodeTree).

Arguments export_single_node_group_lines {R} export_node_properties node_group.
Arguments export_single_node_group {R} export_node_properties node_group.

(** ** A runtime to evaluate the exporter on

    CPython on printable ASCII text and on U+0130, LATIN CAPITAL LETTER I
    WITH DOT ABOVE, which is alphanumeric and whose lower case is the two
    code points U+0069 U+0307 ([SpecialCasing.txt]); a float is given by its
    number of tenths, which both renderings print with one decimal. *)

Definition reference_lower (s : pystr) : pystr :=
  flat_map (λ c, if (c =? 304)%N then [105; 775]%N else [ascii_lower c]) s.

Definition reference_str_repr (s : pystr) : pystr :=
  let quote := if bool_decide (39%N ∈ s) && negb (bool_decide (34%N ∈ s))
               then 34%N else 39%N in
  [quote]
  ++ flat_map (λ c, if (c =? 92)%N || (c =? quote)%N then [92%N; c] else [c]) s
  ++ [quote].

Definition tenths_repr (x : Z) : pystr :=
  (if bool_decide (x < 0)%Z then py "-" else [])
  ++ py (pretty (Z.abs x `div` 10)%Z) ++ py "." ++ py (pretty (Z.abs x `mod` 10)%Z).

Definition reference_runtime : PythonRuntime := {|
  float := Z;
  float_repr := tenths_repr;
  float_format_1f := tenths_repr;
  str_repr := reference_str_repr;
  char_isalnum := λ c, ascii_isalnum c || (c =? 304)%N;
  char_isdigit := ascii_isdigit;
  str_lower := reference_lower;
|}.


(** ** Notions the properties are stated with *)

(** A lowercase ASCII letter, an ASCII digit or the underscore. *)
Definition identifier_char (c : N) : bool :=
  ascii_islower c || ascii_isdigit c || (c =? UNDERSCORE)%N.

(** The code points below 128. *)
Definition ASCII_RANGE : list N := N.of_nat <$> seq 0 128.

(** What [sanitize_name] gives before it lowers the case. *)
Definition before_lower {R : PythonRuntime} (name : pystr) : pystr :=
  let result := sanitize_char <$> name in
  let result :=
    match result with
    | c :: _ => if char_isdigit c then UNDERSCORE :: result else result
    | [] => result
    end in
  match result with [] => py "node" | _ => result end.

(** The node tree with other links. *)
Definition with_links {R : PythonRuntime} (node_group : NodeTree) (ls : list Link) : NodeTree :=
  {| tree_name := tree_name node_group;
     tree_bl_idname := tree_bl_idname node_group;
     interface := interface node_group;
     nodes := nodes node_group;
     links := ls |}.

(** The connect-statement between position [i] of the outputs of the
    variable [from_var] and position [j] of the inputs of [to_var]. *)
Definition connect_statement (from_var : pystr) (i : nat) (to_var : pystr) (j : nat) : pystr :=
  py "    node_group.links.new(" ++ from_var ++ py ".outputs[" ++ nat_str i ++ py "], "
  ++ to_var ++ py ".inputs[" ++ nat_str j ++ py "])".

(** ** Notions about the references between node trees *)

Section ReferenceGraph.
Context {R : PythonRuntime} (heap : Heap).

(** [x] has a group node whose node tree is [y]. *)
Definition references (x y : positive) : Prop :=
  ∃ node_group node,
    heap !! x = Some node_group ∧ node ∈ nodes node_group ∧
    is_group_node node = true ∧ node_tree node = Some y.

(** Every node tree a group node holds is a live one. *)
Definition closed : Prop := ∀ x y, references x y → is_Some (heap !! y).

(** No two node trees of the host have the same name. *)
Definition unique_names : Prop :=
  ∀ x y gx gy, heap !! x = Some gx → heap !! y = Some gy →
               tree_name gx = tree_name gy → x = y.

(** No node tree references itself, directly or through others. *)
Definition acyclic : Prop := ∀ x, ¬ tc references x x.

(** [y] comes strictly before [x] in [l]. *)
Definition precedes (l : list positive) (y x : positive) : Prop :=
  ∃ i j, l !! i = Some y ∧ l !! j = Some x ∧ i < j.

(** The loop that appends to [nested] the elements of [sub] it lacks. *)
Definition extend_absent (nested sub : list positive) : list positive :=
  foldl (λ acc sub_group, append_if_absent sub_group acc) nested sub.

(** What a call on [p] with the visited set [visited] that returns [l] and
    leaves the visited set [visited'] guarantees. *)
Record find_post (p : positive) (visited : gset pystr) (l : list positive)
    (visited' : gset pystr) : Prop := {
  fp_grows : visited ⊆ visited';
  fp_live : ∀ x, x ∈ l → ∃ gx, heap !! x = Some gx ∧ tree_name gx ∈ visited';
  fp_new : ∀ s, s ∈ visited' →
             s ∈ visited ∨ (∃ g, heap !! p = Some g ∧ s = tree_name g)
             ∨ ∃ x gx, x ∈ l ∧ heap !! x = Some gx ∧ tree_name gx = s;
  fp_reach : ∀ x, x ∈ l → tc references p x;
  fp_nodup : NoDup l;
  fp_self : ∃ g, heap !! p = Some g ∧ tree_name g ∈ visited';
  fp_children : ∀ g, heap !! p = Some g → tree_name g ∉ visited →
                  ∀ t, references p t → t ∈ l;
}.

(** The invariant of the loop over the nodes of [g], the node tree at [p],
    once the nodes [done] are behind. *)
Record loop_inv (p : positive) (g : NodeTree) (visited : gset pystr) (done : list Node)
    (st : list positive * gset pystr) : Prop := {
  li_grows : {[tree_name g]} ∪ visited ⊆ st.2;
  li_live : ∀ x, x ∈ st.1 → ∃ gx, heap !! x = Some gx ∧ tree_name gx ∈ st.2;
  li_new : ∀ s, s ∈ st.2 →
             s ∈ {[tree_name g]} ∪ visited
             ∨ ∃ x gx, x ∈ st.1 ∧ heap !! x = Some gx ∧ tree_name gx = s;
  li_reach : ∀ x, x ∈ st.1 → tc references p x;
  li_nodup : NoDup st.1;
  li_children : ∀ node t, node ∈ done → is_group_node node = true →
                  node_tree node = Some t → t ∈ st.1;
}.

(** [y] is in the part of [l] that comes before an occurrence of [x]. *)
Definition occurs_before (l : list positive) (y x : positive) : Prop :=
  ∃ l1 l2, l = l1 ++ x :: l2 ∧ y ∈ l1.

(** The node trees whose name is not in the visited set: what a recursion
    can still enter. *)
Definition unvisited (visited : gset pystr) : gmap positive NodeTree :=
  filter (λ entry, tree_name entry.2 ∉ visited) heap.

(** A node tree of the list that the call was the first to enter has the
    node trees it references before it. *)
Definition ordered_post (visited : gset pystr) (l : list positive) : Prop :=
  ∀ x, x ∈ l → (∀ gx, heap !! x = Some gx → tree_name gx ∉ visited) →
       ∀ y, references x y → occurs_before l y x.

(** The state of the graph at [p]: the node trees that [p] reaches through
    the references.  Another host state has the same when its node trees at
    these pointers are the same. *)
Definition same_graph_state (heap' : Heap) (p : positive) : Prop :=
  ∀ x, rtc references p x → heap !! x = heap' !! x.

(** Checks of the three conditions that evaluate on a given heap. *)
Definition live_reference (node : Node) : bool :=
  negb (is_group_node node)
  || match node_tree node with
     | Some t => bool_decide (is_Some (heap !! t))
     | None => true
     end.

Definition closedb : bool :=
  forallb (λ entry, forallb live_reference (nodes entry.2)) (map_to_list heap).

Definition unique_namesb : bool :=
  bool_decide (NoDup ((λ entry, tree_name entry.2) <$> map_to_list heap)).

(** Every reference goes to a node tree of smaller rank. *)
Definition descending_reference (rank : positive → nat) (x : positive) (node : Node) : bool :=
  negb (is_group_node node)
  || match node_tree node with
     | Some t => bool_decide (rank t < rank x)
     | None => true
     end.

Definition rankedb (rank : positive → nat) : bool :=
  forallb (λ entry, forallb (descending_reference rank entry.1) (nodes entry.2))
          (map_to_list heap).

End ReferenceGraph.

(** ** Node trees to evaluate the exporter on *)

Section Examples.
#[local] Existing Instance reference_runtime.

(** The property exporter on nodes that have no setting to replay, as the
    kinds the source passes over ([GeometryNodeTransform] and the like). *)
Definition no_properties : Node → pystr → outcome (list pystr) := λ _ _, Return [].

Definition plain_socket (ptr : positive) : Socket :=
  {| socket_ptr := ptr; default_value := None; is_linked := false |}.

Definition plain_node (name idname : string) (ins outs : list Socket)
    (tree : option positive) : Node :=
  {| node_name := py name; node_label := []; node_bl_idname := py idname;
     location_x := 0%Z; location_y := 0%Z; node_width := Some 1400%Z;
     node_hide := false; node_mute := false;
     inputs := ins; outputs := outs; node_tree := tree |}.

(** A grid feeding a transform: the second output into the first input. *)
Definition grid_node : Node :=
  plain_node "Grid" "GeometryNodeMeshGrid" [] [plain_socket 1; plain_socket 2] None.
Definition transform_node : Node :=
  plain_node "Transform" "GeometryNodeTransform" [plain_socket 3; plain_socket 4]
    [plain_socket 5] None.
Definition grid_link : Link :=
  {| from_node := grid_node; to_node := transform_node;
     from_socket := plain_socket 2; to_socket := plain_socket 3 |}.

(** A link that ends in a node which is not in the tree. *)
Definition removed_node : Node :=
  plain_node "Removed" "GeometryNodeTransform" [plain_socket 6] [] None.
Definition dangling_link : Link :=
  {| from_node := grid_node; to_node := removed_node;
     from_socket := plain_socket 1; to_socket := plain_socket 6 |}.

(** A link whose nodes are in the tree and whose input socket is not among
    the inputs of its node. *)
Definition stale_link : Link :=
  {| from_node := grid_node; to_node := transform_node;
     from_socket := plain_socket 1; to_socket := plain_socket 9 |}.

Definition grid_tree (ls : list Link) : NodeTree :=
  {| tree_name := py "Grid Setup"; tree_bl_idname := py "GeometryNodeTree";
     interface := None; nodes := [grid_node; transform_node]; links := ls |}.

(** A shader tree that groups a geometry tree: a heap of two node trees. *)
Definition wrapped_geometry_tree : NodeTree :=
  {| tree_name := py "Scatter"; tree_bl_idname := py "GeometryNodeTree";
     interface := None; nodes := [transform_node]; links := [] |}.
Definition wrapping_shader_tree : NodeTree :=
  {| tree_name := py "Surface"; tree_bl_idname := py "ShaderNodeTree";
     interface := None;
     nodes := [plain_node "Group" "GeometryNodeGroup" [] [] (Some 2%positive)];
     links := [] |}.
Definition wrapping_heap : Heap :=
  <[1%positive := wrapping_shader_tree]> (<[2%positive := wrapped_geometry_tree]> ∅).

(** A node tree of the geometry kind whose nodes group the given trees. *)
Definition grouping_tree (name : string) (trees : list positive) : NodeTree :=
  {| tree_name := py name; tree_bl_idname := py "GeometryNodeTree";
     interface := None;
     nodes := (λ t, plain_node "Group" "GeometryNodeGroup" [] [] (Some t)) <$> trees;
     links := [] |}.

(** A references B and B references A. *)
Definition cycle_heap : Heap :=
  <[1%positive := grouping_tree "A" [2%positive]]>
    (<[2%positive := grouping_tree "B" [1%positive]]> ∅).

(** Main groups A and B; A groups C; B groups C and D; C groups D: the
    dependencies are shared. *)
Definition shared_heap : Heap :=
  <[1%positive := grouping_tree "Main" [2; 3]%positive]>
    (<[2%positive := grouping_tree "A" [4%positive]]>
      (<[3%positive := grouping_tree "B" [4; 5]%positive]>
        (<[4%positive := grouping_tree "C" [5%positive]]>
          (<[5%positive := grouping_tree "D" []]> ∅)))).

Definition shared_rank (x : positive) : nat := 10 - Pos.to_nat x.

(** The same host with one more node tree, which nothing references. *)
Definition shared_heap_and_more : Heap :=
  <[9%positive := grid_tree [grid_link]]> shared_heap.

End Examples.

(** ** The socket type resolver *)

(** The dictionary [socket_type_map] of [get_socket_type]. *)
Definition SOCKET_TYPE_TABLE : list (pystr * pystr) :=
  [(py "VALUE", py "NodeSocketFloat");
   (py "INT", py "NodeSocketInt");
   (py "BOOLEAN", py "NodeSocketBool");
   (py "VECTOR", py "NodeSocketVector");
   (py "RGBA", py "NodeSocketColor");
   (py "STRING", py "NodeSocketString");
   (py "SHADER", py "NodeSocketShader");
   (py "OBJECT", py "NodeSocketObject");
   (py "IMAGE", py "NodeSocketImage");
   (py "GEOMETRY", py "NodeSocketGeometry");
   (py "COLLECTION", py "NodeSocketCollection");
   (py "MATERIAL", py "NodeSocketMaterial");
   (py "TEXTURE", py "NodeSocketTexture");
   (py "ROTATION", py "NodeSocketRotation");
   (py "MENU", py "NodeSocketMenu")].

Definition socket_type_map : gmap pystr pystr := list_to_map SOCKET_TYPE_TABLE.

(** [get_socket_type(socket)], on what it reads of the socket: its attribute
    [type], [None] when the socket has no such attribute. *)
Definition get_socket_type (socket_type : option pystr) : pystr :=
  match socket_type with
  | Some type => default (py "NodeSocketFloat") (socket_type_map !! type)
  | None => py "NodeSocketFloat"
  end.

(** ** Notions about the links of a node tree *)

Section LinkNotions.
Context {R : PythonRuntime}.

(** Both nodes of the link are nodes of the tree and each socket is among
    the sockets of its node. *)
Definition link_well_formed (node_group : NodeTree) (link : Link) : Prop :=
  from_node link ∈ nodes node_group ∧ to_node link ∈ nodes node_group ∧
  socket_ptr (from_socket link) ∈ socket_ptr <$> outputs (from_node link) ∧
  socket_ptr (to_socket link) ∈ socket_ptr <$> inputs (to_node link).

(** A node of the link has a name that no node of the tree has. *)
Definition link_dangling (node_group : NodeTree) (link : Link) : Prop :=
  node_name (from_node link) ∉ node_name <$> nodes node_group
  ∨ node_name (to_node link) ∉ node_name <$> nodes node_group.

(** The link goes from output [i] of the node at [p] to input [j] of the
    node at [q], and [statement] is the connect-statement of these
    positions. *)
Definition link_statement_at (node_group : NodeTree) (link : Link) (statement : pystr) : Prop :=
  ∃ p q i j,
    nodes node_group !! p = Some (from_node link) ∧
    nodes node_group !! q = Some (to_node link) ∧
    outputs (from_node link) !! i = Some (from_socket link) ∧
    inputs (to_node link) !! j = Some (to_socket link) ∧
    statement = connect_statement (single_var_name p (from_node link)) i
                                  (single_var_name q (to_node link)) j.

(** The statement that assigns the default value [default_val] to the input
    at position [j] of the variable [var_name]. *)
Definition default_statement (var_name : pystr) (j : nat) (default_val : pystr) : pystr :=
  py "            " ++ var_name ++ py ".inputs[" ++ nat_str j
  ++ py "].default_value = " ++ default_val.

End LinkNotions.

(** ** The text of the nested groups *)

(** What the routines of the nested groups make in the exported text:
    nothing when there is none; else the banner of the nested groups, the
    routines in order, each followed by an empty line, and the banner of
    the main group. *)
Definition nested_section (routines : list pystr) : pystr :=
  match routines with
  | [] => []
  | _ => py "# === Nested Node Groups (Dependencies) ===" ++ [NEWLINE; NEWLINE]
         ++ concat ((λ text, text ++ [NEWLINE; NEWLINE]) <$> routines)
         ++ py "# === Main Node Group ===" ++ [NEWLINE; NEWLINE]
  end.

(** ** Node trees that the emitters take *)

Section Exportable.
Context {R : PythonRuntime}.
Variable export_node_properties : Node → pystr → outcome (list pystr).

(** The properties of every node are emitted, the default value of every
    input that is not linked formats, and every link is well formed or
    dangling. *)
Definition exportable (node_group : NodeTree) : Prop :=
  (∀ i node, nodes node_group !! i = Some node →
             ∃ ls, export_node_properties node (single_var_name i node) = Return ls) ∧
  (∀ node socket val, node ∈ nodes node_group → socket ∈ inputs node →
                      is_linked socket = false → default_value socket = Some val →
                      ∃ r, format_value val = Return r) ∧
  Forall (λ link, link_well_formed node_group link ∨ link_dangling node_group link)
         (links node_group).

End Exportable.

(** An ASCII digit, as a character of a Rocq string. *)
Definition is_digit_ascii (a : ascii) : Prop := ascii_isdigit (N_of_ascii a) = true.

(** ** More notions about the references *)

Section ReferenceClosure.
Context {R : PythonRuntime} (heap : Heap).

(** A node tree of the list that the call was the first to enter has the
    node trees it references in the list. *)
Definition closed_post (visited : gset pystr) (l : list positive) : Prop :=
  ∀ x, x ∈ l → (∀ gx, heap !! x = Some gx → tree_name gx ∉ visited) →
       ∀ y, references heap x y → y ∈ l.

(** No group node of the tree holds a node tree. *)
Definition no_nested_group (node_group : NodeTree) : Prop :=
  Forall (λ node, is_group_node node = false ∨ node_tree node = None) (nodes node_group).

End ReferenceClosure.

(** ** Example values and trees for the emitters *)

Section MoreExamples.
#[local] Existing Instance reference_runtime.

(** A value that is not iterable and whose [repr] raises. *)
Definition broken_value : PyValue := PyObject (py "Broken") None (Raise RuntimeError).

(** A transform whose second input has a float default and whose third
    input has the broken value as default. *)
Definition default_socket (ptr : positive) (val : PyValue) : Socket :=
  {| socket_ptr := ptr; default_value := Some val; is_linked := false |}.

Definition scaled_node : Node :=
  plain_node "Scale" "GeometryNodeTransform"
    [plain_socket 11; default_socket 12 (PyFloat 25%Z)] [plain_socket 13] None.

Definition broken_node : Node :=
  plain_node "Scale" "GeometryNodeTransform"
    [plain_socket 11; default_socket 12 (PyFloat 25%Z); default_socket 14 broken_value]
    [plain_socket 13] None.

Definition single_node_tree (node : Node) : NodeTree :=
  {| tree_name := py "Scaling"; tree_bl_idname := py "GeometryNodeTree";
     interface := None; nodes := [node]; links := [] |}.

(** A host whose only node tree groups a node tree that is gone. *)
Definition dangling_heap : Heap := {[ 1%positive := grouping_tree "Main" [2%positive] ]}.

End MoreExamples.

(** ** The two operators

    An operator talks to the host: it reports, sets the clipboard, writes a
    file and a text block.  [execute] is modelled by the calls it makes to
    the host, in order, and by what it returns or raises.  What the host
    answers is given by [Host]: the attribute [type] of a node, whether a
    text block of a name exists, [os.path], and whether creating a
    directory or writing a file raises ([Some message], the text of the
    exception) or not. *)

Inductive report_type := ERROR | WARNING | INFO.

Inductive operator_result := CANCELLED | FINISHED.

Inductive host_call :=
| Report (type : report_type) (message : pystr)   (* self.report({type}, message) *)
| SetClipboard (text : pystr)                     (* context.window_manager.clipboard = text *)
| MakeDirs (path : pystr)                         (* os.makedirs(path, exist_ok=True) *)
| WriteFile (path : pystr) (text : pystr)         (* with open(path, 'w') as f: f.write(text) *)
| TextClear (name : pystr)                        (* bpy.data.texts[name].clear() *)
| TextNew (name : pystr)                          (* bpy.data.texts.new(name) *)
| TextWrite (name : pystr) (text : pystr).        (* text_block.write(text) *)

Record Host {R : PythonRuntime} := {
  node_type : Node → pystr;
  text_exists : pystr → bool;
  os_path_isdir : pystr → bool;
  os_path_dirname : pystr → pystr;
  os_path_join : pystr → pystr → pystr;
  os_makedirs : pystr → option pystr;
  file_write : pystr → pystr → option pystr;
}.

(** The properties of the operator [NODE_OT_export_to_python]. *)
Record ExportOptions := {
  copy_to_clipboard : bool;
  save_to_file : bool;
  auto_assign : bool;
  include_nested : bool;
  filepath : pystr;
}.

Section Operators.
Context {R : PythonRuntime}.
Variable export_node_properties : Node → pystr → outcome (list pystr).
Variable host : Host.

(** [has_material_output and not has_interface] *)
Definition material_level (node_tree : NodeTree) : bool :=
  let has_material_output :=
    existsb (λ node, bool_decide (node_type host node = py "OUTPUT_MATERIAL")) (nodes node_tree) in
  let has_interface :=
    match interface node_tree with
    | Some items_tree => bool_decide (0 < length items_tree)
    | None => false
    end in
  has_material_output && negb has_interface.

(** The [try] block that saves the file: the calls it makes, and whether
    it went through ([false]: the [except] branch was taken). *)
Definition save_file (options : ExportOptions) (node_tree : NodeTree) (python_code : pystr)
    : list host_call * bool :=
  let filename := sanitize_name (tree_name node_tree) ++ py ".py" in
  let write full_path :=
    match file_write host full_path python_code with
    | None =>
        ([WriteFile full_path python_code; Report INFO (py "Saved to " ++ full_path)], true)
    | Some message =>
        ([WriteFile full_path python_code;
          Report ERROR (py "Failed to save file: " ++ message)], false)
    end in
  if os_path_isdir host (filepath options) then
    write (os_path_join host (filepath options) filename)
  else
    let parent_dir := os_path_dirname host (filepath options) in
    if negb (bool_decide (parent_dir = [])) && os_path_isdir host parent_dir then
      write (filepath options)
    else
      match os_makedirs host (filepath options) with
      | None =>
          let '(calls, ok) := write (os_path_join host (filepath options) filename) in
          (MakeDirs (filepath options) :: calls, ok)
      | Some message =>
          ([MakeDirs (filepath options);
            Report ERROR (py "Failed to save file: " ++ message)], false)
      end.

(** The end of both [execute]: the text block of the name of the tree. *)
Definition write_text_block (node_tree : NodeTree) (python_code : pystr) : list host_call :=
  let text_name := tree_name node_tree ++ py "_export.py" in
  [if text_exists host text_name then TextClear text_name else TextNew text_name;
   TextWrite text_name python_code].

(** [NODE_OT_export_to_python.execute], [edit_tree] being
    [context.space_data.edit_tree]. *)
Definition execute (heap : Heap) (options : ExportOptions) (edit_tree : option positive)
    : list host_call * outcome operator_result :=
  match edit_tree with
  | None => ([Report ERROR (py "No node tree found")], Return CANCELLED)
  | Some p =>
      match deref heap p with
      | Raise e => ([], Raise e)
      | Return node_tree =>
          let warning :=
            if material_level node_tree
            then [Report WARNING (py "You're exporting a material tree. To export only a node group, Tab into it first!")]
            else [] in
          match export_node_group_to_python export_node_properties heap p
                  (auto_assign options) (include_nested options) with
          | Raise e => (warning, Raise e)
          | Return python_code =>
              let clipboard :=
                if copy_to_clipboard options
                then [SetClipboard python_code;
                      Report INFO (py "Python code copied to clipboard ("
                                   ++ nat_str (length python_code) ++ py " characters)")]
                else [] in
              let '(saving, saved) :=
                if save_to_file options && negb (bool_decide (filepath options = []))
                then save_file options node_tree python_code
                else ([], true) in
              if saved then
                (warning ++ clipboard ++ saving
                 ++ write_text_block node_tree python_code
                 ++ [Report INFO (py "Code also saved to text block: "
                                  ++ tree_name node_tree ++ py "_export.py")],
                 Return FINISHED)
              else (warning ++ clipboard ++ saving, Return CANCELLED)
          end
      end
  end.

(** [NODE_OT_export_to_python_quick.execute] *)
Definition execute_quick (heap : Heap) (edit_tree : option positive)
    : list host_call * outcome operator_result :=
  match edit_tree with
  | None => ([Report ERROR (py "No node tree found")], Return CANCELLED)
  | Some p =>
      match deref heap p with
      | Raise e => ([], Raise e)
      | Return node_tree =>
          let warning :=
            if material_level node_tree
            then [Report WARNING (py "Exporting material tree. To export only a node group, Tab into it first!")]
            else [] in
          match export_node_group_to_python export_node_properties heap p true true with
          | Raise e => (warning, Raise e)
          | Return python_code =>
              (warning ++ [SetClipboard python_code]
               ++ write_text_block node_tree python_code
               ++ [Report INFO (py "Exported '" ++ tree_name node_tree
                                ++ py "' to clipboard and text block")],
               Return FINISHED)
          end
      end
  end.

(** The calls that are not reports: what the host is left with. *)
Definition is_report (call : host_call) : bool :=
  match call with Report _ _ => true | _ => false end.

Definition sink_calls (calls : list host_call) : list host_call :=
  filter (λ call, is_report call = false) calls.

(** A call on the text blocks of the host. *)
Definition is_text_call (call : host_call) : bool :=
  match call with TextClear _ | TextNew _ | TextWrite _ _ => true | _ => false end.

(** The text that a call hands to the host, when it hands one. *)
Definition text_of_call (call : host_call) : option pystr :=
  match call with
  | SetClipboard text | WriteFile _ text | TextWrite _ text => Some text
  | _ => None
  end.

End Operators.

(** A host to evaluate the operators on: no text block yet; the directories
    are [/] and [/tmp], and files can be written under [/tmp] only. *)
Definition reference_host : Host (R := reference_runtime) := {|
  node_type := λ _, py "CUSTOM";
  text_exists := λ _, false;
  os_path_isdir := λ path, bool_decide (path = py "/tmp") || bool_decide (path = py "/");
  os_path_dirname := λ path, if bool_decide (take 5 path = py "/tmp/") then py "/tmp" else py "/";
  os_path_join := λ dir name, dir ++ py "/" ++ name;
  os_makedirs := λ _, Some (py "[Errno 13] Permission denied");
  file_write := λ path _,
    if bool_decide (take 5 path = py "/tmp/") then None
    else Some (py "[Errno 13] Permission denied");
|}.

Definition quick_options (path : pystr) : ExportOptions :=
  {| copy_to_clipboard := true; save_to_file := false; auto_assign := true;
     include_nested := true; filepath := path |}.

Definition saving_options (path : pystr) : ExportOptions :=
  {| copy_to_clipboard := true; save_to_file := true; auto_assign := true;
     include_nested := true; filepath := path |}.

(** ** The properties of a node

    [export_node_properties(lines, node, var_name)] reads attributes that
    depend on the class of the node and that [Node] does not list.  What
    the host answers on them is given by [NodeHost]: whether the node has
    an attribute, the text an f-string puts for [{node.NAME}] or what
    reading it raises, the color ramp, the image, the properties the class
    declares ([node.bl_rna.properties]) and [getattr]. *)

Record RnaProperty := {
  identifier : pystr;
  is_readonly : bool;
  prop_type : pystr;                  (* prop.type *)
}.

Record ColorRampElement := {
  elem_position : pystr;              (* the text of {elem.position} *)
  elem_color : pystr;                 (* the text of {tuple(elem.color)} *)
}.

Record NodeHost {R : PythonRuntime} := {
  node_hasattr : Node → pystr → bool;                    (* hasattr(node, NAME) *)
  node_attr : Node → pystr → outcome pystr;              (* {node.NAME} *)
  color_ramp_attr : Node → pystr → outcome pystr;        (* {node.color_ramp.NAME} *)
  color_ramp_elements : Node → outcome (list ColorRampElement);
  node_image : Node → outcome (option pystr);            (* node.image, by its name; None: no image *)
  bl_rna_properties : Node → outcome (list RnaProperty);
  node_getattr : Node → pystr → outcome (option pystr);  (* getattr(node, NAME) put as {value}; None: the value None *)
}.

Definition SKIP_PROPS : list pystr :=
  [py "name"; py "label"; py "location"; py "width";
   py "width_hidden"; py "height"; py "dimensions"; py "type";
   py "bl_idname"; py "bl_label"; py "bl_description"; py "bl_icon";
   py "bl_static_type"; py "bl_width_default"; py "bl_width_min"; py "bl_width_max";
   py "bl_height_default"; py "bl_height_min"; py "bl_height_max"; py "color";
   py "use_custom_color"; py "select"; py "show_options"; py "show_preview";
   py "hide"; py "mute"; py "show_texture"; py "inputs";
   py "outputs"; py "internal_links"; py "parent"; py "rna_type";
   py "is_registered_node_type"; py "location_absolute"; py "warning_propagation"; py "is_active_output"].

(** Statements in sequence, each appending its lines. *)
Definition block (stmts : list (outcome (list pystr))) : outcome (list pystr) :=
  for_lines id stmts.

(** [try: for x in l: body(x)] with [except: pass]: the lines appended
    before an exception stay. *)
Fixpoint try_for_lines {A} (f : A → outcome (list pystr)) (l : list A) : list pystr :=
  match l with
  | [] => []
  | x :: l' =>
      match f x with
      | Return ls => ls ++ try_for_lines f l'
      | Raise _ => []
      end
  end.

Section NodeProperties.
Context {R : PythonRuntime}.
Variable host : NodeHost.
Variable heap : Heap.

(** [lines.append(f"    {var_name}.NAME = '{node.NAME}'")] *)
Definition assign_quoted (node : Node) (var_name name : pystr) : outcome (list pystr) :=
  value ← node_attr host node name;
  Return [py "    " ++ var_name ++ py "." ++ name ++ py " = '" ++ value ++ py "'"].

(** [lines.append(f"    {var_name}.NAME = {node.NAME}")] *)
Definition assign_plain (node : Node) (var_name name : pystr) : outcome (list pystr) :=
  value ← node_attr host node name;
  Return [py "    " ++ var_name ++ py "." ++ name ++ py " = " ++ value].

(** [if hasattr(node, 'NAME'): body] *)
Definition if_hasattr (node : Node) (name : pystr) (body : outcome (list pystr))
    : outcome (list pystr) :=
  if node_hasattr host node name then body else Return [].

(** The branch of [ShaderNodeValToRGB]. *)
Definition color_ramp_lines (node : Node) (var_name : pystr) : outcome (list pystr) :=
  color_mode ← color_ramp_attr host node (py "color_mode");
  interpolation ← color_ramp_attr host node (py "interpolation");
  elements ← color_ramp_elements host node;
  Return ([py "    # Color Ramp settings";
           py "    " ++ var_name ++ py ".color_ramp.color_mode = '" ++ color_mode ++ py "'";
           py "    " ++ var_name ++ py ".color_ramp.interpolation = '" ++ interpolation ++ py "'";
           py "    # Remove default elements and add new ones";
           py "    while len(" ++ var_name ++ py ".color_ramp.elements) > 1:";
           py "        " ++ var_name ++ py ".color_ramp.elements.remove(" ++ var_name
           ++ py ".color_ramp.elements[0])"]
          ++ flat_map (λ '(k, elem),
               if decide (k = 0) then
                 [py "    " ++ var_name ++ py ".color_ramp.elements[0].position = "
                  ++ elem_position elem;
                  py "    " ++ var_name ++ py ".color_ramp.elements[0].color = "
                  ++ elem_color elem]
               else
                 [py "    elem_" ++ nat_str k ++ py " = " ++ var_name
                  ++ py ".color_ramp.elements.new(" ++ elem_position elem ++ py ")";
                  py "    elem_" ++ nat_str k ++ py ".color = " ++ elem_color elem])
             (enumerate elements)).

(** [if node.image:] of the branch of [ShaderNodeTexImage]. *)
Definition image_note_lines (node : Node) (var_name : pystr) : outcome (list pystr) :=
  image ← node_image host node;
  match image with
  | Some image_name =>
      Return [py "    # Note: Image `" ++ image_name ++ py "` needs to be loaded separately";
              py "    # " ++ var_name ++ py ".image = bpy.data.images.load(`path/to/image`)"]
  | None => Return []
  end.

(** [if node.node_tree:] of the branches of [GeometryNodeGroup] and of
    [ShaderNodeGroup], which have the same text. *)
Definition nested_group_lines (node : Node) (var_name : pystr) : outcome (list pystr) :=
  match node_tree node with
  | Some p =>
      nested_tree ← deref heap p;
      Return [py "    # Nested node group: " ++ tree_name nested_tree;
              py "    if `" ++ tree_name nested_tree ++ py "` in bpy.data.node_groups:";
              py "        " ++ var_name ++ py ".node_tree = bpy.data.node_groups[`"
              ++ tree_name nested_tree ++ py "`]";
              py "    else:";
              py "        print(`Warning: Node group \`" ++ tree_name nested_tree
              ++ py "\` not found. Please create it first.`)"]
  | None => Return []
  end.

(** The body of the loop of the generic fallback. *)
Definition generic_property_lines (node : Node) (var_name : pystr) (prop : RnaProperty)
    : outcome (list pystr) :=
  if decide (identifier prop ∈ SKIP_PROPS) then Return []
  else if is_readonly prop then Return []
  else if decide (prop_type prop = py "ENUM") then
    try_except
      (value ← node_getattr host node (identifier prop);
       match value with
       | Some value =>
           Return [py "    " ++ var_name ++ py "." ++ identifier prop
                   ++ py " = '" ++ value ++ py "'"]
       | None => Return []
       end)
      (Return [])
  else if decide (prop_type prop = py "BOOLEAN") then
    try_except
      (value ← node_getattr host node (identifier prop);
       match value with
       | Some value =>
           Return [py "    " ++ var_name ++ py "." ++ identifier prop ++ py " = " ++ value]
       | None => Return []
       end)
      (Return [])
  else Return [].

(** The generic fallback. *)
Definition generic_lines (node : Node) (var_name : pystr) : outcome (list pystr) :=
  match bl_rna_properties host node with
  | Return properties => Return (try_for_lines (generic_property_lines node var_name) properties)
  | Raise _ => Return []
  end.

(** [export_node_properties(lines, node, var_name)]: the lines appended. *)
Definition export_node_properties (node : Node) (var_name : pystr) : outcome (list pystr) :=
  if decide (node_bl_idname node = py "ShaderNodeMath") then
    block [assign_quoted node var_name (py "operation");
           if_hasattr node (py "use_clamp")
             (assign_plain node var_name (py "use_clamp"))]
  else if decide (node_bl_idname node = py "ShaderNodeVectorMath") then
    block [assign_quoted node var_name (py "operation")]
  else if decide (node_bl_idname node = py "ShaderNodeMix") then
    block [assign_quoted node var_name (py "data_type");
           assign_quoted node var_name (py "blend_type");
           assign_plain node var_name (py "clamp_factor");
           assign_plain node var_name (py "clamp_result")]
  else if decide (node_bl_idname node = py "ShaderNodeMixRGB") then
    block [assign_quoted node var_name (py "blend_type");
           assign_plain node var_name (py "use_clamp")]
  else if decide (node_bl_idname node = py "ShaderNodeMapRange") then
    block [assign_quoted node var_name (py "data_type");
           assign_quoted node var_name (py "interpolation_type");
           assign_plain node var_name (py "clamp")]
  else if decide (node_bl_idname node = py "ShaderNodeValToRGB") then
    color_ramp_lines node var_name
  else if decide (node_bl_idname node = py "ShaderNodeTexNoise") then
    block [assign_quoted node var_name (py "noise_dimensions");
           if_hasattr node (py "noise_type")
             (assign_quoted node var_name (py "noise_type"));
           if_hasattr node (py "normalize")
             (assign_plain node var_name (py "normalize"))]
  else if decide (node_bl_idname node = py "ShaderNodeTexVoronoi") then
    block [assign_quoted node var_name (py "voronoi_dimensions");
           assign_quoted node var_name (py "feature");
           assign_quoted node var_name (py "distance");
           if_hasattr node (py "normalize")
             (assign_plain node var_name (py "normalize"))]
  else if decide (node_bl_idname node = py "ShaderNodeTexGradient") then
    block [assign_quoted node var_name (py "gradient_type")]
  else if decide (node_bl_idname node = py "ShaderNodeTexWave") then
    block [assign_quoted node var_name (py "wave_type");
           assign_quoted node var_name (py "bands_direction");
           assign_quoted node var_name (py "wave_profile")]
  else if decide (node_bl_idname node = py "ShaderNodeTexMusgrave") then
    block [assign_quoted node var_name (py "musgrave_dimensions");
           assign_quoted node var_name (py "musgrave_type")]
  else if decide (node_bl_idname node = py "ShaderNodeTexImage") then
    block [image_note_lines node var_name;
           assign_quoted node var_name (py "interpolation");
           assign_quoted node var_name (py "projection");
           assign_quoted node var_name (py "extension")]
  else if decide (node_bl_idname node = py "ShaderNodeBsdfPrincipled") then
    block [assign_quoted node var_name (py "distribution");
           assign_quoted node var_name (py "subsurface_method")]
  else if decide (node_bl_idname node = py "ShaderNodeBump") then
    block [assign_plain node var_name (py "invert")]
  else if decide (node_bl_idname node = py "ShaderNodeNormalMap") then
    block [assign_quoted node var_name (py "space")]
  else if decide (node_bl_idname node = py "ShaderNodeSeparateColor") then
    block [assign_quoted node var_name (py "mode")]
  else if decide (node_bl_idname node = py "ShaderNodeCombineColor") then
    block [assign_quoted node var_name (py "mode")]
  else if decide (node_bl_idname node = py "ShaderNodeClamp") then
    block [assign_quoted node var_name (py "clamp_type")]
  else if decide (node_bl_idname node = py "ShaderNodeVectorRotate") then
    block [assign_quoted node var_name (py "rotation_type");
           assign_plain node var_name (py "invert")]
  else if decide (node_bl_idname node = py "GeometryNodeGroup") then
    nested_group_lines node var_name
  else if decide (node_bl_idname node = py "ShaderNodeGroup") then
    nested_group_lines node var_name
  else if decide (node_bl_idname node = py "FunctionNodeCompare") then
    block [assign_quoted node var_name (py "data_type");
           assign_quoted node var_name (py "operation");
           if_hasattr node (py "mode")
             (assign_quoted node var_name (py "mode"))]
  else if decide (node_bl_idname node = py "GeometryNodeSwitch") then
    block [assign_quoted node var_name (py "input_type")]
  else if decide (node_bl_idname node = py "FunctionNodeBooleanMath") then
    block [assign_quoted node var_name (py "operation")]
  else if decide (node_bl_idname node = py "GeometryNodeObjectInfo") then
    block [assign_quoted node var_name (py "transform_space")]
  else if decide (node_bl_idname node = py "GeometryNodeCollectionInfo") then
    block [assign_quoted node var_name (py "transform_space")]
  else if decide (node_bl_idname node = py "GeometryNodeRaycast") then
    block [assign_quoted node var_name (py "data_type")]
  else if decide (node_bl_idname node = py "GeometryNodeAttributeStatistic") then
    block [assign_quoted node var_name (py "data_type");
           assign_quoted node var_name (py "domain")]
  else if decide (node_bl_idname node = py "GeometryNodeCaptureAttribute") then
    block [assign_quoted node var_name (py "data_type");
           assign_quoted node var_name (py "domain")]
  else if decide (node_bl_idname node = py "GeometryNodeStoreNamedAttribute") then
    block [assign_quoted node var_name (py "data_type");
           assign_quoted node var_name (py "domain")]
  else if decide (node_bl_idname node = py "GeometryNodeInputNamedAttribute") then
    block [assign_quoted node var_name (py "data_type")]
  else if decide (node_bl_idname node = py "GeometryNodeSampleIndex") then
    block [assign_quoted node var_name (py "data_type");
           assign_quoted node var_name (py "domain");
           assign_plain node var_name (py "clamp")]
  else if decide (node_bl_idname node = py "GeometryNodeSampleNearest") then
    block [assign_quoted node var_name (py "domain")]
  else if decide (node_bl_idname node = py "GeometryNodeProximity") then
    block [assign_quoted node var_name (py "target_element")]
  else if decide (node_bl_idname node = py "GeometryNodeMeshBoolean") then
    block [assign_quoted node var_name (py "operation")]
  else if decide (node_bl_idname node = py "GeometryNodeSubdivisionSurface") then
    block [assign_quoted node var_name (py "uv_smooth");
           assign_quoted node var_name (py "boundary_smooth")]
  else if decide (node_bl_idname node = py "GeometryNodeExtrudeMesh") then
    block [assign_quoted node var_name (py "mode")]
  else if decide (node_bl_idname node = py "GeometryNodeDeleteGeometry") then
    block [assign_quoted node var_name (py "domain");
           assign_quoted node var_name (py "mode")]
  else if decide (node_bl_idname node = py "GeometryNodeSeparateGeometry") then
    block [assign_quoted node var_name (py "domain")]
  else if decide (node_bl_idname node = py "GeometryNodeMergeByDistance") then
    block [assign_quoted node var_name (py "mode")]
  else if decide (node_bl_idname node = py "GeometryNodeMeshToPoints") then
    block [assign_quoted node var_name (py "mode")]
  else if decide (node_bl_idname node = py "GeometryNodeDistributePointsOnFaces") then
    block [assign_quoted node var_name (py "distribute_method");
           if_hasattr node (py "use_legacy_normal")
             (assign_plain node var_name (py "use_legacy_normal"))]
  else if decide (node_bl_idname node = py "GeometryNodeCurvePrimitiveCircle") then
    block [assign_quoted node var_name (py "mode")]
  else if decide (node_bl_idname node = py "GeometryNodeCurvePrimitiveLine") then
    block [assign_quoted node var_name (py "mode")]
  else if decide (node_bl_idname node = py "GeometryNodeCurvePrimitiveQuadrilateral") then
    block [assign_quoted node var_name (py "mode")]
  else if decide (node_bl_idname node = py "GeometryNodeFillCurve") then
    block [assign_quoted node var_name (py "mode")]
  else if decide (node_bl_idname node = py "GeometryNodeResampleCurve") then
    block [assign_quoted node var_name (py "mode")]
  else if decide (node_bl_idname node = py "GeometryNodeTrimCurve") then
    block [assign_quoted node var_name (py "mode")]
  else if decide (node_bl_idname node = py "GeometryNodeSetCurveHandlePositions") then
    block [assign_quoted node var_name (py "mode")]
  else if decide (node_bl_idname node = py "GeometryNodeCurveHandleTypeSelection") then
    block [assign_quoted node var_name (py "mode");
           assign_quoted node var_name (py "handle_type")]
  else if decide (node_bl_idname node = py "GeometryNodeSetCurveHandleType") then
    block [assign_quoted node var_name (py "mode");
           assign_quoted node var_name (py "handle_type")]
  else if decide (node_bl_idname node = py "GeometryNodeSetSplineType") then
    block [assign_quoted node var_name (py "spline_type")]
  else if decide (node_bl_idname node = py "GeometryNodeViewer") then
    block [assign_quoted node var_name (py "data_type");
           if_hasattr node (py "domain")
             (assign_quoted node var_name (py "domain"))]
  else if decide (node_bl_idname node = py "GeometryNodeAccumulateField") then
    block [assign_quoted node var_name (py "data_type");
           assign_quoted node var_name (py "domain")]
  else if decide (node_bl_idname node = py "GeometryNodeFieldAtIndex") then
    block [assign_quoted node var_name (py "data_type");
           assign_quoted node var_name (py "domain")]
  else if decide (node_bl_idname node = py "FunctionNodeRandomValue") then
    block [assign_quoted node var_name (py "data_type")]
  else if decide (node_bl_idname node = py "GeometryNodeTriangulate") then
    block [if_hasattr node (py "quad_method")
             (assign_quoted node var_name (py "quad_method"));
           if_hasattr node (py "ngon_method")
             (assign_quoted node var_name (py "ngon_method"))]
  else if decide (node_bl_idname node = py "GeometryNodeTransform") then
    Return []
  else if decide (node_bl_idname node = py "GeometryNodeSetPosition") then
    Return []
  else if decide (node_bl_idname node = py "GeometryNodeMeshGrid") then
    Return []
  else if decide (node_bl_idname node = py "GeometryNodeRealizeInstances") then
    Return []
  else
    generic_lines node var_name.

End NodeProperties.

(** The values of [bl_idname] that [export_node_properties] has a branch
    for, in the order of the branches. *)
Definition DISPATCHED_IDNAMES : list pystr :=
  [py "ShaderNodeMath"; py "ShaderNodeVectorMath";
   py "ShaderNodeMix"; py "ShaderNodeMixRGB";
   py "ShaderNodeMapRange"; py "ShaderNodeValToRGB";
   py "ShaderNodeTexNoise"; py "ShaderNodeTexVoronoi";
   py "ShaderNodeTexGradient"; py "ShaderNodeTexWave";
   py "ShaderNodeTexMusgrave"; py "ShaderNodeTexImage";
   py "ShaderNodeBsdfPrincipled"; py "ShaderNodeBump";
   py "ShaderNodeNormalMap"; py "ShaderNodeSeparateColor";
   py "ShaderNodeCombineColor"; py "ShaderNodeClamp";
   py "ShaderNodeVectorRotate"; py "GeometryNodeGroup";
   py "ShaderNodeGroup"; py "FunctionNodeCompare";
   py "GeometryNodeSwitch"; py "FunctionNodeBooleanMath";
   py "GeometryNodeObjectInfo"; py "GeometryNodeCollectionInfo";
   py "GeometryNodeRaycast"; py "GeometryNodeAttributeStatistic";
   py "GeometryNodeCaptureAttribute"; py "GeometryNodeStoreNamedAttribute";
   py "GeometryNodeInputNamedAttribute"; py "GeometryNodeSampleIndex";
   py "GeometryNodeSampleNearest"; py "GeometryNodeProximity";
   py "GeometryNodeMeshBoolean"; py "GeometryNodeSubdivisionSurface";
   py "GeometryNodeExtrudeMesh"; py "GeometryNodeDeleteGeometry";
   py "GeometryNodeSeparateGeometry"; py "GeometryNodeMergeByDistance";
   py "GeometryNodeMeshToPoints"; py "GeometryNodeDistributePointsOnFaces";
   py "GeometryNodeCurvePrimitiveCircle"; py "GeometryNodeCurvePrimitiveLine";
   py "GeometryNodeCurvePrimitiveQuadrilateral"; py "GeometryNodeFillCurve";
   py "GeometryNodeResampleCurve"; py "GeometryNodeTrimCurve";
   py "GeometryNodeSetCurveHandlePositions"; py "GeometryNodeCurveHandleTypeSelection";
   py "GeometryNodeSetCurveHandleType"; py "GeometryNodeSetSplineType";
   py "GeometryNodeViewer"; py "GeometryNodeAccumulateField";
   py "GeometryNodeFieldAtIndex"; py "FunctionNodeRandomValue";
   py "GeometryNodeTriangulate"; py "GeometryNodeTransform";
   py "GeometryNodeSetPosition"; py "GeometryNodeMeshGrid";
   py "GeometryNodeRealizeInstances"].

(** A line that starts with four spaces: a statement of the body of the
    routine being emitted, or of a block in it. *)
Definition indented (line : pystr) : Prop := take 4 line = py "    ".

(** The statement that binds a group node to the node tree of a name. *)
Definition binding_statement (var_name tree : pystr) : pystr :=
  py "        " ++ var_name ++ py ".node_tree = bpy.data.node_groups[`" ++ tree ++ py "`]".

(** The statement that replays a property of a node of no known kind. *)
Definition replay_statement (var_name : pystr) (prop : RnaProperty) (value : pystr) : pystr :=
  if decide (prop_type prop = py "ENUM")
  then py "    " ++ var_name ++ py "." ++ identifier prop ++ py " = '" ++ value ++ py "'"
  else py "    " ++ var_name ++ py "." ++ identifier prop ++ py " = " ++ value.

(** A host to evaluate the property exporter on: every attribute is there;
    an enumeration reads [LINEAR], [clamp] reads [True]; the ramp has two
    stops; no image; the class declares six properties. *)
Definition reference_node_host : NodeHost (R := reference_runtime) := {|
  node_hasattr := λ _ _, true;
  node_attr := λ _ name, if decide (name = py "clamp") then Return (py "True")
                         else Return (py "LINEAR");
  color_ramp_attr := λ _ name, if decide (name = py "color_mode") then Return (py "RGB")
                               else Return (py "LINEAR");
  color_ramp_elements := λ _,
    Return [ {| elem_position := py "0.0"; elem_color := py "(0.0, 0.0, 0.0, 1.0)" |};
             {| elem_position := py "1.0"; elem_color := py "(1.0, 1.0, 1.0, 1.0)" |} ];
  node_image := λ _, Return None;
  bl_rna_properties := λ _,
    Return [ {| identifier := py "label"; is_readonly := false; prop_type := py "STRING" |};
             {| identifier := py "mute"; is_readonly := false; prop_type := py "BOOLEAN" |};
             {| identifier := py "node_tree"; is_readonly := false; prop_type := py "POINTER" |};
             {| identifier := py "color_tag"; is_readonly := false; prop_type := py "ENUM" |};
             {| identifier := py "is_linked_data"; is_readonly := true; prop_type := py "BOOLEAN" |};
             {| identifier := py "use_alpha"; is_readonly := false; prop_type := py "BOOLEAN" |} ];
  node_getattr := λ _ name, if decide (name = py "color_tag") then Return (Some (py "GROUP"))
                            else if decide (name = py "use_alpha") then Return (Some (py "False"))
                            else Raise RuntimeError;
|}.

Section PropertyExamples.
#[local] Existing Instance reference_runtime.

(** A group node of a compositor tree that holds the node tree at [p]. *)
Definition compositor_group_node (p : positive) : Node :=
  {| node_name := py "Group"; node_label := []; node_bl_idname := py "CompositorNodeGroup";
     location_x := 0%Z; location_y := 0%Z; node_width := Some 1400%Z;
     node_hide := false; node_mute := false;
     inputs := []; outputs := []; node_tree := Some p |}.

(** A compositor tree made of this group node. *)
Definition compositor_tree : NodeTree :=
  {| tree_name := py "Glare"; tree_bl_idname := py "CompositorNodeTree";
     interface := None; nodes := [compositor_group_node 2]; links := [] |}.

(** A color ramp. *)
Definition ramp_node : Node := plain_node "Ramp" "ShaderNodeValToRGB" [] [] None.

End PropertyExamples.

(** ** The identifier sanitizer *)

Lemma ascii_range_complete c : is_ascii c = true → c ∈ ASCII_RANGE.
Proof.
  intros Hc. apply N.ltb_lt in Hc. unfold ASCII_RANGE.
  apply list_elem_of_fmap. exists (N.to_nat c). split; [lia|].
  apply elem_of_seq. lia.
Qed.

(** A property of code points that a table look-up decides holds on ASCII as
    soon as it holds on the 128 code points. *)
Lemma ascii_forall (P : N → bool) :
  forallb P ASCII_RANGE = true → ∀ c, is_ascii c = true → P c = true.
Proof.
  intros H c Hc. rewrite forallb_forall in H. apply H.
  apply list_elem_of_In, ascii_range_complete, Hc.
Qed.

Section Sanitizer.
Context {R : PythonRuntime} (HR : ascii_conformant R).

Lemma sanitize_char_ascii c :
  is_ascii c = true →
  sanitize_char c = if ascii_isalnum c || (c =? UNDERSCORE)%N then c else UNDERSCORE.
Proof. intros Hc. unfold sanitize_char. by rewrite (conf_isalnum R HR c Hc). Qed.

Lemma sanitize_char_ascii_ok c :
  is_ascii c = true →
  is_ascii (sanitize_char c) = true ∧ identifier_char (ascii_lower (sanitize_char c)) = true.
Proof.
  intros Hc. rewrite (sanitize_char_ascii c Hc). revert c Hc.
  assert (∀ c, is_ascii c = true →
    (let c' := if ascii_isalnum c || (c =? UNDERSCORE)%N then c else UNDERSCORE in
     is_ascii c' && identifier_char (ascii_lower c')) = true) as H.
  { apply ascii_forall. vm_compute. reflexivity. }
  intros c Hc. specialize (H c Hc). simpl in H. by apply andb_true_iff in H.
Qed.

Lemma ascii_lower_digit c :
  is_ascii c = true → ascii_isdigit (ascii_lower c) = ascii_isdigit c.
Proof.
  intros Hc.
  assert (∀ c, is_ascii c = true →
    bool_decide (ascii_isdigit (ascii_lower c) = ascii_isdigit c) = true) as H.
  { apply ascii_forall. vm_compute. reflexivity. }
  specialize (H c Hc). by apply bool_decide_eq_true in H.
Qed.

Lemma before_lower_ok name :
  Forall (λ c, is_ascii c = true) name →
  before_lower name ≠ [] ∧
  Forall (λ c, is_ascii c = true ∧ identifier_char (ascii_lower c) = true) (before_lower name) ∧
  (∀ c, head (before_lower name) = Some c → ascii_isdigit c = false).
Proof.
  intros Hname. unfold before_lower.
  assert (Forall (λ c, is_ascii c = true ∧ identifier_char (ascii_lower c) = true)
            (sanitize_char <$> name)) as Hs.
  { apply Forall_fmap. eapply Forall_impl; [exact Hname|].
    intros c Hc. by apply sanitize_char_ascii_ok. }
  destruct (sanitize_char <$> name) as [|c result] eqn:E.
  - split; [done|]. split.
    + repeat constructor.
    + intros c [= <-]. reflexivity.
  - apply Forall_cons in Hs as [[Hc Hid] Hs].
    rewrite (conf_isdigit R HR c Hc).
    destruct (ascii_isdigit c) eqn:Hd.
    + split; [done|]. split.
      * repeat (constructor; try done).
      * intros c' [= <-]. reflexivity.
    + split; [done|]. split.
      * by repeat constructor.
      * intros c' [= <-]. exact Hd.
Qed.

(** C7, as the code has it: on a display name of ASCII characters (the empty
    name, a name that starts with a digit and a name of punctuation only
    among them), [sanitize_name] returns an identifier that is not empty, is
    made of lowercase ASCII letters, ASCII digits and underscores, and does
    not start with a digit. *)
Theorem sanitize_name_ascii_identifier (name : pystr) :
  Forall (λ c, is_ascii c = true) name →
  sanitize_name name ≠ [] ∧
  Forall (λ c, identifier_char c = true) (sanitize_name name) ∧
  (∀ c, head (sanitize_name name) = Some c → ascii_isdigit c = false).
Proof.
  intros Hname.
  destruct (before_lower_ok name Hname) as (Hne & Hall & Hhead).
  change (sanitize_name name) with (str_lower (before_lower name)).
  rewrite (conf_lower R HR); [|eapply Forall_impl; [exact Hall|]; by intros c [? _]].
  split; [|split].
  - destruct (before_lower name); [done|]. discriminate.
  - apply Forall_fmap. eapply Forall_impl; [exact Hall|]. by intros c [_ ?].
  - intros c Hc. destruct (before_lower name) as [|c0 l]; [done|].
    simpl in Hc. injection Hc as <-.
    apply Forall_cons in Hall as [[Hc0 _] _].
    rewrite (ascii_lower_digit c0 Hc0). by apply Hhead.
Qed.

End Sanitizer.

Lemma reference_lower_ascii s :
  Forall (λ c, is_ascii c = true) s → reference_lower s = ascii_lower <$> s.
Proof.
  induction 1 as [|c s Hc _ IH]; [done|].
  unfold reference_lower in *. simpl. rewrite IH.
  destruct (c =? 304)%N eqn:E; [|done].
  apply N.eqb_eq in E. subst c. discriminate.
Qed.

Lemma reference_runtime_conformant : ascii_conformant reference_runtime.
Proof.
  split; simpl.
  - intros c Hc. destruct (c =? 304)%N eqn:E; [|by rewrite orb_false_r].
    apply N.eqb_eq in E. subst c. discriminate.
  - done.
  - apply reference_lower_ascii.
Qed.

Lemma sanitize_name_ascii_identifier_witness :
  let name := py "3D Model (new)" in
  sanitize_name (R := reference_runtime) name = py "_3d_model__new_" ∧
  sanitize_name (R := reference_runtime) name ≠ [] ∧
  Forall (λ c, identifier_char c = true) (sanitize_name (R := reference_runtime) name) ∧
  (∀ c, head (sanitize_name (R := reference_runtime) name) = Some c → ascii_isdigit c = false).
Proof.
  split; [vm_compute; reflexivity|].
  apply (sanitize_name_ascii_identifier reference_runtime_conformant).
  vm_compute. repeat constructor.
Defined.

(** The claim C7 fails on names outside ASCII: the lower case of U+0130 ends
    in the combining mark U+0307, which is neither alphanumeric nor an
    underscore. *)
Lemma sanitize_name_combining_mark :
  sanitize_name (R := reference_runtime) [304%N] = [105%N; 775%N] ∧
  ¬ Forall (λ c, c = UNDERSCORE ∨ char_isalnum (PythonRuntime := reference_runtime) c = true)
      (sanitize_name (R := reference_runtime) [304%N]).
Proof.
  split; [reflexivity|].
  intros H. change (sanitize_name [304%N]) with [105%N; 775%N] in H.
  apply Forall_cons in H as [_ H]. apply Forall_cons in H as [[H|H] _]; discriminate.
Qed.

(** ** The value formatter *)

Section Formatter.
Context {R : PythonRuntime}.

Lemma try_except_returns {A} (m : outcome A) (a : A) : ∃ r, try_except m (Return a) = Return r.
Proof. destruct m; simpl; eauto. Qed.

(** The text, boolean and number rules never raise. *)
Lemma format_value_scalar (val : PyValue) :
  (∀ type_name iter obj_repr, val ≠ PyObject type_name iter obj_repr) →
  ∃ r, format_value val = Return r.
Proof. intros H. destruct val; simpl; eauto. by edestruct H. Qed.

(** The rule of the iterables has its [try]: whatever iterating the value or
    rendering its items does, [format_value] returns. *)
Lemma format_value_iterable_returns type_name it obj_repr :
  type_name ∉ AGGREGATE_TYPES →
  ∃ r, format_value (PyObject type_name (Some it) obj_repr) = Return r.
Proof.
  intros H. simpl. rewrite bool_decide_eq_false_2 by done. apply try_except_returns.
Qed.

(** The last rule has none: an exception of [repr] leaves [format_value]. *)
Lemma format_value_fallback type_name obj_repr :
  type_name ∉ AGGREGATE_TYPES →
  format_value (PyObject type_name None obj_repr) = Some <$> obj_repr.
Proof. intros H. simpl. by rewrite bool_decide_eq_false_2. Qed.

(** C6 at the failing input: on an object that is not iterable and whose
    [repr] raises, [format_value] raises where the claim has it return the
    sentinel. *)
Theorem format_value_fallback_raises :
  format_value (PyObject (py "Object") None (Raise RuntimeError)) = Raise RuntimeError.
Proof. reflexivity. Qed.

(** The table of the specification. *)
Lemma format_value_none : format_value PyNone = Return None.
Proof. reflexivity. Qed.

Lemma format_value_true : format_value (PyBool true) = Return (Some (py "True")).
Proof. reflexivity. Qed.

End Formatter.

Section FormatterTable.
#[local] Existing Instance reference_runtime.

Lemma format_value_hello :
  format_value (PyStr (py "hello")) = Return (Some (py "'hello'")).
Proof. reflexivity. Qed.

Lemma format_value_float :
  format_value (PyFloat 35%Z) = Return (Some (py "3.5")).
Proof. vm_compute. reflexivity. Qed.

Lemma format_value_vector :
  format_value
    (PyObject (py "Vector") (Some (Return [PyInt 1; PyInt 2; PyInt 3])) (Raise RuntimeError))
  = Return (Some (py "(1, 2, 3)")).
Proof. vm_compute. reflexivity. Qed.

End FormatterTable.

(** ** The emitters *)

Lemma bind_Return_inv {A B} (m : outcome A) (f : A → outcome B) (b : B) :
  m ≫= f = Return b → ∃ a, m = Return a ∧ f a = Return b.
Proof. destruct m as [a|]; [|done]. intros H. by exists a. Qed.

Lemma Return_inj {A} (a b : A) : Return a = Return b → a = b.
Proof. by intros [= ->]. Qed.

Lemma deref_Return {R : PythonRuntime} (heap : Heap) p node_group :
  deref heap p = Return node_group → heap !! p = Some node_group.
Proof. unfold deref. destruct (heap !! p); [|done]. by intros [= ->]. Qed.

Lemma for_lines_app {A} (f : A → outcome (list pystr)) (l1 l2 : list A) :
  for_lines f (l1 ++ l2) = (a ← for_lines f l1; b ← for_lines f l2; Return (a ++ b)).
Proof.
  induction l1 as [|x l1 IH]; simpl.
  - by destruct (for_lines f l2).
  - destruct (f x) as [ls|e]; simpl; [|done]. rewrite IH.
    destruct (for_lines f l1) as [a|e]; simpl; [|done].
    destruct (for_lines f l2) as [b|e]; simpl; [|done].
    by rewrite app_assoc.
Qed.

(** An iteration that appends nothing and does not raise leaves the loop as
    it is without it. *)
Lemma for_lines_skip {A} (f : A → outcome (list pystr)) (l1 l2 : list A) (x : A) :
  f x = Return [] → for_lines f (l1 ++ x :: l2) = for_lines f (l1 ++ l2).
Proof.
  intros Hx. rewrite !for_lines_app. simpl. rewrite Hx. simpl.
  by destruct (for_lines f l2).
Qed.

Lemma str_join_app (sep : pystr) (l1 l2 : list pystr) :
  l1 ≠ [] → l2 ≠ [] →
  str_join sep (l1 ++ l2) = str_join sep l1 ++ sep ++ str_join sep l2.
Proof.
  intros H1 H2. induction l1 as [|x l1 IH]; [done|].
  destruct l1 as [|y l1].
  - simpl. by destruct l2.
  - change (str_join sep ((x :: y :: l1) ++ l2))
      with (x ++ sep ++ str_join sep ((y :: l1) ++ l2)).
    rewrite IH by done.
    change (str_join sep (x :: y :: l1)) with (x ++ sep ++ str_join sep (y :: l1)).
    by rewrite <- !app_assoc.
Qed.

Section Emitters.
Context {R : PythonRuntime}.
Variable export_node_properties : Node → pystr → outcome (list pystr).

(** *** The dictionary of the variables *)

Lemma var_names_fold_absent (g : nat → nat) (m : gmap pystr pystr) (l : list Node) name :
  name ∉ node_name <$> l →
  foldl (λ node_var_names entry,
           <[node_name entry.2 := single_var_name entry.1 entry.2]> node_var_names)
        m (imap (pair ∘ g) l) !! name = m !! name.
Proof.
  revert g m. induction l as [|x l IH]; intros g m Hn; [done|].
  rewrite fmap_cons, not_elem_of_cons in Hn. destruct Hn as [Hx Hl].
  simpl. rewrite (IH (g ∘ S)) by done. by rewrite lookup_insert_ne.
Qed.

Lemma var_names_fold_lookup (g : nat → nat) (m : gmap pystr pystr) (l : list Node) p X :
  NoDup (node_name <$> l) → l !! p = Some X →
  foldl (λ node_var_names entry,
           <[node_name entry.2 := single_var_name entry.1 entry.2]> node_var_names)
        m (imap (pair ∘ g) l) !! node_name X = Some (single_var_name (g p) X).
Proof.
  revert g m p. induction l as [|x l IH]; intros g m p Hnd Hp; [done|].
  rewrite fmap_cons in Hnd. apply NoDup_cons in Hnd as [Hx Hnd].
  destruct p as [|p]; simpl in *.
  - injection Hp as ->. rewrite (var_names_fold_absent (g ∘ S)) by done.
    by rewrite lookup_insert_eq.
  - by rewrite (IH (g ∘ S) _ p).
Qed.

(** With unique node names, the dictionary gives each node of the tree the
    variable of its position. *)
Lemma node_var_names_lookup (node_group : NodeTree) p X :
  NoDup (node_name <$> nodes node_group) → nodes node_group !! p = Some X →
  single_node_var_names node_group !! node_name X = Some (single_var_name p X).
Proof. intros Hnd Hp. exact (var_names_fold_lookup id ∅ _ _ _ Hnd Hp). Qed.

(** A name that no node of the tree has is not in the dictionary. *)
Lemma node_var_names_absent (node_group : NodeTree) name :
  name ∉ node_name <$> nodes node_group →
  single_node_var_names node_group !! name = None.
Proof. intros H. exact (eq_trans (var_names_fold_absent id ∅ _ _ H) (lookup_empty _)). Qed.

Lemma var_name_truthy i node : truthy (Some (single_var_name i node)) = true.
Proof. reflexivity. Qed.

(** *** Positions of sockets *)

Lemma list_index_lookup (x : Socket) (l : list Socket) i :
  NoDup (socket_ptr <$> l) → l !! i = Some x → list_index x l = Return i.
Proof.
  revert i. induction l as [|y l IH]; intros i Hnd Hi; [done|].
  rewrite fmap_cons in Hnd. apply NoDup_cons in Hnd as [Hy Hnd].
  destruct i as [|i]; simpl in *.
  - injection Hi as ->. by rewrite decide_True.
  - rewrite decide_False.
    + by rewrite (IH i).
    + intros Heq. apply Hy. rewrite Heq.
      apply list_elem_of_fmap. exists x. split; [done|].
      by eapply list_elem_of_lookup_2.
Qed.

(** A socket that is not in the list: [index] raises [ValueError]. *)
Lemma list_index_absent (x : Socket) (l : list Socket) :
  socket_ptr x ∉ socket_ptr <$> l → list_index x l = Raise ValueError.
Proof.
  induction l as [|y l IH]; intros Hn; [done|].
  rewrite fmap_cons, not_elem_of_cons in Hn. destruct Hn as [Hy Hl].
  simpl. rewrite decide_False by done. by rewrite IH.
Qed.

(** *** Links *)

Lemma for_lines_elem {A} (f : A → outcome (list pystr)) (l : list A) x ls lines line :
  for_lines f l = Return lines → x ∈ l → f x = Return ls → line ∈ ls → line ∈ lines.
Proof.
  intros Hl Hx Hfx Hline. apply list_elem_of_split in Hx as (l1 & l2 & ->).
  rewrite for_lines_app in Hl. simpl in Hl. rewrite Hfx in Hl.
  destruct (for_lines f l1) as [a|]; simpl in Hl; [|done].
  destruct (for_lines f l2) as [b|]; simpl in Hl; [|done].
  injection Hl as <-. rewrite !elem_of_app. auto.
Qed.


(** A link with an end whose node is not in the tree appends nothing. *)
Lemma single_link_lines_absent (node_group : NodeTree) (link : Link) :
  node_name (from_node link) ∉ node_name <$> nodes node_group
  ∨ node_name (to_node link) ∉ node_name <$> nodes node_group →
  single_link_lines (single_node_var_names node_group) link = Return [].
Proof.
  intros [H|H]; unfold single_link_lines;
    rewrite (node_var_names_absent _ _ H); simpl; [done|].
  by rewrite andb_false_r.
Qed.

Lemma list_index_cases (x : Socket) (l : list Socket) :
  (∃ i, list_index x l = Return i) ∨ list_index x l = Raise ValueError.
Proof.
  induction l as [|y l IH]; simpl; [by right|].
  destruct (decide (socket_ptr y = socket_ptr x)); [by left; eexists|].
  destruct IH as [[i ->]| ->]; [left; by eexists|by right].
Qed.

(** A link whose nodes are in the tree and one of whose sockets its node
    does not have is not skipped: [index] raises, and nothing catches it. *)
Lemma single_link_lines_stale (node_group : NodeTree) (link : Link) p q :
  NoDup (node_name <$> nodes node_group) →
  nodes node_group !! p = Some (from_node link) →
  nodes node_group !! q = Some (to_node link) →
  socket_ptr (from_socket link) ∉ socket_ptr <$> outputs (from_node link)
  ∨ socket_ptr (to_socket link) ∉ socket_ptr <$> inputs (to_node link) →
  single_link_lines (single_node_var_names node_group) link = Raise ValueError.
Proof.
  intros Hnames Hp Hq Hstale. unfold single_link_lines.
  rewrite (node_var_names_lookup _ _ _ Hnames Hp), (node_var_names_lookup _ _ _ Hnames Hq).
  rewrite !var_name_truthy. simpl.
  destruct Hstale as [Hfrom|Hto].
  - by rewrite (list_index_absent _ _ Hfrom).
  - rewrite (list_index_absent _ _ Hto).
    by destruct (list_index_cases (from_socket link) (outputs (from_node link)))
      as [[i ->]| ->].
Qed.

(** C5, as the code has it: a link whose source or destination node is not
    in the list of nodes being emitted is skipped; it does not raise, and
    the routine is the one of the tree without that link. *)
Theorem dangling_link_skipped (node_group : NodeTree) (l1 l2 : list Link) (link : Link) :
  links node_group = l1 ++ link :: l2 →
  node_name (from_node link) ∉ node_name <$> nodes node_group
  ∨ node_name (to_node link) ∉ node_name <$> nodes node_group →
  single_link_lines (single_node_var_names node_group) link = Return [] ∧
  export_single_node_group export_node_properties node_group
  = export_single_node_group export_node_properties (with_links node_group (l1 ++ l2)).
Proof.
  intros Hlinks Habsent.
  pose proof (single_link_lines_absent _ _ Habsent) as Hskip.
  split; [exact Hskip|].
  unfold export_single_node_group, export_single_node_group_lines. rewrite Hlinks.
  change (single_node_var_names (with_links node_group (l1 ++ l2)))
    with (single_node_var_names node_group).
  simpl. by rewrite (for_lines_skip _ _ _ _ Hskip).
Qed.

(** The lines that [export_node_group_to_python] writes out in line for the
    main group are those of [export_single_node_group_lines]: the two
    transcriptions unfold to the same term, piece by piece. *)
Lemma main_routine_lines_single (node_group : NodeTree) :
  main_routine_lines export_node_properties node_group
  = export_single_node_group_lines export_node_properties node_group.
Proof. reflexivity. Qed.

(** C10: the routine that [export_node_group_to_python] writes out in line
    for the main group is the text of [export_single_node_group]. *)
Theorem main_routine_is_export_single (node_group : NodeTree) :
  str_join [NEWLINE] <$> main_routine_lines export_node_properties node_group
  = export_single_node_group export_node_properties node_group.
Proof. unfold export_single_node_group. by rewrite main_routine_lines_single. Qed.

Lemma main_routine_lines_nonempty (node_group : NodeTree) lines :
  main_routine_lines export_node_properties node_group = Return lines → lines ≠ [].
Proof.
  unfold main_routine_lines.
  destruct (for_lines (main_node_lines _) _); simpl; [|done].
  destruct (for_lines (main_link_lines _) _); simpl; [|done].
  by intros [= <-].
Qed.

(** The exported text holds the text of [export_single_node_group] of the
    main group, between two line ends. *)
Lemma export_text_holds_single_routine (heap : Heap) p auto_assign include_nested text :
  export_node_group_to_python export_node_properties heap p auto_assign include_nested
    = Return text →
  ∃ node_group routine before after,
    heap !! p = Some node_group ∧
    export_single_node_group export_node_properties node_group = Return routine ∧
    text = before ++ [NEWLINE] ++ routine ++ [NEWLINE] ++ after.
Proof.
  intros H. unfold export_node_group_to_python in H.
  destruct (export_node_group_to_python_lines _ _ _ _ _) as [lines|] eqn:Hl; [|done].
  apply Return_inj in H. unfold export_node_group_to_python_lines in Hl.
  apply bind_Return_inv in Hl as (node_group & Hp & Hl).
  apply bind_Return_inv in Hl as (nested_ptrs & _ & Hl).
  apply bind_Return_inv in Hl as (nested_groups & _ & Hl).
  apply bind_Return_inv in Hl as (nested_lines & _ & Hl).
  apply bind_Return_inv in Hl as (routine & Hroutine & Hl).
  apply Return_inj in Hl.
  pose proof (main_routine_lines_nonempty _ _ Hroutine) as Hne.
  exists node_group, (str_join [NEWLINE] routine).
  eexists _, _. split; [by apply deref_Return|]. split.
  { unfold export_single_node_group. rewrite <- main_routine_lines_single.
    by rewrite Hroutine. }
  rewrite <- H, <- Hl. rewrite (app_assoc _ nested_lines).
  rewrite (str_join_app _ (_ ++ nested_lines)); [|done|by destruct routine].
  rewrite (str_join_app _ routine); [|done|done].
  reflexivity.
Qed.

End Emitters.

(** *** The helpers and their calls *)

Section Helpers.
Context {R : PythonRuntime}.

(** The driver ends with the call of [assign_to_object], with the call of
    [assign_to_material], or with neither, as the two conditions say. *)
Lemma main_driver_lines_calls (node_group : NodeTree) nested_groups auto_assign :
  ∃ constructors,
    main_driver_lines node_group nested_groups auto_assign
    = constructors
      ++ (if calls_assign_to_object node_group auto_assign then ASSIGN_TO_OBJECT_CALL
          else if calls_assign_to_material node_group auto_assign then ASSIGN_TO_MATERIAL_CALL
          else []).
Proof.
  unfold main_driver_lines, calls_assign_to_material. eexists. rewrite app_assoc.
  f_equal. by destruct (calls_assign_to_object node_group auto_assign).
Qed.


(** When the nested groups are of the kind of the main group, as the host
    has them, the helper [assign_to_object] is called exactly when it was
    appended. *)
Lemma helper_called_when_same_kind (node_group : NodeTree) (nested_groups : list NodeTree)
    (auto_assign : bool) :
  Forall (λ ng, get_node_tree_type ng = get_node_tree_type node_group) nested_groups →
  calls_assign_to_object node_group auto_assign
  = emits_assign_to_object node_group nested_groups auto_assign.
Proof.
  intros Hkind. unfold calls_assign_to_object, emits_assign_to_object. f_equal.
  destruct (decide (get_node_tree_type node_group = GEOMETRY)) as [Hg|Hg].
  - by rewrite (bool_decide_eq_true_2 _ Hg).
  - rewrite (bool_decide_eq_false_2 _ Hg). simpl. symmetry.
    apply not_true_is_false. intros (ng & Hin & Hng)%existsb_exists.
    apply bool_decide_eq_true in Hng. rewrite Forall_forall in Hkind.
    apply Hg. rewrite <- Hng. symmetry. apply Hkind. by apply list_elem_of_In.
Qed.

End Helpers.

(** *** The emitters on the example trees *)

Section EmitterExamples.
#[local] Existing Instance reference_runtime.


Lemma dangling_link_skipped_witness :
  single_link_lines (single_node_var_names (grid_tree [grid_link; dangling_link])) dangling_link
    = Return [] ∧
  export_single_node_group no_properties (grid_tree [grid_link; dangling_link])
  = export_single_node_group no_properties (grid_tree [grid_link]).
Proof.
  apply (dangling_link_skipped no_properties (grid_tree [grid_link; dangling_link])
           [grid_link] [] dangling_link).
  - reflexivity.
  - right. apply (bool_decide_unpack _). vm_compute. reflexivity.
Defined.

(** The claim C5 fails on a link whose nodes are in the tree and whose input
    socket is not among the inputs of its node: [index] raises [ValueError],
    which leaves the emitter, where the tree without that link is exported. *)
Lemma stale_socket_raises :
  (socket_ptr (to_socket stale_link) ∉ socket_ptr <$> inputs (to_node stale_link)) ∧
  export_single_node_group no_properties (grid_tree [grid_link; stale_link])
    = Raise ValueError ∧
  (∃ text, export_single_node_group no_properties (grid_tree [grid_link]) = Return text).
Proof.
  split; [|split].
  - apply (bool_decide_unpack _). vm_compute. reflexivity.
  - vm_compute. reflexivity.
  - eexists. vm_compute. reflexivity.
Qed.


End EmitterExamples.

(** ** Discovery of nested node groups *)

Section ExtendAbsent.

Lemma elem_of_append_if_absent x y (l : list positive) :
  x ∈ append_if_absent y l ↔ x ∈ l ∨ x = y.
Proof.
  unfold append_if_absent. destruct (decide (y ∈ l)) as [Hy|Hy].
  - split; [auto|]. intros [H| ->]; done.
  - rewrite elem_of_app, list_elem_of_singleton. done.
Qed.

Lemma NoDup_append_if_absent y (l : list positive) :
  NoDup l → NoDup (append_if_absent y l).
Proof.
  intros Hl. unfold append_if_absent. destruct (decide (y ∈ l)) as [Hy|Hy]; [done|].
  apply NoDup_app. split; [done|]. split.
  - intros x Hx Hx'. apply list_elem_of_singleton in Hx'. by subst.
  - apply NoDup_singleton.
Qed.

Lemma elem_of_extend_absent x (nested sub : list positive) :
  x ∈ extend_absent nested sub ↔ x ∈ nested ∨ x ∈ sub.
Proof.
  unfold extend_absent. revert nested.
  induction sub as [|s sub IH]; intros nested; simpl.
  - split; [auto|]. intros [H|H]; [done|]. by apply elem_of_nil in H.
  - rewrite IH, elem_of_append_if_absent, elem_of_cons. tauto.
Qed.

Lemma NoDup_extend_absent (nested sub : list positive) :
  NoDup nested → NoDup (extend_absent nested sub).
Proof.
  unfold extend_absent. revert nested.
  induction sub as [|s sub IH]; intros nested Hn; simpl; [done|].
  by apply IH, NoDup_append_if_absent.
Qed.

Lemma filter_ext_elem (P Q : positive → Prop) `{!∀ x, Decision (P x), !∀ x, Decision (Q x)}
    (l : list positive) :
  (∀ x, x ∈ l → P x ↔ Q x) → filter P l = filter Q l.
Proof.
  induction l as [|y l IH]; intros Hext; [done|].
  rewrite !filter_cons. rewrite IH by (intros x Hx; apply Hext; by right).
  destruct (decide (P y)) as [HP|HP], (decide (Q y)) as [HQ|HQ]; try done.
  - destruct HQ. by apply (Hext y); [left|].
  - destruct HP. by apply (Hext y); [left|].
Qed.

(** The list grows at its end, by the elements of [sub] it lacks, in the
    order of [sub]. *)
Lemma extend_absent_filter (nested sub : list positive) :
  NoDup sub →
  extend_absent nested sub = nested ++ filter (λ x, x ∉ nested) sub.
Proof.
  unfold extend_absent. revert nested.
  induction sub as [|s sub IH]; intros nested Hs; simpl.
  - by rewrite app_nil_r.
  - apply NoDup_cons in Hs as [Hs Hsub]. rewrite IH by done.
    unfold append_if_absent. destruct (decide (s ∈ nested)) as [Hin|Hin].
    + by rewrite filter_cons_False by (intros ?; done).
    + rewrite filter_cons_True by done. rewrite <- app_assoc. simpl. do 2 f_equal.
      apply filter_ext_elem. intros x Hx. rewrite elem_of_app, list_elem_of_singleton.
      split; [tauto|]. intros Hn [?| ->]; done.
Qed.

End ExtendAbsent.

Section Discovery.
Context {R : PythonRuntime} (heap : Heap).

Implicit Types (p t x y : positive) (g : NodeTree) (visited : gset pystr)
  (l nested sub : list positive) (st : list positive * gset pystr).

Lemma deref_inv p g : deref heap p = Return g → heap !! p = Some g.
Proof. apply deref_Return. Qed.

(** One iteration keeps the invariant of the loop. *)
Lemma visit_node_inv (rec : positive → gset pystr → outcome (list positive * gset pystr))
    p g visited done st node st' :
  heap !! p = Some g →
  node ∈ nodes g →
  (∀ t V l V', rec t V = Return (l, V') → find_post heap t V l V') →
  loop_inv heap p g visited done st →
  visit_node rec st node = Return st' →
  loop_inv heap p g visited (done ++ [node]) st'.
Proof.
  intros Hp Hnode Hrec Hinv. unfold visit_node.
  destruct (is_group_node node) eqn:Hgroup; cycle 1.
  { intros [= <-]. destruct Hinv. split; try done.
    intros n t [Hn|Hn]%elem_of_app; [eauto|].
    apply list_elem_of_singleton in Hn as ->. congruence. }
  destruct (node_tree node) as [t|] eqn:Htree; cycle 1.
  { intros [= <-]. destruct Hinv. split; try done.
    intros n t [Hn|Hn]%elem_of_app; [eauto|].
    apply list_elem_of_singleton in Hn as ->. congruence. }
  destruct (rec t st.2) as [[sub visited']|] eqn:Hcall; [|done].
  intros Hst'. apply Return_inj in Hst'. subst st'.
  change (foldl _ st.1 sub) with (extend_absent st.1 sub).
  pose proof (Hrec _ _ _ _ Hcall) as Hpost.
  assert (references heap p t) as Href by (by exists g, node).
  destruct Hinv as [Hgrows Hlive Hnew Hreach Hnodup Hchildren].
  destruct Hpost as [Pgrows Plive Pnew Preach Pnodup Pself Pchildren].
  split; simpl.
  - by etrans.
  - intros x Hx. apply elem_of_append_if_absent in Hx as [Hx| ->]; [|done].
    apply elem_of_extend_absent in Hx as [Hx|Hx]; [|by apply Plive].
    destruct (Hlive x Hx) as (gx & Hgx & Hin). exists gx. split; [done|]. by apply Pgrows.
  - intros s Hs. destruct (Pnew s Hs) as [Hold|[(gt & Hgt & ->)|(x & gx & Hx & Hgx & <-)]].
    + destruct (Hnew s Hold) as [?|(x & gx & Hx & Hgx & <-)]; [by left|].
      right. exists x, gx. split; [|done].
      apply elem_of_append_if_absent. left. apply elem_of_extend_absent. by left.
    + right. exists t, gt. split; [|done]. apply elem_of_append_if_absent. by right.
    + right. exists x, gx. split; [|done].
      apply elem_of_append_if_absent. left. apply elem_of_extend_absent. by right.
  - intros x Hx. apply elem_of_append_if_absent in Hx as [Hx| ->]; [|by apply tc_once].
    apply elem_of_extend_absent in Hx as [Hx|Hx]; [by apply Hreach|].
    eapply tc_l; [exact Href|by apply Preach].
  - by apply NoDup_append_if_absent, NoDup_extend_absent.
  - intros n t' [Hn|Hn]%elem_of_app Hg Ht'.
    + apply elem_of_append_if_absent. left. apply elem_of_extend_absent. left. eauto.
    + apply list_elem_of_singleton in Hn as ->.
      apply elem_of_append_if_absent. right. congruence.
Qed.

Lemma foldlM_visit_inv (rec : positive → gset pystr → outcome (list positive * gset pystr))
    p g visited :
  heap !! p = Some g →
  (∀ t V l V', rec t V = Return (l, V') → find_post heap t V l V') →
  ∀ todo done st st',
    (∀ node, node ∈ todo → node ∈ nodes g) →
    loop_inv heap p g visited done st →
    foldlM (visit_node rec) todo st = Return st' →
    loop_inv heap p g visited (done ++ todo) st'.
Proof.
  intros Hp Hrec. induction todo as [|node todo IH]; intros done st st' Hin Hinv Hloop.
  - apply Return_inj in Hloop. subst. by rewrite app_nil_r.
  - simpl in Hloop. apply bind_Return_inv in Hloop as (st1 & Hstep & Hloop).
    rewrite (cons_middle node done todo), app_assoc.
    eapply IH; [|eapply visit_node_inv; eauto|exact Hloop].
    + intros n Hn. apply Hin. by right.
    + apply Hin. by left.
Qed.

(** What every call that returns guarantees. *)
Lemma find_fuel_post fuel : ∀ p visited l visited',
  find_fuel heap fuel p visited = Return (l, visited') → find_post heap p visited l visited'.
Proof.
  induction fuel as [|fuel IH]; intros p visited l visited' Hcall; [done|].
  simpl in Hcall. apply bind_Return_inv in Hcall as (g & Hp%deref_inv & Hcall).
  destruct (decide (tree_name g ∈ visited)) as [Hvisited|Hfresh].
  - apply Return_inj in Hcall. injection Hcall as <- <-. split; try done.
    + intros x Hx. by apply elem_of_nil in Hx.
    + auto.
    + intros x Hx. by apply elem_of_nil in Hx.
    + apply NoDup_nil_2.
    + by exists g.
    + intros g' Hg'. congruence.
  - pose proof (foldlM_visit_inv (find_fuel heap fuel) p g visited Hp IH
                  (nodes g) [] ([], {[tree_name g]} ∪ visited) (l, visited')) as Hinv.
    destruct Hinv as [Hgrows Hlive Hnew Hreach Hnodup Hchildren]; [done| |done|].
    { split; simpl; try done.
      - intros x Hx. by apply elem_of_nil in Hx.
      - auto.
      - intros x Hx. by apply elem_of_nil in Hx.
      - apply NoDup_nil_2.
      - intros node t Hn. by apply elem_of_nil in Hn. }
    simpl in *. split; try done.
    + set_solver.
    + intros s Hs. destruct (Hnew s Hs) as [Hin|Hin]; [|auto].
      apply elem_of_union in Hin as [Hin|Hin]; [|auto].
      apply elem_of_singleton in Hin as ->. right. left. by exists g.
    + exists g. split; [done|]. set_solver.
    + intros g' Hg' _ t (g'' & node & Hg'' & Hnode & Hgroup & Htree).
      assert (g'' = g) as -> by congruence. eauto.
Qed.

(** *** Termination *)

Lemma unvisited_size visited : size (unvisited heap visited) ≤ size heap.
Proof. apply map_size_filter. Qed.

Lemma unvisited_mono visited visited' :
  visited ⊆ visited' → size (unvisited heap visited') ≤ size (unvisited heap visited).
Proof.
  intros Hsub. apply map_subseteq_size, map_filter_subseteq_ext.
  intros i g _ Hg. simpl in *. set_solver.
Qed.

Lemma unvisited_visit p g visited :
  heap !! p = Some g → tree_name g ∉ visited →
  size (unvisited heap ({[tree_name g]} ∪ visited)) < size (unvisited heap visited).
Proof.
  intros Hp Hfresh. apply map_subset_size, map_subset_alt. split.
  - apply map_filter_subseteq_ext. intros i g' _ Hg'. simpl in *. set_solver.
  - exists p. split.
    + apply map_lookup_filter_None. right. intros g' Hg'. simpl.
      assert (g' = g) as -> by congruence. set_solver.
    + exists g. by apply map_lookup_filter_Some.
Qed.

Lemma foldlM_visit_total (rec : positive → gset pystr → outcome (list positive * gset pystr))
    p g (base : gset pystr) :
  heap !! p = Some g →
  (∀ t V, references heap p t → base ⊆ V →
          ∃ l V', rec t V = Return (l, V') ∧ V ⊆ V') →
  ∀ todo st,
    (∀ node, node ∈ todo → node ∈ nodes g) → base ⊆ st.2 →
    ∃ st', foldlM (visit_node rec) todo st = Return st'.
Proof.
  intros Hp Hrec. induction todo as [|node todo IH]; intros st Hin Hbase; simpl.
  - by exists st.
  - assert (∃ st1, visit_node rec st node = Return st1 ∧ base ⊆ st1.2) as (st1 & -> & Hst1).
    { unfold visit_node. destruct (is_group_node node) eqn:Hgroup; [|by exists st].
      destruct (node_tree node) as [t|] eqn:Htree; [|by exists st].
      destruct (Hrec t st.2) as (l & V' & -> & Hsub); [|done|].
      - exists g, node. split; [done|]. split; [|done]. apply Hin. by left.
      - eexists. split; [reflexivity|]. simpl. set_solver. }
    simpl. apply IH; [|done]. intros n Hn. apply Hin. by right.
Qed.

(** A call on a live node tree returns as soon as the fuel exceeds the
    number of node trees that are not visited yet. *)
Lemma find_fuel_total (Hclosed : closed heap) fuel : ∀ p visited,
  is_Some (heap !! p) → size (unvisited heap visited) < fuel →
  ∃ l visited', find_fuel heap fuel p visited = Return (l, visited') ∧ visited ⊆ visited'.
Proof.
  induction fuel as [|fuel IH]; intros p visited [g Hp] Hfuel; [lia|].
  simpl. unfold deref. rewrite Hp. simpl.
  destruct (decide (tree_name g ∈ visited)) as [Hvisited|Hfresh]; [by eauto|].
  pose proof (unvisited_visit p g visited Hp Hfresh) as Hless.
  destruct (foldlM_visit_total (find_fuel heap fuel) p g ({[tree_name g]} ∪ visited) Hp)
    with (todo := nodes g) (st := (@nil positive, {[tree_name g]} ∪ visited))
    as ([l visited'] & Hloop); [|done|done|].
  - intros t V Href Hbase. apply IH; [by eapply Hclosed|].
    pose proof (unvisited_mono _ _ Hbase). lia.
  - exists l, visited'. split; [done|].
    rewrite <- (app_nil_l (nodes g)) in Hloop.
    assert (find_fuel heap (S fuel) p visited = Return (l, visited')) as Hcall.
    { simpl. unfold deref. rewrite Hp. simpl. by rewrite decide_False. }
    apply (fp_grows _ _ _ _ _ (find_fuel_post _ _ _ _ _ Hcall)).
Qed.

(** More fuel does not change what a call returns. *)
Lemma foldlM_visit_mono (rec1 rec2 : positive → gset pystr → outcome (list positive * gset pystr))
    (todo : list Node) :
  (∀ node t V r, node ∈ todo → is_group_node node = true → node_tree node = Some t →
                 rec1 t V = Return r → rec2 t V = Return r) →
  ∀ st st', foldlM (visit_node rec1) todo st = Return st' →
            foldlM (visit_node rec2) todo st = Return st'.
Proof.
  induction todo as [|node todo IH]; intros Hrec st st' Hloop; [done|].
  simpl in *. apply bind_Return_inv in Hloop as (st1 & Hstep & Hloop).
  assert (visit_node rec2 st node = Return st1) as ->.
  { revert Hstep. unfold visit_node.
    destruct (is_group_node node) eqn:Hgroup; [|done].
    destruct (node_tree node) as [t|] eqn:Htree; [|done].
    intros Hstep. apply bind_Return_inv in Hstep as (r & Hcall & Hstep).
    rewrite (Hrec node t st.2 r); [done|by left|done|done|done]. }
  simpl. apply IH; [|done]. intros n t V r Hn. apply Hrec. by right.
Qed.

Lemma find_fuel_mono fuel : ∀ fuel' p visited r,
  fuel ≤ fuel' → find_fuel heap fuel p visited = Return r →
  find_fuel heap fuel' p visited = Return r.
Proof.
  induction fuel as [|fuel IH]; intros fuel' p visited r Hle Hcall; [done|].
  destruct fuel' as [|fuel']; [lia|]. simpl in *.
  apply bind_Return_inv in Hcall as (g & -> & Hcall). simpl.
  destruct (decide (tree_name g ∈ visited)); [done|].
  eapply foldlM_visit_mono; [|exact Hcall].
  intros node t V r' _ _ _. apply IH. lia.
Qed.

End Discovery.

(** *** The order of the list *)

Section Order.
Context {R : PythonRuntime} (heap : Heap).
Hypothesis Hunique : unique_names heap.
Hypothesis Hacyclic : acyclic heap.

Implicit Types (p t x y : positive) (g : NodeTree) (visited : gset pystr)
  (l nested sub : list positive) (st : list positive * gset pystr).

Lemma occurs_before_app_l l l' y x : occurs_before l y x → occurs_before (l ++ l') y x.
Proof.
  intros (l1 & l2 & -> & Hy). exists l1, (l2 ++ l'). split; [|done].
  by rewrite <- app_assoc.
Qed.

Lemma occurs_before_append_if_absent l t y x :
  occurs_before l y x → occurs_before (append_if_absent t l) y x.
Proof.
  intros H. unfold append_if_absent. destruct (decide (t ∈ l)); [done|].
  by apply occurs_before_app_l.
Qed.

Lemma occurs_before_precedes l y x : occurs_before l y x → precedes l y x.
Proof.
  intros (l1 & l2 & -> & Hy). apply list_elem_of_lookup in Hy as [i Hi].
  exists i, (length l1). split; [|split].
  - by apply lookup_app_l_Some.
  - by apply list_lookup_middle.
  - by eapply lookup_lt_Some.
Qed.

(** What is in the order of [sub] stays so when [sub] extends [nested], for
    an element that [nested] lacks. *)
Lemma occurs_before_extend_absent nested sub y x :
  NoDup sub → x ∉ nested → occurs_before sub y x →
  occurs_before (extend_absent nested sub) y x.
Proof.
  intros Hnodup Hx (s1 & s2 & -> & Hy). rewrite extend_absent_filter by done.
  rewrite filter_app, filter_cons_True by done.
  exists (nested ++ filter (λ z, z ∉ nested) s1), (filter (λ z, z ∉ nested) s2).
  split; [by rewrite <- app_assoc|].
  apply elem_of_app. destruct (decide (y ∈ nested)); [by left|].
  right. by apply list_elem_of_filter.
Qed.

(** In the loop, a node tree whose name is visited and which is neither the
    one of the call nor an old one is already in the list. *)
Lemma visited_in_list p g visited done st x gx :
  loop_inv heap p g visited done st →
  heap !! x = Some gx → tree_name gx ∈ st.2 →
  tree_name gx ∉ ({[tree_name g]} ∪ visited : gset pystr) → x ∈ st.1.
Proof.
  intros Hinv Hx Hin Hfresh.
  destruct (li_new _ _ _ _ _ _ Hinv _ Hin) as [?|(x' & gx' & Hx' & Hgx' & Hname)]; [done|].
  by rewrite (Hunique x x' gx gx' Hx Hgx' (eq_sym Hname)).
Qed.

Lemma visit_node_ordered (rec : positive → gset pystr → outcome (list positive * gset pystr))
    p g visited done st node st' :
  heap !! p = Some g →
  node ∈ nodes g →
  (∀ t V l V', rec t V = Return (l, V') → find_post heap t V l V') →
  (∀ t V l V', rec t V = Return (l, V') → ordered_post heap V l) →
  loop_inv heap p g visited done st →
  ordered_post heap ({[tree_name g]} ∪ visited) st.1 →
  visit_node rec st node = Return st' →
  ordered_post heap ({[tree_name g]} ∪ visited) st'.1.
Proof.
  intros Hp Hnode Hrec Hrec' Hinv Hord. unfold visit_node.
  destruct (is_group_node node) eqn:Hgroup; [|by intros [= <-]].
  destruct (node_tree node) as [t|] eqn:Htree; [|by intros [= <-]].
  destruct (rec t st.2) as [[sub visited']|] eqn:Hcall; [|done].
  intros Hst'. apply Return_inj in Hst'. subst st'.
  change (foldl _ st.1 sub) with (extend_absent st.1 sub). simpl.
  pose proof (Hrec _ _ _ _ Hcall) as [Pgrows Plive Pnew Preach Pnodup Pself Pchildren].
  pose proof (Hrec' _ _ _ _ Hcall) as Pord.
  intros x Hx Hfresh y Hxy.
  destruct (decide (x ∈ st.1)) as [Hold|Hnew].
  { apply occurs_before_append_if_absent. rewrite extend_absent_filter by done.
    apply occurs_before_app_l. by apply Hord. }
  assert (∀ z gz, heap !! z = Some gz → z ∉ st.1 →
                  tree_name gz ∉ ({[tree_name g]} ∪ visited : gset pystr) →
                  tree_name gz ∉ st.2) as Hentered.
  { intros z gz Hz Hzn Hzf Hin. apply Hzn. by eapply visited_in_list. }
  apply elem_of_append_if_absent in Hx as [Hx| ->].
  - apply elem_of_extend_absent in Hx as [Hx|Hx]; [done|].
    apply occurs_before_append_if_absent, occurs_before_extend_absent; [done|done|].
    apply Pord; [done| |done].
    intros gx Hgx. apply (Hentered x gx Hgx Hnew), Hfresh, Hgx.
  - destruct Pself as (gt & Hgt & _).
    assert (y ∈ sub) as Hy.
    { apply (Pchildren gt Hgt); [|done]. apply (Hentered t gt Hgt Hnew), Hfresh, Hgt. }
    assert (t ∉ extend_absent st.1 sub) as Ht.
    { intros [?|Hin]%elem_of_extend_absent; [done|].
      by apply (Hacyclic t), Preach. }
    unfold append_if_absent. rewrite decide_False by done.
    exists (extend_absent st.1 sub), []. split; [done|].
    apply elem_of_extend_absent. by right.
Qed.

Lemma foldlM_visit_ordered (rec : positive → gset pystr → outcome (list positive * gset pystr))
    p g visited :
  heap !! p = Some g →
  (∀ t V l V', rec t V = Return (l, V') → find_post heap t V l V') →
  (∀ t V l V', rec t V = Return (l, V') → ordered_post heap V l) →
  ∀ todo done st st',
    (∀ node, node ∈ todo → node ∈ nodes g) →
    loop_inv heap p g visited done st →
    ordered_post heap ({[tree_name g]} ∪ visited) st.1 →
    foldlM (visit_node rec) todo st = Return st' →
    ordered_post heap ({[tree_name g]} ∪ visited) st'.1.
Proof.
  intros Hp Hrec Hrec'.
  induction todo as [|node todo IH]; intros done st st' Hin Hinv Hord Hloop.
  - apply Return_inj in Hloop. by subst.
  - simpl in Hloop. apply bind_Return_inv in Hloop as (st1 & Hstep & Hloop).
    assert (node ∈ nodes g) as Hnode by (apply Hin; by left).
    eapply (IH (done ++ [node])); [..|exact Hloop].
    + intros n Hn. apply Hin. by right.
    + eapply visit_node_inv; eauto.
    + eapply visit_node_ordered; eauto.
Qed.

(** With unique names and no cycle, a node tree that a call is the first to
    enter comes, in the list the call returns, after the node trees it
    references. *)
Lemma find_fuel_ordered fuel : ∀ p visited l visited',
  find_fuel heap fuel p visited = Return (l, visited') → ordered_post heap visited l.
Proof.
  induction fuel as [|fuel IH]; intros p visited l visited' Hcall; [done|].
  pose proof (find_fuel_post heap _ _ _ _ _ Hcall) as Hpost.
  simpl in Hcall. apply bind_Return_inv in Hcall as (g & Hp%deref_Return & Hcall).
  destruct (decide (tree_name g ∈ visited)) as [Hvisited|Hfresh].
  { apply Return_inj in Hcall. injection Hcall as <- <-.
    intros x Hx. by apply elem_of_nil in Hx. }
  assert (loop_inv heap p g visited [] ([], {[tree_name g]} ∪ visited)) as Hinit.
  { split; simpl; try done.
    - intros x Hx. by apply elem_of_nil in Hx.
    - auto.
    - intros x Hx. by apply elem_of_nil in Hx.
    - apply NoDup_nil_2.
    - intros node t Hn. by apply elem_of_nil in Hn. }
  pose proof (foldlM_visit_ordered (find_fuel heap fuel) p g visited Hp
                (find_fuel_post heap fuel) IH (nodes g) []
                ([], {[tree_name g]} ∪ visited) (l, visited') (λ _ H, H) Hinit) as Hord.
  simpl in Hord. specialize (Hord ltac:(intros x Hx; by apply elem_of_nil in Hx) Hcall).
  intros x Hx Hfresh_x y Hxy. apply Hord; [done| |done].
  intros gx Hgx [Hname|Hin]%elem_of_union; [|by apply (Hfresh_x gx)].
  apply elem_of_singleton in Hname.
  assert (x = p) as -> by (by apply (Hunique x p gx g)).
  by apply (Hacyclic p), (fp_reach _ _ _ _ _ Hpost).
Qed.

End Order.

(** *** The checks are sound *)

Section Checks.
Context {R : PythonRuntime} (heap : Heap).

Lemma closedb_closed : closedb heap = true → closed heap.
Proof.
  unfold closedb. rewrite forallb_forall.
  intros Hall x y (g & node & Hx & Hnode & Hgroup & Htree).
  specialize (Hall (x, g)). rewrite <- list_elem_of_In, elem_of_map_to_list in Hall.
  specialize (Hall Hx). simpl in Hall. rewrite forallb_forall in Hall.
  specialize (Hall node). rewrite <- list_elem_of_In in Hall. specialize (Hall Hnode).
  unfold live_reference in Hall. rewrite Hgroup, Htree in Hall. simpl in Hall.
  by apply bool_decide_eq_true in Hall.
Qed.

Lemma unique_namesb_unique : unique_namesb heap = true → unique_names heap.
Proof.
  unfold unique_namesb. intros Hnd%bool_decide_eq_true x y gx gy Hx Hy Hname.
  apply elem_of_map_to_list, list_elem_of_lookup in Hx as [i Hi].
  apply elem_of_map_to_list, list_elem_of_lookup in Hy as [j Hj].
  assert (i = j) as ->.
  { eapply NoDup_lookup; [exact Hnd| |].
    - rewrite list_lookup_fmap, Hi. reflexivity.
    - rewrite list_lookup_fmap, Hj. simpl. by rewrite Hname. }
  congruence.
Qed.

Lemma rankedb_acyclic (rank : positive → nat) : rankedb heap rank = true → acyclic heap.
Proof.
  unfold rankedb. rewrite forallb_forall. intros Hall.
  assert (∀ x y, references heap x y → rank y < rank x) as Hstep.
  { intros x y (g & node & Hx & Hnode & Hgroup & Htree).
    specialize (Hall (x, g)). rewrite <- list_elem_of_In, elem_of_map_to_list in Hall.
    specialize (Hall Hx). simpl in Hall. rewrite forallb_forall in Hall.
    specialize (Hall node). rewrite <- list_elem_of_In in Hall. specialize (Hall Hnode).
    unfold descending_reference in Hall. rewrite Hgroup, Htree in Hall. simpl in Hall.
    by apply bool_decide_eq_true in Hall. }
  assert (∀ x y, tc (references heap) x y → rank y < rank x) as Hpath.
  { induction 1 as [x y Hxy|x y z Hxy _ IH]; [by apply Hstep|].
    specialize (Hstep x y Hxy). lia. }
  intros x Hx. specialize (Hpath x x Hx). lia.
Qed.

(** In a closed heap, what a live node tree reaches is live. *)
Lemma reachable_live (Hclosed : closed heap) x y :
  is_Some (heap !! x) → rtc (references heap) x y → is_Some (heap !! y).
Proof.
  intros Hx Hreach. induction Hreach as [|x y z Hxy _ IH]; [done|].
  apply IH. by eapply Hclosed.
Qed.

End Checks.

(** *** The list that [find_nested_node_groups] returns *)

Section DiscoveryTheorems.
Context {R : PythonRuntime} (heap : Heap).

Lemma find_nested_node_groups_inv p l :
  find_nested_node_groups heap p = Return l →
  ∃ visited', find_fuel heap (S (size heap)) p ∅ = Return (l, visited').
Proof.
  unfold find_nested_node_groups.
  destruct (find_fuel heap (S (size heap)) p ∅) as [[l' visited']|]; [|done].
  intros [= <-]. by exists visited'.
Qed.

Lemma find_nested_node_groups_post p l :
  find_nested_node_groups heap p = Return l → ∃ visited', find_post heap p ∅ l visited'.
Proof.
  intros (visited' & Hcall)%find_nested_node_groups_inv.
  exists visited'. by eapply find_fuel_post.
Qed.

(** The list on a host whose node trees have distinct names and where no
    node tree references itself through others: every node tree once, the
    main one not in it, what the main one references in it, and what a node
    tree of the list references strictly before it. *)
Lemma find_nested_node_groups_order (p : positive) (l : list positive) :
  unique_names heap → acyclic heap →
  find_nested_node_groups heap p = Return l →
  NoDup l ∧ (p ∉ l) ∧
  (∀ y, references heap p y → y ∈ l) ∧
  (∀ x y, x ∈ l → references heap x y → precedes l y x).
Proof.
  intros Hunique Hacyclic (visited' & Hcall)%find_nested_node_groups_inv.
  pose proof (find_fuel_post heap _ _ _ _ _ Hcall) as Hpost.
  split; [exact (fp_nodup _ _ _ _ _ Hpost)|]. split; [|split].
  - intros Hp. by apply (Hacyclic p), (fp_reach _ _ _ _ _ Hpost).
  - intros y Hpy. destruct (fp_self _ _ _ _ _ Hpost) as (g & Hg & _).
    apply (fp_children _ _ _ _ _ Hpost g Hg); [apply not_elem_of_empty|done].
  - intros x y Hx Hxy. apply occurs_before_precedes.
    apply (find_fuel_ordered heap Hunique Hacyclic _ _ _ _ _ Hcall); [done| |done].
    intros gx _. apply not_elem_of_empty.
Qed.

(** C2, as the code has it: the list holds only node trees that the group
    nodes reference, directly or through others, and it does not hold the
    main node tree when that one is not reachable from itself. *)
Theorem find_nested_node_groups_reachable (p : positive) (l : list positive) :
  find_nested_node_groups heap p = Return l →
  (∀ x, x ∈ l → tc (references heap) p x) ∧
  (¬ tc (references heap) p p → p ∉ l).
Proof.
  intros (visited' & Hpost)%find_nested_node_groups_post.
  pose proof (fp_reach _ _ _ _ _ Hpost) as Hreach.
  split; [exact Hreach|]. intros Hp Hin. by apply Hp, Hreach.
Qed.

(** C3: on every heap without dangling references, with or without cycles,
    [find_nested_node_groups] returns, the recursion never deeper than the
    number of node trees plus one, and no node tree is twice in the list. *)
Theorem find_nested_node_groups_terminates (p : positive) :
  closed heap → is_Some (heap !! p) →
  ∃ l, find_nested_node_groups heap p = Return l ∧ NoDup l.
Proof.
  intros Hclosed Hp.
  destruct (find_fuel_total heap Hclosed (S (size heap)) p ∅ Hp) as (l & visited' & Hcall & _).
  { pose proof (unvisited_size heap ∅). lia. }
  exists l. split.
  - unfold find_nested_node_groups. by rewrite Hcall.
  - exact (fp_nodup _ _ _ _ _ (find_fuel_post heap _ _ _ _ _ Hcall)).
Qed.

End DiscoveryTheorems.

(** *** Discovery on the example heaps *)

Section DiscoveryExamples.
#[local] Existing Instance reference_runtime.

Lemma find_nested_node_groups_reachable_witness :
  (∀ x, x ∈ [5; 4; 2; 3]%positive → tc (references shared_heap) 1%positive x) ∧
  (¬ tc (references shared_heap) 1%positive 1%positive → 1%positive ∉ [5; 4; 2; 3]%positive).
Proof.
  apply (find_nested_node_groups_reachable shared_heap 1 [5; 4; 2; 3]%positive).
  vm_compute. reflexivity.
Defined.

(** The claim C2 fails when the main node tree is on a cycle: A groups B,
    which groups A, and the list of A holds A. *)
Lemma root_on_cycle_listed :
  find_nested_node_groups cycle_heap 1 = Return [1; 2]%positive ∧
  1%positive ∈ [1; 2]%positive.
Proof. split; [vm_compute; reflexivity|by left]. Qed.

Lemma find_nested_node_groups_terminates_witness :
  ∃ l, find_nested_node_groups cycle_heap 1 = Return l ∧ NoDup l.
Proof.
  apply (find_nested_node_groups_terminates cycle_heap 1).
  - apply closedb_closed. vm_compute. reflexivity.
  - vm_compute. eexists. reflexivity.
Defined.

End DiscoveryExamples.

(** ** Two exports of the same graph state *)

Section Determinism.
Context {R : PythonRuntime}.
Variable export_node_properties : Node → pystr → outcome (list pystr).

Lemma same_graph_state_reference (heap1 heap2 : Heap) p t :
  same_graph_state heap1 heap2 p → references heap1 p t →
  same_graph_state heap1 heap2 t.
Proof. intros Hsame Hpt x Hx. apply Hsame. by eapply rtc_l. Qed.

(** A call reads the heap only at what its node tree reaches. *)
Lemma find_fuel_agree (heap1 heap2 : Heap) fuel : ∀ p visited r,
  same_graph_state heap1 heap2 p →
  find_fuel heap1 fuel p visited = Return r → find_fuel heap2 fuel p visited = Return r.
Proof.
  induction fuel as [|fuel IH]; intros p visited r Hsame Hcall; [done|].
  simpl in *. apply bind_Return_inv in Hcall as (g & Hp%deref_Return & Hcall).
  unfold deref. rewrite <- (Hsame p) by done. rewrite Hp. simpl.
  destruct (decide (tree_name g ∈ visited)); [done|].
  apply (foldlM_visit_mono (find_fuel heap1 fuel) (find_fuel heap2 fuel) (nodes g));
    [|exact Hcall].
  intros node t V r' Hnode Hgroup Htree. apply IH.
  apply (same_graph_state_reference heap1 heap2 p); [done|]. by exists g, node.
Qed.

Lemma find_nested_node_groups_agree (heap1 heap2 : Heap) p :
  closed heap1 → closed heap2 → same_graph_state heap1 heap2 p →
  is_Some (heap1 !! p) →
  ∃ l, find_nested_node_groups heap1 p = Return l ∧
       find_nested_node_groups heap2 p = Return l.
Proof.
  intros Hclosed1 Hclosed2 Hsame Hp1.
  assert (is_Some (heap2 !! p)) as Hp2 by (by rewrite <- (Hsame p)).
  destruct (find_fuel_total heap1 Hclosed1 (S (size heap1)) p ∅ Hp1)
    as (l1 & V1 & Hcall1 & _); [pose proof (unvisited_size heap1 ∅); lia|].
  destruct (find_fuel_total heap2 Hclosed2 (S (size heap2)) p ∅ Hp2)
    as (l2 & V2 & Hcall2 & _); [pose proof (unvisited_size heap2 ∅); lia|].
  pose proof (find_fuel_agree heap1 heap2 _ _ _ _ Hsame Hcall1) as Hcall12.
  pose proof (find_fuel_mono heap2 (S (size heap1)) (S (size heap1 `max` size heap2))
                p ∅ _ ltac:(lia) Hcall12) as Ha.
  pose proof (find_fuel_mono heap2 (S (size heap2)) (S (size heap1 `max` size heap2))
                p ∅ _ ltac:(lia) Hcall2) as Hb.
  rewrite Ha in Hb. injection Hb as -> ->.
  exists l2. unfold find_nested_node_groups. by rewrite Hcall1, Hcall2.
Qed.

Lemma deref_all_agree (heap1 heap2 : Heap) (l : list positive) :
  (∀ x, x ∈ l → heap1 !! x = heap2 !! x) → deref_all heap1 l = deref_all heap2 l.
Proof.
  induction l as [|x l IH]; intros Hl; [done|].
  simpl. unfold deref. rewrite (Hl x) by (by left).
  rewrite IH; [done|]. intros y Hy. apply Hl. by right.
Qed.

(** C8: two exports with the same options return the same text whenever the
    graph state is the same: the node tree at [p] and the node trees it
    reaches; what else the two hosts hold has no part in the text. *)
Theorem export_same_state_same_text (heap1 heap2 : Heap) (p : positive)
    (auto_assign include_nested : bool) :
  closed heap1 → closed heap2 → same_graph_state heap1 heap2 p →
  export_node_group_to_python export_node_properties heap1 p auto_assign include_nested
  = export_node_group_to_python export_node_properties heap2 p auto_assign include_nested.
Proof.
  intros Hclosed1 Hclosed2 Hsame.
  unfold export_node_group_to_python, export_node_group_to_python_lines. f_equal.
  unfold deref. rewrite <- (Hsame p) by done.
  destruct (heap1 !! p) as [node_group|] eqn:Hp; [|done]. simpl.
  assert (∃ l, (if include_nested then find_nested_node_groups heap1 p else Return [])
               = Return l ∧
               (if include_nested then find_nested_node_groups heap2 p else Return [])
               = Return l ∧
               ∀ x, x ∈ l → tc (references heap1) p x) as (l & -> & -> & Hreach).
  { destruct include_nested.
    - destruct (find_nested_node_groups_agree heap1 heap2 p) as (l & H1 & H2); [done..|].
      exists l. split; [done|]. split; [done|].
      destruct (find_nested_node_groups_post heap1 p l H1) as (visited' & Hpost).
      exact (fp_reach _ _ _ _ _ Hpost).
    - exists []. split; [done|]. split; [done|]. intros x Hx. by apply elem_of_nil in Hx. }
  simpl. rewrite (deref_all_agree heap1 heap2 l); [done|].
  intros x Hx. apply Hsame, tc_rtc, Hreach, Hx.
Qed.

End Determinism.

Section DeterminismExample.
#[local] Existing Instance reference_runtime.

Lemma export_same_state_same_text_witness :
  export_node_group_to_python no_properties shared_heap 1 true true
  = export_node_group_to_python no_properties shared_heap_and_more 1 true true.
Proof.
  apply (export_same_state_same_text no_properties shared_heap shared_heap_and_more 1 true true).
  - apply closedb_closed. vm_compute. reflexivity.
  - apply closedb_closed. vm_compute. reflexivity.
  - intros x Hx.
    assert (is_Some (shared_heap !! x)) as Hlive.
    { eapply (reachable_live shared_heap); [| |exact Hx].
      - apply closedb_closed. vm_compute. reflexivity.
      - apply (bool_decide_unpack _). vm_compute. reflexivity. }
    unfold shared_heap_and_more. rewrite lookup_insert_ne; [done|].
    intros <-. destruct Hlive as [g Hg]. vm_compute in Hg. discriminate.
Defined.

End DeterminismExample.

(** ** More on the identifier sanitizer *)

Section SanitizerMore.
Context {R : PythonRuntime} (HR : ascii_conformant R).

Lemma identifier_char_ascii c : identifier_char c = true → is_ascii c = true.
Proof.
  unfold identifier_char, ascii_islower, ascii_isdigit, is_ascii, UNDERSCORE.
  rewrite !orb_true_iff, !andb_true_iff, !N.leb_le, N.eqb_eq, N.ltb_lt. lia.
Qed.

Lemma identifier_char_kept c :
  identifier_char c = true → sanitize_char c = c ∧ ascii_lower c = c.
Proof.
  intros Hid. pose proof (identifier_char_ascii c Hid) as Hc.
  rewrite (sanitize_char_ascii HR c Hc).
  assert (∀ c, is_ascii c = true →
    implb (identifier_char c)
      ((ascii_isalnum c || (c =? UNDERSCORE)%N) && (ascii_lower c =? c)%N) = true) as H.
  { apply ascii_forall. vm_compute. reflexivity. }
  specialize (H c Hc). rewrite Hid in H. simpl in H.
  apply andb_true_iff in H as [-> ->%N.eqb_eq]. done.
Qed.

Lemma sanitize_name_ascii_eq name :
  Forall (λ c, is_ascii c = true) name →
  sanitize_name name = ascii_lower <$> before_lower name.
Proof.
  intros Hname. destruct (before_lower_ok HR name Hname) as (_ & Hall & _).
  change (sanitize_name name) with (str_lower (before_lower name)).
  apply (conf_lower R HR). eapply Forall_impl; [exact Hall|]. by intros c [? _].
Qed.

Lemma sanitize_name_ascii_facts name :
  Forall (λ c, is_ascii c = true) name →
  sanitize_name name ≠ [] ∧
  Forall (λ c, identifier_char c = true) (sanitize_name name) ∧
  (∀ c, head (sanitize_name name) = Some c → ascii_isdigit c = false).
Proof.
  intros Hname. rewrite (sanitize_name_ascii_eq name Hname).
  destruct (before_lower_ok HR name Hname) as (Hne & Hall & Hhead).
  split; [|split].
  - destruct (before_lower name); [done|]. discriminate.
  - apply Forall_fmap. eapply Forall_impl; [exact Hall|]. by intros c [_ ?].
  - intros c Hc. destruct (before_lower name) as [|c0 l]; [done|].
    simpl in Hc. injection Hc as <-.
    apply Forall_cons in Hall as [[Hc0 _] _].
    rewrite (ascii_lower_digit c0 Hc0). by apply Hhead.
Qed.

Lemma sanitize_name_fixed (name : pystr) :
  name ≠ [] →
  Forall (λ c, identifier_char c = true) name →
  (∀ c, head name = Some c → ascii_isdigit c = false) →
  sanitize_name name = name.
Proof.
  intros Hne Hid Hhead.
  assert (Forall (λ c, is_ascii c = true) name) as Hascii.
  { eapply Forall_impl; [exact Hid|]. apply identifier_char_ascii. }
  rewrite (sanitize_name_ascii_eq name Hascii). unfold before_lower.
  assert (sanitize_char <$> name = name) as ->.
  { clear Hne Hhead Hascii. induction Hid as [|c l Hc _ IH]; [done|].
    rewrite fmap_cons, IH. by destruct (identifier_char_kept c Hc) as [-> _]. }
  destruct name as [|c name]; [done|].
  apply Forall_cons in Hascii as [Hc _].
  rewrite (conf_isdigit R HR c Hc), (Hhead c eq_refl).
  clear Hne Hhead Hc. induction Hid as [|c' l Hc' _ IH]; [done|].
  rewrite fmap_cons, IH. by destruct (identifier_char_kept c' Hc') as [_ ->].
Qed.

(** A name that is already a lowercase ASCII identifier is returned as it
    is. *)
Theorem sanitize_name_identifier_fixed (name : pystr) :
  name ≠ [] →
  Forall (λ c, identifier_char c = true) name →
  (∀ c, head name = Some c → ascii_isdigit c = false) →
  sanitize_name name = name.
Proof. apply sanitize_name_fixed. Qed.

(** On ASCII names [sanitize_name] is idempotent. *)
Theorem sanitize_name_idempotent (name : pystr) :
  Forall (λ c, is_ascii c = true) name →
  sanitize_name (sanitize_name name) = sanitize_name name.
Proof.
  intros Hname. destruct (sanitize_name_ascii_facts name Hname) as (Hne & Hid & Hhead).
  by apply sanitize_name_fixed.
Qed.

Lemma before_lower_case name :
  Forall (λ c, is_ascii c = true) name →
  ascii_lower <$> before_lower name = ascii_lower <$> before_lower (ascii_lower <$> name).
Proof.
  intros Hname.
  assert (∀ c, is_ascii c = true →
    is_ascii (ascii_lower c) &&
    (ascii_lower (if ascii_isalnum c || (c =? UNDERSCORE)%N then c else UNDERSCORE)
     =? ascii_lower (if ascii_isalnum (ascii_lower c) || (ascii_lower c =? UNDERSCORE)%N
                     then ascii_lower c else UNDERSCORE))%N &&
    bool_decide (ascii_isdigit (if ascii_isalnum c || (c =? UNDERSCORE)%N then c else UNDERSCORE)
     = ascii_isdigit (if ascii_isalnum (ascii_lower c) || (ascii_lower c =? UNDERSCORE)%N
                      then ascii_lower c else UNDERSCORE)) = true) as Htable.
  { apply ascii_forall. vm_compute. reflexivity. }
  assert (∀ c, is_ascii c = true →
    is_ascii (ascii_lower c) = true ∧
    ascii_lower (sanitize_char c) = ascii_lower (sanitize_char (ascii_lower c)) ∧
    ascii_isdigit (sanitize_char c) = ascii_isdigit (sanitize_char (ascii_lower c)))
    as Hchar.
  { intros c Hc. specialize (Htable c Hc).
    apply andb_true_iff in Htable as [Htable Hdigit].
    apply andb_true_iff in Htable as [Hlow Heq].
    rewrite (sanitize_char_ascii HR c Hc), (sanitize_char_ascii HR _ Hlow).
    apply N.eqb_eq in Heq. by apply bool_decide_eq_true in Hdigit. }
  assert (ascii_lower <$> (sanitize_char <$> name)
          = ascii_lower <$> (sanitize_char <$> (ascii_lower <$> name))) as Htail.
  { clear Htable. induction Hname as [|c l Hc _ IH]; [done|].
    rewrite !fmap_cons, IH. by destruct (Hchar c Hc) as (_ & -> & _). }
  unfold before_lower. destruct name as [|c name]; [done|].
  apply Forall_cons in Hname as [Hc Hname].
  destruct (Hchar c Hc) as (Hlow & Heq & Hdigit).
  rewrite !fmap_cons in *.
  assert (is_ascii (sanitize_char c) = true) as Hsc
    by apply (sanitize_char_ascii_ok HR c Hc).
  assert (is_ascii (sanitize_char (ascii_lower c)) = true) as Hsl
    by apply (sanitize_char_ascii_ok HR _ Hlow).
  rewrite (conf_isdigit R HR _ Hsc), (conf_isdigit R HR _ Hsl), <- Hdigit.
  destruct (ascii_isdigit (sanitize_char c)); [|exact Htail].
  rewrite !fmap_cons. f_equal. exact Htail.
Qed.

(** ASCII names that differ only in the case of their letters have the same
    identifier: the routines of two such node trees have the same name. *)
Theorem sanitize_name_case_insensitive (a b : pystr) :
  Forall (λ c, is_ascii c = true) a → Forall (λ c, is_ascii c = true) b →
  ascii_lower <$> a = ascii_lower <$> b →
  sanitize_name a = sanitize_name b.
Proof.
  intros Ha Hb Hab.
  rewrite (sanitize_name_ascii_eq a Ha), (sanitize_name_ascii_eq b Hb).
  rewrite (before_lower_case a Ha), (before_lower_case b Hb). by rewrite Hab.
Qed.

End SanitizerMore.

Lemma sanitize_name_identifier_fixed_witness :
  sanitize_name (R := reference_runtime) (py "node_0_grid") = py "node_0_grid".
Proof.
  apply (sanitize_name_identifier_fixed reference_runtime_conformant).
  - discriminate.
  - vm_compute. repeat constructor.
  - intros c [= <-]. reflexivity.
Defined.

Lemma sanitize_name_idempotent_witness :
  sanitize_name (R := reference_runtime) (sanitize_name (R := reference_runtime) (py "3D Model (new)"))
  = sanitize_name (R := reference_runtime) (py "3D Model (new)").
Proof.
  apply (sanitize_name_idempotent reference_runtime_conformant).
  vm_compute. repeat constructor.
Defined.

Lemma sanitize_name_case_insensitive_witness :
  sanitize_name (R := reference_runtime) (py "Wood Grain")
  = sanitize_name (R := reference_runtime) (py "wood grain").
Proof.
  apply (sanitize_name_case_insensitive reference_runtime_conformant).
  - vm_compute. repeat constructor.
  - vm_compute. repeat constructor.
  - vm_compute. reflexivity.
Defined.

(** ** The type resolvers *)

(** [get_socket_type] always returns one of the fifteen identifiers of its
    table, [NodeSocketFloat] when the socket has no [type] or an unknown
    one, and gives two kinds of the table that differ different
    identifiers. *)
Theorem get_socket_type_table (socket_type : option pystr) :
  get_socket_type socket_type ∈ SOCKET_TYPE_TABLE.*2 ∧
  (from_option (λ type, type ∉ SOCKET_TYPE_TABLE.*1) True socket_type →
   get_socket_type socket_type = py "NodeSocketFloat") ∧
  (∀ type type', type ∈ SOCKET_TYPE_TABLE.*1 → type' ∈ SOCKET_TYPE_TABLE.*1 →
                 get_socket_type (Some type) = get_socket_type (Some type') → type = type').
Proof.
  split; [|split].
  - unfold get_socket_type. destruct socket_type as [type|]; [|by left].
    destruct (socket_type_map !! type) as [identifier|] eqn:Hlookup; [|by left].
    apply elem_of_list_to_map_2 in Hlookup.
    exact (list_elem_of_fmap_2 snd _ _ Hlookup).
  - unfold get_socket_type. destruct socket_type as [type|]; [|done].
    intros Hnot. unfold socket_type_map.
    by rewrite (not_elem_of_list_to_map_1 _ _ Hnot).
  - assert (Forall (λ type, Forall (λ type',
              get_socket_type (Some type) = get_socket_type (Some type') → type = type')
              SOCKET_TYPE_TABLE.*1) SOCKET_TYPE_TABLE.*1) as Htable.
    { apply (bool_decide_unpack _). vm_compute. reflexivity. }
    intros type type' Hin Hin'. rewrite Forall_forall in Htable.
    specialize (Htable type Hin). rewrite Forall_forall in Htable. by apply Htable.
Qed.

Section Resolvers.
Context {R : PythonRuntime}.

(** [get_node_tree_type] returns the [bl_idname] of the node tree, whatever
    it is: each of the four kinds it tests is returned as itself. *)
Theorem get_node_tree_type_bl_idname (node_tree : NodeTree) :
  get_node_tree_type node_tree = tree_bl_idname node_tree.
Proof. unfold get_node_tree_type. by repeat case_decide. Qed.

(** *** The value formatter on iterables *)

(** A non-empty iterable whose items are all texts of one character is not
    formatted (the sentinel), so a text-like sequence never becomes a
    tuple; any other iterable whose items render becomes the tuple of its
    items. *)
Lemma format_value_iterable_items (type_name : pystr) (items : list PyValue)
    (obj_repr : outcome pystr) (rendered : list pystr) :
  type_name ∉ AGGREGATE_TYPES →
  reprs items = Return rendered →
  format_value (PyObject type_name (Some (Return items)) obj_repr)
  = Return (if negb (bool_decide (items = [])) && forallb is_single_char_str items
            then None
            else Some (match rendered with
                       | [r] => py "(" ++ r ++ py ",)"
                       | _ => py "(" ++ str_join (py ", ") rendered ++ py ")"
                       end)).
Proof.
  intros Htype Hreprs. simpl. rewrite bool_decide_eq_false_2 by done. simpl.
  destruct (negb (bool_decide (items = [])) && forallb is_single_char_str items); [done|].
  unfold tuple_repr. by rewrite Hreprs.
Qed.

End Resolvers.

Section FormatterIterableExample.
#[local] Existing Instance reference_runtime.

Lemma format_value_iterable_returns_witness :
  ∃ r, format_value (PyObject (py "bpy_prop_array") (Some (Raise RuntimeError))
                       (Raise RuntimeError)) = Return r.
Proof.
  apply (format_value_iterable_returns (py "bpy_prop_array")).
  apply (bool_decide_unpack _). vm_compute. reflexivity.
Defined.

End FormatterIterableExample.

(** ** The names of the variables *)

Lemma pretty_N_char_digit x : is_digit_ascii (pretty_N_char x).
Proof.
  unfold pretty_N_char, is_digit_ascii. by repeat case_match.
Qed.

Lemma pretty_N_go_digits x : ∀ s,
  Forall is_digit_ascii (list_ascii_of_string s) →
  Forall is_digit_ascii (list_ascii_of_string (pretty_N_go x s)).
Proof.
  induction (N.lt_wf_0 x) as [x _ IH]. intros s Hs.
  destruct (decide (x = 0)%N) as [->|Hx]; [by rewrite pretty_N_go_0|].
  rewrite pretty_N_go_step by lia. apply IH.
  - apply N.div_lt; lia.
  - simpl. constructor; [apply pretty_N_char_digit|done].
Qed.

Lemma pretty_nat_digits (i : nat) : Forall is_digit_ascii (list_ascii_of_string (pretty i)).
Proof.
  unfold pretty, pretty_nat, pretty, pretty_N.
  destruct (decide (N.of_nat i = 0)%N).
  - by repeat constructor.
  - apply pretty_N_go_digits. constructor.
Qed.

Lemma py_char_digit a : is_digit_ascii a → py_char a = N_of_ascii a.
Proof.
  unfold is_digit_ascii, py_char, ascii_isdigit. intros Ha.
  destruct (N_of_ascii a =? 96)%N eqn:E; [|done].
  apply N.eqb_eq in E. rewrite E in Ha. discriminate.
Qed.

Lemma nat_str_digits (i : nat) : Forall (λ c, ascii_isdigit c = true) (nat_str i).
Proof.
  unfold nat_str, py. apply Forall_fmap.
  eapply Forall_impl; [apply pretty_nat_digits|].
  intros a Ha. simpl. by rewrite (py_char_digit a Ha).
Qed.

Lemma nat_str_inj (i j : nat) : nat_str i = nat_str j → i = j.
Proof.
  unfold nat_str, py. intros Heq.
  apply (inj pretty).
  rewrite <- (string_of_list_ascii_of_string (pretty i)),
          <- (string_of_list_ascii_of_string (pretty j)). f_equal.
  pose proof (pretty_nat_digits i) as Hi. pose proof (pretty_nat_digits j) as Hj.
  revert Heq Hi Hj.
  generalize (list_ascii_of_string (pretty i)) (list_ascii_of_string (pretty j)).
  intros l1. induction l1 as [|a l1 IH]; intros [|b l2] Heq Hi Hj; try done.
  apply Forall_cons in Hi as [Ha Hi]. apply Forall_cons in Hj as [Hb Hj].
  rewrite !fmap_cons in Heq. injection Heq as Hab Heq.
  rewrite (py_char_digit a Ha), (py_char_digit b Hb) in Hab.
  f_equal; [|by apply IH].
  rewrite <- (ascii_N_embedding a), <- (ascii_N_embedding b). by rewrite Hab.
Qed.

(** Two lists that agree after a separator which neither has before it
    agree before it. *)
Lemma app_separator_inv (x : N) (l1 l2 r1 r2 : pystr) :
  x ∉ l1 → x ∉ l2 → l1 ++ x :: r1 = l2 ++ x :: r2 → l1 = l2.
Proof.
  revert l2. induction l1 as [|a l1 IH]; intros [|b l2] H1 H2 Heq; simpl in *; try done.
  - injection Heq as -> _. destruct H2. by left.
  - injection Heq as -> _. destruct H1. by left.
  - injection Heq as -> Heq. f_equal. apply IH; [| |done].
    + intros ?. apply H1. by right.
    + intros ?. apply H2. by right.
Qed.

Section VariableNames.
Context {R : PythonRuntime}.

Lemma var_name_position (i j : nat) (node node' : Node) :
  single_var_name i node = single_var_name j node' → i = j.
Proof.
  unfold single_var_name. intros Heq. apply app_inv_head in Heq.
  apply nat_str_inj. eapply (app_separator_inv UNDERSCORE); [| |exact Heq].
  - intros Hin. pose proof (nat_str_digits i) as Hd. rewrite Forall_forall in Hd.
    by specialize (Hd _ Hin).
  - intros Hin. pose proof (nat_str_digits j) as Hd. rewrite Forall_forall in Hd.
    by specialize (Hd _ Hin).
Qed.

(** The variables of two positions differ, whatever the names of the nodes:
    nodes whose names sanitize to the same identifier, or are the same,
    still get two variables.  This in both emitters. *)
Theorem var_names_distinct (i j : nat) (node node' : Node) :
  i ≠ j →
  single_var_name i node ≠ single_var_name j node' ∧
  main_var_name i node ≠ main_var_name j node'.
Proof.
  intros Hij. split; intros Heq; by apply Hij, (var_name_position i j node node').
Qed.

End VariableNames.

Section VariableNamesExample.
#[local] Existing Instance reference_runtime.

Lemma var_names_distinct_witness :
  single_var_name 0 grid_node ≠ single_var_name 1 grid_node ∧
  main_var_name 0 grid_node ≠ main_var_name 1 grid_node.
Proof. apply (var_names_distinct 0 1 grid_node grid_node). lia. Defined.

End VariableNamesExample.

(** *** The values that the formatter leaves out *)

Section FormatterSentinel.
Context {R : PythonRuntime}.

Lemma tuple_repr_cases (items : list PyValue) :
  (∃ text, tuple_repr items = Return text ∧ ∃ rs, reprs items = Return rs)
  ∨ (∃ e, tuple_repr items = Raise e ∧ reprs items = Raise e).
Proof.
  unfold tuple_repr. destruct (reprs items) as [rs|e]; simpl.
  - left. eexists. split; [done|]. by exists rs.
  - right. by exists e.
Qed.

(** [format_value] returns the sentinel [None], so that the emitters leave
    the default value out, exactly on [None] and on an iterable that is not
    a [Vector], [Color], [Euler] or [Quaternion] and whose iteration
    raises, or whose items are one or more texts of one character each, or
    one of whose items has a [repr] that raises. *)
Theorem format_value_sentinel (val : PyValue) :
  format_value val = Return None
  ↔ val = PyNone
    ∨ ∃ type_name it obj_repr,
        val = PyObject type_name (Some it) obj_repr ∧ (type_name ∉ AGGREGATE_TYPES) ∧
        ((∃ e, it = Raise e)
         ∨ ∃ items, it = Return items ∧
             ((items ≠ [] ∧ forallb is_single_char_str items = true)
              ∨ ∃ e, reprs items = Raise e)).
Proof.
  split.
  - destruct val as [| | | | |type_name [it|] obj_repr]; try done; [by left| |].
    + intros Hrun. right. exists type_name, it, obj_repr. split; [done|].
      unfold format_value in Hrun.
      destruct (bool_decide (type_name ∈ AGGREGATE_TYPES)) eqn:Htype.
      { destruct it as [items|]; [|done]. simpl in Hrun.
        by destruct (tuple_repr_cases items) as [(? & Heq & _)|(? & Heq & _)];
          rewrite Heq in Hrun. }
      apply bool_decide_eq_false in Htype. split; [done|].
      destruct it as [items|e]; [|left; by exists e].
      right. exists items. split; [done|]. simpl in Hrun.
      destruct (negb (bool_decide (items = []))) eqn:Hempty; simpl in Hrun.
      * destruct (forallb is_single_char_str items) eqn:Hchars.
        { left. split; [|done]. apply negb_true_iff, bool_decide_eq_false in Hempty. done. }
        destruct (tuple_repr_cases items) as [(? & Heq & _)|(e & Heq & Hreprs)];
          rewrite Heq in Hrun; [done|]. right. by exists e.
      * destruct (tuple_repr_cases items) as [(? & Heq & _)|(e & Heq & Hreprs)];
          rewrite Heq in Hrun; [done|]. right. by exists e.
    + intros Hrun. unfold format_value in Hrun.
      destruct (bool_decide (type_name ∈ AGGREGATE_TYPES)); [done|].
      by destruct obj_repr.
  - intros [->|(type_name & it & obj_repr & -> & Htype & Hit)]; [done|].
    unfold format_value. rewrite bool_decide_eq_false_2 by done.
    destruct Hit as [[e ->]|(items & -> & [[Hne Hchars]|[e Hreprs]])]; [done| |].
    + simpl. rewrite Hchars. by rewrite bool_decide_eq_false_2.
    + simpl. destruct (negb (bool_decide (items = [])) && forallb is_single_char_str items);
        [done|].
      destruct (tuple_repr_cases items) as [(? & _ & rs & Hrs)|(e' & Heq & _)].
      * by rewrite Hrs in Hreprs.
      * by rewrite Heq.
Qed.

End FormatterSentinel.

(** ** More on the discovery of nested node groups *)

Section Completeness.
Context {R : PythonRuntime} (heap : Heap).
Hypothesis Hunique : unique_names heap.

Implicit Types (p t x y : positive) (g : NodeTree) (visited : gset pystr)
  (l nested sub : list positive) (st : list positive * gset pystr).

Lemma visit_node_closed (rec : positive → gset pystr → outcome (list positive * gset pystr))
    p g visited done st node st' :
  heap !! p = Some g →
  node ∈ nodes g →
  (∀ t V l V', rec t V = Return (l, V') → find_post heap t V l V') →
  (∀ t V l V', rec t V = Return (l, V') → closed_post heap V l) →
  loop_inv heap p g visited done st →
  closed_post heap ({[tree_name g]} ∪ visited) st.1 →
  visit_node rec st node = Return st' →
  closed_post heap ({[tree_name g]} ∪ visited) st'.1.
Proof.
  intros Hp Hnode Hrec Hrec' Hinv Hclosed. unfold visit_node.
  destruct (is_group_node node) eqn:Hgroup; [|by intros [= <-]].
  destruct (node_tree node) as [t|] eqn:Htree; [|by intros [= <-]].
  destruct (rec t st.2) as [[sub visited']|] eqn:Hcall; [|done].
  intros Hst'. apply Return_inj in Hst'. subst st'.
  change (foldl _ st.1 sub) with (extend_absent st.1 sub). simpl.
  pose proof (Hrec _ _ _ _ Hcall) as [Pgrows Plive Pnew Preach Pnodup Pself Pchildren].
  pose proof (Hrec' _ _ _ _ Hcall) as Pclosed.
  assert (∀ z gz, heap !! z = Some gz → z ∉ st.1 →
                  tree_name gz ∉ ({[tree_name g]} ∪ visited : gset pystr) →
                  tree_name gz ∉ st.2) as Hentered.
  { intros z gz Hz Hzn Hzf Hin. apply Hzn. by eapply (visited_in_list heap Hunique). }
  intros x Hx Hfresh y Hxy.
  apply elem_of_append_if_absent. left. apply elem_of_extend_absent.
  destruct (decide (x ∈ st.1)) as [Hold|Hnew]; [left; by eapply Hclosed|].
  right. apply elem_of_append_if_absent in Hx as [Hx| ->].
  - apply elem_of_extend_absent in Hx as [Hx|Hx]; [done|].
    apply (Pclosed x Hx); [|done].
    intros gx Hgx. apply (Hentered x gx Hgx Hnew), Hfresh, Hgx.
  - destruct Pself as (gt & Hgt & _).
    apply (Pchildren gt Hgt); [|done]. apply (Hentered t gt Hgt Hnew), Hfresh, Hgt.
Qed.

Lemma foldlM_visit_closed (rec : positive → gset pystr → outcome (list positive * gset pystr))
    p g visited :
  heap !! p = Some g →
  (∀ t V l V', rec t V = Return (l, V') → find_post heap t V l V') →
  (∀ t V l V', rec t V = Return (l, V') → closed_post heap V l) →
  ∀ todo done st st',
    (∀ node, node ∈ todo → node ∈ nodes g) →
    loop_inv heap p g visited done st →
    closed_post heap ({[tree_name g]} ∪ visited) st.1 →
    foldlM (visit_node rec) todo st = Return st' →
    closed_post heap ({[tree_name g]} ∪ visited) st'.1.
Proof.
  intros Hp Hrec Hrec'.
  induction todo as [|node todo IH]; intros done st st' Hin Hinv Hclosed Hloop.
  - apply Return_inj in Hloop. by subst.
  - simpl in Hloop. apply bind_Return_inv in Hloop as (st1 & Hstep & Hloop).
    assert (node ∈ nodes g) as Hnode by (apply Hin; by left).
    eapply (IH (done ++ [node])); [..|exact Hloop].
    + intros n Hn. apply Hin. by right.
    + eapply visit_node_inv; eauto.
    + eapply visit_node_closed; eauto.
Qed.

Lemma find_fuel_closed fuel : ∀ p visited l visited',
  find_fuel heap fuel p visited = Return (l, visited') → closed_post heap visited l.
Proof.
  induction fuel as [|fuel IH]; intros p visited l visited' Hcall; [done|].
  pose proof (find_fuel_post heap _ _ _ _ _ Hcall) as Hpost.
  simpl in Hcall. apply bind_Return_inv in Hcall as (g & Hp%deref_Return & Hcall).
  destruct (decide (tree_name g ∈ visited)) as [Hvisited|Hfresh].
  { apply Return_inj in Hcall. injection Hcall as <- <-.
    intros x Hx. by apply elem_of_nil in Hx. }
  assert (loop_inv heap p g visited [] ([], {[tree_name g]} ∪ visited)) as Hinit.
  { split; simpl; try done.
    - intros x Hx. by apply elem_of_nil in Hx.
    - auto.
    - intros x Hx. by apply elem_of_nil in Hx.
    - apply NoDup_nil_2.
    - intros node t Hn. by apply elem_of_nil in Hn. }
  pose proof (foldlM_visit_closed (find_fuel heap fuel) p g visited Hp
                (find_fuel_post heap fuel) IH (nodes g) []
                ([], {[tree_name g]} ∪ visited) (l, visited') (λ _ H, H) Hinit) as Hclosed.
  simpl in Hclosed.
  specialize (Hclosed ltac:(intros x Hx; by apply elem_of_nil in Hx) Hcall).
  intros x Hx Hfresh_x y Hxy.
  destruct (fp_live _ _ _ _ _ Hpost x Hx) as (gx & Hgx & _).
  destruct (decide (tree_name gx = tree_name g)) as [Hname|Hname].
  - assert (x = p) as -> by (by apply (Hunique x p gx g)).
    by apply (fp_children _ _ _ _ _ Hpost g Hp Hfresh).
  - apply (Hclosed x Hx); [|done].
    intros gx' Hgx' [Hin|Hin]%elem_of_union.
    + apply elem_of_singleton in Hin. congruence.
    + by apply (Hfresh_x gx').
Qed.

(** When the node trees have distinct names, the list that
    [find_nested_node_groups] returns holds exactly the node trees that the
    main one references, directly or through others; cycles or not. *)
Theorem find_nested_node_groups_complete (p : positive) (l : list positive) :
  find_nested_node_groups heap p = Return l →
  ∀ x, x ∈ l ↔ tc (references heap) p x.
Proof.
  intros Hfind. pose proof Hfind as (visited' & Hcall)%find_nested_node_groups_inv.
  pose proof (find_fuel_post heap _ _ _ _ _ Hcall) as Hpost.
  pose proof (find_fuel_closed _ _ _ _ _ Hcall) as Hclosed.
  intros x. split; [apply (fp_reach _ _ _ _ _ Hpost)|].
  assert (∀ a b, tc (references heap) a b → a ∈ l → b ∈ l) as Hpath.
  { induction 1 as [a b Hab|a b c Hab _ IH]; intros Ha.
    - apply (Hclosed a Ha); [|done]. intros ga _. apply not_elem_of_empty.
    - apply IH, (Hclosed a Ha); [|done]. intros ga _. apply not_elem_of_empty. }
  destruct (fp_self _ _ _ _ _ Hpost) as (g & Hp & _).
  intros Hreach.
  assert (∀ y, references heap p y → y ∈ l) as Hchildren.
  { apply (fp_children _ _ _ _ _ Hpost g Hp). apply not_elem_of_empty. }
  inversion Hreach as [? ? Hpx|? y ? Hpy Hyx]; subst.
  - by apply Hchildren.
  - eapply Hpath; [exact Hyx|]. by apply Hchildren.
Qed.

End Completeness.

Section NoNested.
Context {R : PythonRuntime} (heap : Heap).

Lemma foldlM_visit_no_nested (rec : positive → gset pystr → outcome (list positive * gset pystr))
    (todo : list Node) st :
  Forall (λ node, is_group_node node = false ∨ node_tree node = None) todo →
  foldlM (visit_node rec) todo st = Return st.
Proof.
  induction 1 as [|node todo Hnode _ IH]; [done|].
  assert (visit_node rec st node = Return st) as Hstep.
  { unfold visit_node. destruct Hnode as [-> | Hnone]; [done|].
    destruct (is_group_node node); [|done]. by rewrite Hnone. }
  change (foldlM (visit_node rec) (node :: todo) st)
    with (visit_node rec st node ≫= foldlM (visit_node rec) todo).
  rewrite Hstep. exact IH.
Qed.

(** A node tree whose group nodes hold no node tree (or that has no group
    node at all) has the empty list, whatever else the host holds. *)
Theorem find_nested_node_groups_no_nested (p : positive) (node_group : NodeTree) :
  heap !! p = Some node_group → no_nested_group node_group →
  find_nested_node_groups heap p = Return [].
Proof.
  intros Hp Hnone. unfold find_nested_node_groups. simpl. unfold deref. rewrite Hp. simpl.
  rewrite decide_False by apply not_elem_of_empty.
  by rewrite (foldlM_visit_no_nested _ _ _ Hnone).
Qed.

End NoNested.

Section DiscoveryMoreExamples.
#[local] Existing Instance reference_runtime.

Lemma find_nested_node_groups_complete_witness :
  find_nested_node_groups cycle_heap 1 = Return [1; 2]%positive ∧
  ∀ x, x ∈ [1; 2]%positive ↔ tc (references cycle_heap) 1%positive x.
Proof.
  assert (find_nested_node_groups cycle_heap 1 = Return [1; 2]%positive) as Hfind
    by (vm_compute; reflexivity).
  split; [exact Hfind|].
  apply (find_nested_node_groups_complete cycle_heap).
  - apply unique_namesb_unique. vm_compute. reflexivity.
  - exact Hfind.
Defined.

Lemma find_nested_node_groups_no_nested_witness :
  find_nested_node_groups wrapping_heap 2 = Return [].
Proof.
  apply (find_nested_node_groups_no_nested wrapping_heap 2 wrapped_geometry_tree).
  - unfold wrapping_heap. rewrite lookup_insert_ne by done. apply lookup_insert_eq.
  - repeat constructor.
Defined.

End DiscoveryMoreExamples.

(** ** More on the emitters *)

Lemma for_lines_returns {A} (f : A → outcome (list pystr)) (l : list A) :
  (∀ x, x ∈ l → ∃ ls, f x = Return ls) → ∃ lines, for_lines f l = Return lines.
Proof.
  induction l as [|x l IH]; intros Hl; simpl; [by eexists|].
  destruct (Hl x) as [ls ->]; [by left|]. simpl.
  destruct IH as [rest ->]; [|by eexists].
  intros y Hy. apply Hl. by right.
Qed.

Lemma for_lines_raises {A} (f : A → outcome (list pystr)) (l : list A) x e :
  x ∈ l → f x = Raise e → ∃ e', for_lines f l = Raise e'.
Proof.
  induction l as [|y l IH]; intros Hx Hf; [by apply elem_of_nil in Hx|].
  simpl. apply elem_of_cons in Hx as [<-|Hx].
  - rewrite Hf. by eexists.
  - destruct (f y) as [ls|e0]; simpl; [|by eexists].
    destruct (IH Hx Hf) as [e' ->]. by eexists.
Qed.

Lemma elem_of_enumerate {A} (l : list A) i x : l !! i = Some x → (i, x) ∈ enumerate l.
Proof. intros H. by apply (elem_of_lookup_imap_2 pair). Qed.

Lemma elem_of_enumerate_inv {A} (l : list A) i x : (i, x) ∈ enumerate l → l !! i = Some x.
Proof.
  intros (j & y & [= -> ->] & Hy)%elem_of_lookup_imap_1. done.
Qed.

(** [text.split(c)] is never empty, and joining it with [c] gives [text]. *)
Lemma str_split_nonempty c text : str_split c text ≠ [].
Proof.
  destruct text as [|x rest]; simpl; [done|].
  destruct (x =? c)%N; [done|]. by destruct (str_split c rest).
Qed.

Lemma str_join_split c text : str_join [c] (str_split c text) = text.
Proof.
  induction text as [|x rest IH]; [done|]. simpl.
  pose proof (str_split_nonempty c rest) as Hne.
  destruct (x =? c)%N eqn:E.
  - apply N.eqb_eq in E. subst x.
    destruct (str_split c rest) as [|l ls] eqn:Hs; [done|].
    change (str_join [c] ([] :: l :: ls)) with ([] ++ [c] ++ str_join [c] (l :: ls)).
    by rewrite IH.
  - destruct (str_split c rest) as [|l ls] eqn:Hs; [done|].
    rewrite <- IH. by destruct ls.
Qed.

Lemma str_join_cons_nil sep (rest : list pystr) :
  rest ≠ [] → str_join sep ([] :: rest) = sep ++ str_join sep rest.
Proof. by destruct rest. Qed.

Section EmittersMore.
Context {R : PythonRuntime}.
Variable export_node_properties : Node → pystr → outcome (list pystr).

(** *** When the emitter returns and when it raises *)

Lemma var_names_fold_present (g : nat → nat) (m : gmap pystr pystr) (l : list Node) name :
  name ∈ node_name <$> l →
  ∃ i node,
    foldl (λ node_var_names entry,
             <[node_name entry.2 := single_var_name entry.1 entry.2]> node_var_names)
          m (imap (pair ∘ g) l) !! name = Some (single_var_name i node).
Proof.
  revert g m. induction l as [|x l IH]; intros g m Hin; [by apply elem_of_nil in Hin|].
  rewrite fmap_cons in Hin. simpl.
  destruct (decide (name ∈ node_name <$> l)) as [Hl|Hl]; [by apply (IH (g ∘ S))|].
  apply elem_of_cons in Hin as [->|Hin]; [|done].
  exists (g 0), x.
  etrans; [exact (var_names_fold_absent (g ∘ S)
                    (<[node_name x := single_var_name (g 0) x]> m) l (node_name x) Hl)|].
  apply lookup_insert_eq.
Qed.

Lemma node_var_names_present (node_group : NodeTree) node :
  node ∈ nodes node_group →
  truthy (single_node_var_names node_group !! node_name node) = true.
Proof.
  intros Hnode.
  destruct (var_names_fold_present id ∅ (nodes node_group) (node_name node))
    as (i & node' & Hlookup); [by apply list_elem_of_fmap_2|].
  unfold single_node_var_names, enumerate.
  change (imap pair (nodes node_group)) with (imap (pair ∘ id) (nodes node_group)).
  by rewrite Hlookup.
Qed.

Lemma list_index_present (x : Socket) (l : list Socket) :
  socket_ptr x ∈ socket_ptr <$> l → ∃ i, list_index x l = Return i.
Proof.
  induction l as [|y l IH]; intros Hin; [by apply elem_of_nil in Hin|].
  simpl. destruct (decide (socket_ptr y = socket_ptr x)) as [Heq|Hne]; [by eexists|].
  rewrite fmap_cons in Hin. apply elem_of_cons in Hin as [Hin|Hin]; [congruence|].
  destruct (IH Hin) as [i ->]. by eexists.
Qed.

Lemma single_link_lines_well_formed (node_group : NodeTree) (link : Link) :
  link_well_formed node_group link →
  ∃ ls, single_link_lines (single_node_var_names node_group) link = Return ls.
Proof.
  intros (Hfrom & Hto & Hout & Hin). unfold single_link_lines.
  rewrite (node_var_names_present _ _ Hfrom), (node_var_names_present _ _ Hto).
  destruct (list_index_present _ _ Hout) as [i ->].
  destruct (list_index_present _ _ Hin) as [j ->]. by eexists.
Qed.

Lemma single_default_lines_returns var_name j (socket : Socket) :
  (is_linked socket = false → ∀ val, default_value socket = Some val →
                               ∃ r, format_value val = Return r) →
  ∃ ls, single_default_lines var_name (j, socket) = Return ls.
Proof.
  intros Hformat. unfold single_default_lines, get_socket_default_value.
  destruct (default_value socket) as [val|] eqn:Hval; [|by eexists].
  destruct (is_linked socket) eqn:Hlinked; [by eexists|].
  rewrite bool_decide_eq_true_2 by (by eexists).
  destruct (Hformat eq_refl val eq_refl) as [[d|] ->]; by eexists.
Qed.

Lemma single_routine_returns (node_group : NodeTree) :
  (∀ i node, nodes node_group !! i = Some node →
             ∃ ls, export_node_properties node (single_var_name i node) = Return ls) →
  (∀ node socket val, node ∈ nodes node_group → socket ∈ inputs node →
                      is_linked socket = false → default_value socket = Some val →
                      ∃ r, format_value val = Return r) →
  Forall (λ link, link_well_formed node_group link ∨ link_dangling node_group link)
         (links node_group) →
  ∃ text, export_single_node_group export_node_properties node_group = Return text.
Proof.
  intros Hprops Hdefaults Hlinks.
  unfold export_single_node_group, export_single_node_group_lines.
  destruct (for_lines_returns (single_node_lines export_node_properties)
              (enumerate (nodes node_group))) as [node_lines ->].
  { intros [i node] Hin%elem_of_enumerate_inv. unfold single_node_lines.
    destruct (Hprops i node Hin) as [ls ->].
    destruct (for_lines_returns (single_default_lines (single_var_name i node))
                (enumerate (inputs node))) as [defaults ->]; [|by eexists].
    intros [j socket] Hj%elem_of_enumerate_inv.
    apply single_default_lines_returns. intros Hlinked val Hval.
    apply (Hdefaults node socket val); [|by eapply list_elem_of_lookup_2|done|done].
    by eapply list_elem_of_lookup_2. }
  destruct (for_lines_returns (single_link_lines (single_node_var_names node_group))
              (links node_group)) as [link_lines ->]; [|by eexists].
  intros link Hlink. rewrite Forall_forall in Hlinks.
  destruct (Hlinks link Hlink) as [Hwf|Hdangling].
  - by apply single_link_lines_well_formed.
  - exists []. by apply single_link_lines_absent.
Qed.

(** The routine of a node tree is emitted without an exception when the
    properties of every node are, the default value of every input that is
    not linked formats without one, and every link either has both its
    nodes in the tree and its sockets on them, or has a node whose name is
    not in the tree. *)
Theorem export_single_node_group_returns (node_group : NodeTree) :
  (∀ i node, nodes node_group !! i = Some node →
             ∃ ls, export_node_properties node (single_var_name i node) = Return ls) →
  (∀ node socket val, node ∈ nodes node_group → socket ∈ inputs node →
                      is_linked socket = false → default_value socket = Some val →
                      ∃ r, format_value val = Return r) →
  Forall (λ link, link_well_formed node_group link ∨ link_dangling node_group link)
         (links node_group) →
  ∃ text, export_single_node_group export_node_properties node_group = Return text.
Proof. apply single_routine_returns. Qed.

(** An input that is not linked and whose default value makes
    [format_value] raise makes the emitter raise: the routine is not
    emitted without that assignment. *)
Theorem export_single_node_group_default_raises (node_group : NodeTree)
    (i j : nat) (node : Node) (socket : Socket) (val : PyValue) (e : exn) :
  nodes node_group !! i = Some node → inputs node !! j = Some socket →
  is_linked socket = false → default_value socket = Some val →
  format_value val = Raise e →
  ∃ e', export_single_node_group export_node_properties node_group = Raise e'.
Proof.
  intros Hnode Hsocket Hlinked Hval Hraise.
  assert (∃ e', single_node_lines export_node_properties (i, node) = Raise e') as [e1 Hn].
  { unfold single_node_lines.
    destruct (export_node_properties node _) as [ls|e0]; [|by eexists]. simpl.
    destruct (for_lines_raises (single_default_lines (single_var_name i node))
                (enumerate (inputs node)) (j, socket) e) as [e' ->]; [| |by eexists].
    - by apply elem_of_enumerate.
    - unfold single_default_lines, get_socket_default_value.
      rewrite Hval, Hlinked. rewrite bool_decide_eq_true_2 by (by eexists).
      simpl. by rewrite Hraise. }
  unfold export_single_node_group, export_single_node_group_lines.
  destruct (for_lines_raises (single_node_lines export_node_properties)
              (enumerate (nodes node_group)) (i, node) e1) as [e' ->]; [|done|by eexists].
  by apply elem_of_enumerate.
Qed.

(** *** Positions of the default values and order of the links *)

(** The default value of the input at position [j] of the node at position
    [i], when the input is not linked and the value formats, is assigned to
    [inputs[j]] of the variable of position [i]. *)
Theorem default_assignment_position (node_group : NodeTree) (i j : nat) (node : Node)
    (socket : Socket) (val : PyValue) (default_val : pystr) (lines : list pystr) :
  nodes node_group !! i = Some node → inputs node !! j = Some socket →
  is_linked socket = false → default_value socket = Some val →
  format_value val = Return (Some default_val) →
  export_single_node_group_lines export_node_properties node_group = Return lines →
  default_statement (single_var_name i node) j default_val ∈ lines.
Proof.
  intros Hnode Hsocket Hlinked Hval Hformat Hlines.
  unfold export_single_node_group_lines in Hlines.
  apply bind_Return_inv in Hlines as (node_lines & Hnodes & Hlines).
  apply bind_Return_inv in Hlines as (link_lines & _ & Hlines).
  apply Return_inj in Hlines. rewrite <- Hlines.
  assert (default_statement (single_var_name i node) j default_val ∈ node_lines) as Hin.
  { destruct (single_node_lines export_node_properties (i, node)) as [ls|e] eqn:Hn.
    - eapply for_lines_elem; [exact Hnodes|by apply elem_of_enumerate|exact Hn|].
      unfold single_node_lines in Hn.
      apply bind_Return_inv in Hn as (properties & _ & Hn).
      apply bind_Return_inv in Hn as (defaults & Hdefaults & Hn).
      apply Return_inj in Hn. rewrite <- Hn.
      assert (default_statement (single_var_name i node) j default_val ∈ defaults) as Hd.
      { eapply for_lines_elem; [exact Hdefaults|by apply (elem_of_enumerate _ j socket)| |].
        - unfold single_default_lines, get_socket_default_value.
          rewrite Hval, Hlinked. rewrite bool_decide_eq_true_2 by (by eexists).
          simpl. rewrite Hformat. reflexivity.
        - do 2 right. by left. }
      rewrite !elem_of_app. do 5 right. by left.
    - destruct (for_lines_raises _ _ _ _ (elem_of_enumerate _ _ _ Hnode) Hn) as [e' He'].
      congruence. }
  rewrite !elem_of_app. do 3 right. by left.
Qed.

Lemma single_link_lines_at (node_group : NodeTree) (link : Link) (statement : pystr) :
  NoDup (node_name <$> nodes node_group) →
  (∀ node, node ∈ nodes node_group →
           NoDup (socket_ptr <$> inputs node) ∧ NoDup (socket_ptr <$> outputs node)) →
  link_statement_at node_group link statement →
  single_link_lines (single_node_var_names node_group) link = Return [statement].
Proof.
  intros Hnames Hsockets (p & q & i & j & Hp & Hq & Hi & Hj & ->).
  destruct (Hsockets _ (list_elem_of_lookup_2 _ _ _ Hp)) as [_ Hout].
  destruct (Hsockets _ (list_elem_of_lookup_2 _ _ _ Hq)) as [Hin _].
  unfold single_link_lines.
  rewrite (node_var_names_lookup _ _ _ Hnames Hp), (node_var_names_lookup _ _ _ Hnames Hq).
  rewrite !var_name_truthy. simpl.
  rewrite (list_index_lookup _ _ i Hout Hi). simpl.
  rewrite (list_index_lookup _ _ j Hin Hj). reflexivity.
Qed.

(** In a node tree with unique node names and distinct sockets, whose links
    all go between sockets of nodes of the tree, the routine ends with one
    connect-statement for each link, in the order of the links, and the
    [return]. *)
Theorem link_statements_in_order (node_group : NodeTree) (statements lines : list pystr) :
  NoDup (node_name <$> nodes node_group) →
  (∀ node, node ∈ nodes node_group →
           NoDup (socket_ptr <$> inputs node) ∧ NoDup (socket_ptr <$> outputs node)) →
  Forall2 (link_statement_at node_group) (links node_group) statements →
  export_single_node_group_lines export_node_properties node_group = Return lines →
  ∃ before,
    lines = before ++ [py "    # Create links"] ++ statements
            ++ [[]; py "    return node_group"; []].
Proof.
  intros Hnames Hsockets Hlinks Hlines.
  assert (for_lines (single_link_lines (single_node_var_names node_group))
            (links node_group) = Return statements) as Hloop.
  { induction Hlinks as [|link statement ls sts Hlink _ IH]; [done|].
    simpl. rewrite (single_link_lines_at _ _ _ Hnames Hsockets Hlink). simpl.
    by rewrite IH. }
  unfold export_single_node_group_lines in Hlines.
  apply bind_Return_inv in Hlines as (node_lines & _ & Hlines).
  rewrite Hloop in Hlines. apply Return_inj in Hlines. rewrite <- Hlines.
  eexists. rewrite !app_assoc. reflexivity.
Qed.

(** *** The routines of the nested groups *)

Lemma nested_routines_text (nested_groups : list NodeTree) (routines : list pystr) :
  for_lines (λ nested_group,
     text ← export_single_node_group export_node_properties nested_group;
     Return (str_split NEWLINE text ++ [[]])) nested_groups = Return routines →
  ∃ texts,
    Forall2 (λ nested_group text,
       export_single_node_group export_node_properties nested_group = Return text)
      nested_groups texts ∧
    ∀ rest, rest ≠ [] →
      str_join [NEWLINE] (routines ++ rest)
      = concat ((λ text, text ++ [NEWLINE; NEWLINE]) <$> texts) ++ str_join [NEWLINE] rest.
Proof.
  revert routines. induction nested_groups as [|g gs IH]; intros routines Hloop.
  - apply Return_inj in Hloop. subst. exists []. split; [constructor|done].
  - simpl in Hloop. apply bind_Return_inv in Hloop as (ls & Hg & Hloop).
    apply bind_Return_inv in Hg as (text & Htext & Hg). apply Return_inj in Hg. subst ls.
    apply bind_Return_inv in Hloop as (rs & Hrs & Hloop). apply Return_inj in Hloop.
    subst routines. destruct (IH rs Hrs) as (texts & Hall & Hjoin).
    exists (text :: texts). split; [by constructor|].
    intros rest Hrest. rewrite <- !app_assoc.
    rewrite str_join_app; [|apply str_split_nonempty|done].
    rewrite str_join_split.
    change ([[]] ++ rs ++ rest) with ([] :: (rs ++ rest)).
    rewrite str_join_cons_nil by (by destruct rs, rest).
    rewrite (Hjoin rest Hrest). rewrite fmap_cons. simpl.
    by rewrite <- !app_assoc.
Qed.

Lemma main_nested_lines_text (nested_groups : list NodeTree) (lines : list pystr) :
  nested_groups ≠ [] →
  main_nested_lines export_node_properties nested_groups = Return lines →
  ∃ texts,
    Forall2 (λ nested_group text,
       export_single_node_group export_node_properties nested_group = Return text)
      nested_groups texts ∧
    str_join [NEWLINE] lines
    = py "# === Nested Node Groups (Dependencies) ===" ++ [NEWLINE; NEWLINE]
      ++ concat ((λ text, text ++ [NEWLINE; NEWLINE]) <$> texts)
      ++ py "# === Main Node Group ===" ++ [NEWLINE].
Proof.
  intros Hne Hlines. unfold main_nested_lines in Hlines.
  destruct nested_groups as [|g gs]; [done|].
  apply bind_Return_inv in Hlines as (routines & Hloop & Hlines).
  apply Return_inj in Hlines. subst lines.
  destruct (nested_routines_text _ _ Hloop) as (texts & Hall & Hjoin).
  exists texts. split; [done|].
  change ([py "# === Nested Node Groups (Dependencies) ==="; []] ++ routines
          ++ [py "# === Main Node Group ==="; []])
    with ([py "# === Nested Node Groups (Dependencies) ==="]
          ++ ([] :: (routines ++ [py "# === Main Node Group ==="; []]))).
  rewrite str_join_app by done.
  rewrite str_join_cons_nil by (by destruct routines).
  rewrite Hjoin by done.
  change (str_join [NEWLINE] [py "# === Main Node Group ==="; []])
    with (py "# === Main Node Group ===" ++ [NEWLINE] ++ []).
  change (str_join [NEWLINE] [py "# === Nested Node Groups (Dependencies) ==="])
    with (py "# === Nested Node Groups (Dependencies) ===").
  rewrite app_nil_r. rewrite <- ?app_assoc. reflexivity.
Qed.

(** The lines of the nested groups, joined, are the first banner, then the
    text of [export_single_node_group] of each nested group in the order of
    the list, each followed by an empty line, then the second banner:
    splitting a routine into lines and joining the lines gives the routine
    back. *)
Theorem nested_section_text (nested_groups : list NodeTree) (lines : list pystr) :
  nested_groups ≠ [] →
  main_nested_lines export_node_properties nested_groups = Return lines →
  ∃ texts,
    Forall2 (λ nested_group text,
       export_single_node_group export_node_properties nested_group = Return text)
      nested_groups texts ∧
    str_join [NEWLINE] lines
    = py "# === Nested Node Groups (Dependencies) ===" ++ [NEWLINE; NEWLINE]
      ++ concat ((λ text, text ++ [NEWLINE; NEWLINE]) <$> texts)
      ++ py "# === Main Node Group ===" ++ [NEWLINE].
Proof. apply main_nested_lines_text. Qed.

(** *** Export without the nested groups *)

End EmittersMore.

Section EmittersMoreExamples.
#[local] Existing Instance reference_runtime.

Lemma export_single_node_group_returns_witness :
  ∃ text, export_single_node_group no_properties (grid_tree [grid_link; dangling_link])
          = Return text.
Proof.
  apply (export_single_node_group_returns no_properties).
  - intros i node _. by eexists.
  - intros node socket val Hnode Hsocket _ Hval. exfalso.
    apply elem_of_cons in Hnode as [->|Hnode].
    { by apply elem_of_nil in Hsocket. }
    apply list_elem_of_singleton in Hnode as ->.
    apply elem_of_cons in Hsocket as [->|Hsocket]; [discriminate|].
    apply list_elem_of_singleton in Hsocket as ->. discriminate.
  - constructor; [|constructor; [|constructor]].
    + left. repeat split.
      * by left.
      * right. by left.
      * apply (bool_decide_unpack _). vm_compute. reflexivity.
      * apply (bool_decide_unpack _). vm_compute. reflexivity.
    + right. right. apply (bool_decide_unpack _). vm_compute. reflexivity.
Defined.

Lemma export_single_node_group_default_raises_witness :
  ∃ e', export_single_node_group no_properties (single_node_tree broken_node) = Raise e'.
Proof.
  apply (export_single_node_group_default_raises (R := reference_runtime) no_properties
           (single_node_tree broken_node)
           0 2 broken_node (default_socket 14 broken_value) broken_value RuntimeError);
    reflexivity.
Defined.

Lemma default_assignment_position_witness :
  ∃ lines,
    export_single_node_group_lines no_properties (single_node_tree scaled_node) = Return lines ∧
    py "            node_0_scale.inputs[1].default_value = 2.5" ∈ lines.
Proof.
  eexists. split; [vm_compute; reflexivity|].
  apply (default_assignment_position (R := reference_runtime) no_properties
           (single_node_tree scaled_node)
           0 1 scaled_node (default_socket 12 (@PyFloat reference_runtime 25%Z))
           (@PyFloat reference_runtime 25%Z) (py "2.5"));
    [reflexivity|reflexivity|reflexivity|reflexivity|reflexivity|vm_compute; reflexivity].
Defined.

Lemma link_statements_in_order_witness :
  ∃ lines,
    export_single_node_group_lines no_properties (grid_tree [grid_link]) = Return lines ∧
    ∃ before,
      lines = before ++ [py "    # Create links"]
              ++ [py "    node_group.links.new(node_0_grid.outputs[1], node_1_transform.inputs[0])"]
              ++ [[]; py "    return node_group"; []].
Proof.
  eexists. split; [vm_compute; reflexivity|].
  apply (link_statements_in_order no_properties (grid_tree [grid_link]));
    [| | |vm_compute; reflexivity].
  - apply (bool_decide_unpack _). vm_compute. reflexivity.
  - intros node Hnode.
    apply elem_of_cons in Hnode as [->|Hnode];
      [|apply list_elem_of_singleton in Hnode as ->];
      split; apply (bool_decide_unpack _); vm_compute; reflexivity.
  - constructor; [|constructor]. exists 0, 1, 1, 0. repeat split.
Defined.

Lemma nested_section_text_witness :
  ∃ lines,
    main_nested_lines no_properties [grid_tree [grid_link]] = Return lines ∧
    ∃ texts,
      Forall2 (λ nested_group text,
         export_single_node_group no_properties nested_group = Return text)
        [grid_tree [grid_link]] texts ∧
      str_join [NEWLINE] lines
      = py "# === Nested Node Groups (Dependencies) ===" ++ [NEWLINE; NEWLINE]
        ++ concat ((λ text, text ++ [NEWLINE; NEWLINE]) <$> texts)
        ++ py "# === Main Node Group ===" ++ [NEWLINE].
Proof.
  eexists. split; [vm_compute; reflexivity|].
  apply (nested_section_text no_properties [grid_tree [grid_link]]);
    [discriminate|vm_compute; reflexivity].
Defined.

End EmittersMoreExamples.

(** ** The two operators *)

Section OperatorProperties.
Context {R : PythonRuntime}.
Variable export_node_properties : Node → pystr → outcome (list pystr).
Variable host : Host.

(** What the [try] block that saves the file does. *)
Lemma save_file_spec (options : ExportOptions) (node_tree : NodeTree) (python_code : pystr)
    (saving : list host_call) (saved : bool) :
  save_file host options node_tree python_code = (saving, saved) →
  Forall (λ call, is_text_call call = false) saving ∧
  (∀ call text, call ∈ saving → text_of_call call = Some text → text = python_code) ∧
  (∀ text, SetClipboard text ∉ saving) ∧
  (∀ path text, WriteFile path text ∈ saving →
     path = filepath options
     ∨ path = os_path_join host (filepath options)
                (sanitize_name (tree_name node_tree) ++ py ".py")) ∧
  (saved = false → ∃ message, last saving = Some (Report ERROR message)).
Proof.
  unfold save_file. intros Hsave.
  repeat match type of Hsave with
  | context [if ?b then _ else _] => destruct b
  | context [match ?o with Some _ => _ | None => _ end] => destruct o
  end;
  injection Hsave as <- <-;
  (split; [repeat constructor|]);
  (split; [intros call text Hin Htext;
           repeat (apply elem_of_cons in Hin as [->|Hin]; [by (discriminate || injection Htext as <-)|]);
           by apply elem_of_nil in Hin|]);
  (split; [intros text Hin;
           repeat (apply elem_of_cons in Hin as [Hin|Hin]; [discriminate|]);
           by apply elem_of_nil in Hin|]);
  (split; [intros path text Hin;
           repeat (apply elem_of_cons in Hin as [Hin|Hin];
                   [try discriminate; injection Hin as -> ->; auto|]);
           by apply elem_of_nil in Hin|]);
  intros Hsaved; try discriminate; by eexists.
Qed.

Lemma write_text_block_calls (node_tree : NodeTree) (python_code : pystr) :
  TextWrite (tree_name node_tree ++ py "_export.py") python_code
    ∈ write_text_block host node_tree python_code ∧
  (∀ call text, call ∈ write_text_block host node_tree python_code →
                text_of_call call = Some text → text = python_code) ∧
  (∀ text, SetClipboard text ∉ write_text_block host node_tree python_code) ∧
  (∀ path text, WriteFile path text ∉ write_text_block host node_tree python_code).
Proof.
  unfold write_text_block. split; [right; by left|].
  split; [|split].
  - intros call text Hin Htext.
    apply elem_of_cons in Hin as [->|Hin]; [by destruct (text_exists _ _)|].
    apply list_elem_of_singleton in Hin as ->. by injection Htext as <-.
  - intros text Hin.
    apply elem_of_cons in Hin as [Hin|Hin]; [by destruct (text_exists _ _)|].
    by apply list_elem_of_singleton in Hin.
  - intros path text Hin.
    apply elem_of_cons in Hin as [Hin|Hin]; [by destruct (text_exists _ _)|].
    by apply list_elem_of_singleton in Hin.
Qed.

(** The shape of a run of [execute] on an active node tree whose export
    returns. *)
Lemma execute_exported (heap : Heap) (options : ExportOptions) p node_tree python_code :
  heap !! p = Some node_tree →
  export_node_group_to_python export_node_properties heap p
    (auto_assign options) (include_nested options) = Return python_code →
  ∃ warning clipboard saving saved,
    Forall (λ call, is_report call = true) warning ∧
    clipboard = (if copy_to_clipboard options
                 then [SetClipboard python_code;
                       Report INFO (py "Python code copied to clipboard ("
                                    ++ nat_str (length python_code) ++ py " characters)")]
                 else []) ∧
    (if save_to_file options && negb (bool_decide (filepath options = []))
     then save_file host options node_tree python_code else ([], true)) = (saving, saved) ∧
    execute export_node_properties host heap options (Some p)
    = if saved
      then (warning ++ clipboard ++ saving ++ write_text_block host node_tree python_code
            ++ [Report INFO (py "Code also saved to text block: "
                             ++ tree_name node_tree ++ py "_export.py")],
            Return FINISHED)
      else (warning ++ clipboard ++ saving, Return CANCELLED).
Proof.
  intros Hp Hexport. unfold execute, deref. rewrite Hp, Hexport.
  destruct (if save_to_file options && _ then _ else _) as [saving saved] eqn:Hsave.
  exists (if material_level host node_tree
          then [Report WARNING (py "You're exporting a material tree. To export only a node group, Tab into it first!")]
          else []).
  eexists _, saving, saved. split; [|split; [reflexivity|split; [reflexivity|]]].
  - destruct (material_level host node_tree); repeat constructor.
  - by destruct saved.
Qed.

Lemma execute_inv (heap : Heap) (options : ExportOptions) edit_tree calls result :
  execute export_node_properties host heap options edit_tree = (calls, Return result) →
  (edit_tree = None ∧ calls = [Report ERROR (py "No node tree found")] ∧ result = CANCELLED)
  ∨ ∃ p node_tree python_code,
      edit_tree = Some p ∧ heap !! p = Some node_tree ∧
      export_node_group_to_python export_node_properties heap p
        (auto_assign options) (include_nested options) = Return python_code.
Proof.
  unfold execute, deref. destruct edit_tree as [p|]; [|intros [= <- <-]; by left].
  destruct (heap !! p) as [node_tree|] eqn:Hp; [|done].
  destruct (export_node_group_to_python _ _ _ _ _) as [python_code|] eqn:Hexport; [|done].
  intros _. right. by exists p, node_tree, python_code.
Qed.

(** When [execute] returns [CANCELLED], because no node tree is active or
    because saving the file raised, it has made no call on the text blocks,
    and its last call reports an error. *)
Theorem execute_cancelled (heap : Heap) (options : ExportOptions)
    (edit_tree : option positive) (calls : list host_call) :
  execute export_node_properties host heap options edit_tree = (calls, Return CANCELLED) →
  Forall (λ call, is_text_call call = false) calls ∧
  ∃ message, last calls = Some (Report ERROR message).
Proof.
  intros Hrun.
  destruct (execute_inv _ _ _ _ _ Hrun)
    as [(-> & -> & _)|(p & node_tree & python_code & -> & Hp & Hexport)].
  { split; [repeat constructor|by eexists]. }
  destruct (execute_exported heap options p node_tree python_code Hp Hexport)
    as (warning & clipboard & saving & saved & Hwarning & -> & Hsave & Heq).
  rewrite Heq in Hrun. destruct saved; [done|]. injection Hrun as <-.
  assert (save_file host options node_tree python_code = (saving, false)) as Hfile.
  { destruct (save_to_file options && _); [done|discriminate]. }
  destruct (save_file_spec _ _ _ _ _ Hfile) as (Htext & _ & _ & _ & Hlast).
  split.
  - rewrite !Forall_app. split; [|split; [|done]].
    + eapply Forall_impl; [exact Hwarning|]. by intros [].
    + destruct (copy_to_clipboard options); repeat constructor.
  - destruct (Hlast eq_refl) as [message Hmessage]. exists message.
    rewrite !app_assoc. destruct saving as [|c saving] using rev_ind; [done|].
    rewrite last_snoc in Hmessage. by rewrite !app_assoc, last_snoc.
Qed.

(** When [execute] returns [FINISHED], the export of the active node tree
    returned a text; the text block of the name of the tree is written with
    it, the clipboard is set to it exactly when [copy_to_clipboard] is on,
    a file is written only when [save_to_file] is on, at [filepath] or at
    the sanitized name of the tree in [filepath], and no other text is
    handed to the host. *)
Theorem execute_finished (heap : Heap) (options : ExportOptions)
    (edit_tree : option positive) (calls : list host_call) :
  execute export_node_properties host heap options edit_tree = (calls, Return FINISHED) →
  ∃ p node_tree python_code,
    edit_tree = Some p ∧ heap !! p = Some node_tree ∧
    export_node_group_to_python export_node_properties heap p
      (auto_assign options) (include_nested options) = Return python_code ∧
    TextWrite (tree_name node_tree ++ py "_export.py") python_code ∈ calls ∧
    (SetClipboard python_code ∈ calls ↔ copy_to_clipboard options = true) ∧
    (∀ path text, WriteFile path text ∈ calls →
       save_to_file options = true ∧
       (path = filepath options
        ∨ path = os_path_join host (filepath options)
                   (sanitize_name (tree_name node_tree) ++ py ".py"))) ∧
    (∀ call text, call ∈ calls → text_of_call call = Some text → text = python_code).
Proof.
  intros Hrun.
  destruct (execute_inv _ _ _ _ _ Hrun)
    as [(_ & _ & [=])|(p & node_tree & python_code & -> & Hp & Hexport)].
  exists p, node_tree, python_code. do 3 (split; [done|]).
  destruct (execute_exported heap options p node_tree python_code Hp Hexport)
    as (warning & clipboard & saving & saved & Hwarning & -> & Hsave & Heq).
  rewrite Heq in Hrun. destruct saved; [|done]. apply pair_equal_spec in Hrun as [<- _].
  destruct (write_text_block_calls node_tree python_code) as (Hwrite & Hblock & Hnoclip & Hnofile).
  assert (Forall (λ call, is_text_call call = false) saving ∧
          (∀ call text, call ∈ saving → text_of_call call = Some text → text = python_code) ∧
          (∀ text, SetClipboard text ∉ saving) ∧
          (∀ path text, WriteFile path text ∈ saving →
             save_to_file options = true ∧
             (path = filepath options
              ∨ path = os_path_join host (filepath options)
                         (sanitize_name (tree_name node_tree) ++ py ".py"))))
    as (_ & Hsaving & Hsaveclip & Hsavefile).
  { destruct (save_to_file options && negb (bool_decide (filepath options = []))) eqn:Hcond.
    - apply andb_true_iff in Hcond as [Hs _].
      destruct (save_file_spec _ _ _ _ _ Hsave) as (H1 & H2 & H3 & H4 & _).
      split; [exact H1|]. split; [exact H2|]. split; [exact H3|].
      intros path text Hin. split; [exact Hs|]. by apply (H4 path text).
    - injection Hsave as <-. split; [constructor|].
      split; [intros call text Hin; by apply elem_of_nil in Hin|].
      split; [intros text Hin; by apply elem_of_nil in Hin|].
      intros path text Hin. by apply elem_of_nil in Hin. }
  assert (∀ call, call ∈ warning → is_report call = true) as Hw
    by (by apply Forall_forall).
  split; [|split; [|split]].
  - rewrite !elem_of_app. do 3 right. by left.
  - rewrite !elem_of_app. split.
    + intros [Hin|[Hin|[Hin|[Hin|Hin]]]].
      * by apply Hw in Hin.
      * destruct (copy_to_clipboard options); [done|by apply elem_of_nil in Hin].
      * by apply Hsaveclip in Hin.
      * by apply Hnoclip in Hin.
      * by apply list_elem_of_singleton in Hin.
    + intros ->. right. left. by left.
  - intros path text. rewrite !elem_of_app. intros [Hin|[Hin|[Hin|[Hin|Hin]]]].
    + by apply Hw in Hin.
    + destruct (copy_to_clipboard options).
      * apply elem_of_cons in Hin as [Hin|Hin]; [done|].
        by apply list_elem_of_singleton in Hin.
      * by apply elem_of_nil in Hin.
    + by apply Hsavefile in Hin.
    + by apply Hnofile in Hin.
    + by apply list_elem_of_singleton in Hin.
  - intros call text. rewrite !elem_of_app. intros [Hin|[Hin|[Hin|[Hin|Hin]]]] Htext.
    + apply Hw in Hin. by destruct call.
    + destruct (copy_to_clipboard options).
      * apply elem_of_cons in Hin as [->|Hin]; [by injection Htext as <-|].
        by apply list_elem_of_singleton in Hin as ->.
      * by apply elem_of_nil in Hin.
    + by eapply Hsaving.
    + by eapply Hblock.
    + by apply list_elem_of_singleton in Hin as ->.
Qed.

(** When [execute] raises, the exception is the one of the active node
    tree being gone or of its export, and nothing has been handed to the
    host: no clipboard, file or text block call, at most the warning. *)
Theorem execute_raises (heap : Heap) (options : ExportOptions)
    (edit_tree : option positive) (calls : list host_call) (e : exn) :
  execute export_node_properties host heap options edit_tree = (calls, Raise e) →
  sink_calls calls = [] ∧
  ∃ p, edit_tree = Some p ∧
       (deref heap p = Raise e
        ∨ export_node_group_to_python export_node_properties heap p
            (auto_assign options) (include_nested options) = Raise e).
Proof.
  intros Hrun. unfold execute in Hrun.
  destruct edit_tree as [p|]; [|done].
  destruct (deref heap p) as [node_tree|e0] eqn:Hderef.
  2: { apply pair_equal_spec in Hrun as [<- Heq]. injection Heq as <-.
       split; [done|]. exists p. split; [done|]. by left. }
  destruct (export_node_group_to_python _ _ _ _ _) as [python_code|e0] eqn:Hexport.
  - destruct (if save_to_file options && _ then _ else _) as [saving saved].
    by destruct saved.
  - apply pair_equal_spec in Hrun as [<- Heq]. injection Heq as <-. split.
    + unfold sink_calls. by destruct (material_level host node_tree).
    + exists p. split; [done|]. by right.
Qed.

(** The quick operator leaves the host as [execute] does with the clipboard
    on, saving off, helpers and nested groups on: the same calls, reports
    apart, and the same result. *)
Theorem execute_quick_as_execute (heap : Heap) (edit_tree : option positive) (path : pystr) :
  sink_calls (execute_quick export_node_properties host heap edit_tree).1
  = sink_calls (execute export_node_properties host heap (quick_options path) edit_tree).1 ∧
  (execute_quick export_node_properties host heap edit_tree).2
  = (execute export_node_properties host heap (quick_options path) edit_tree).2.
Proof.
  unfold execute_quick, execute, quick_options, deref. simpl.
  destruct edit_tree as [p|]; [|done].
  destruct (heap !! p) as [node_tree|]; [|done].
  destruct (export_node_group_to_python _ _ _ _ _) as [python_code|]; simpl.
  - split; [|done]. unfold sink_calls.
    rewrite !filter_app. f_equal.
    destruct (material_level host node_tree); reflexivity.
  - split; [|done]. unfold sink_calls.
    destruct (material_level host node_tree); reflexivity.
Qed.

End OperatorProperties.

Section OperatorExamples.
#[local] Existing Instance reference_runtime.

Lemma execute_cancelled_witness :
  ∃ calls,
    execute no_properties reference_host shared_heap_and_more
      (saving_options (py "/srv/exports")) (Some 9%positive) = (calls, Return CANCELLED) ∧
    Forall (λ call, is_text_call call = false) calls ∧
    ∃ message, last calls = Some (Report ERROR message).
Proof.
  eexists. split; [vm_compute; reflexivity|].
  apply (execute_cancelled no_properties reference_host shared_heap_and_more
           (saving_options (py "/srv/exports")) (Some 9%positive)).
  vm_compute. reflexivity.
Defined.

Lemma execute_finished_witness :
  ∃ calls,
    execute no_properties reference_host shared_heap_and_more
      (saving_options (py "/tmp")) (Some 9%positive) = (calls, Return FINISHED) ∧
    ∃ p node_tree python_code,
      Some 9%positive = Some p ∧ shared_heap_and_more !! p = Some node_tree ∧
      export_node_group_to_python no_properties shared_heap_and_more p true true
      = Return python_code ∧
      TextWrite (tree_name node_tree ++ py "_export.py") python_code ∈ calls ∧
      (SetClipboard python_code ∈ calls ↔ true = true) ∧
      (∀ path text, WriteFile path text ∈ calls →
         true = true ∧
         (path = py "/tmp"
          ∨ path = os_path_join reference_host (py "/tmp")
                     (sanitize_name (tree_name node_tree) ++ py ".py"))) ∧
      (∀ call text, call ∈ calls → text_of_call call = Some text → text = python_code).
Proof.
  eexists. split; [vm_compute; reflexivity|].
  apply (execute_finished no_properties reference_host shared_heap_and_more
           (saving_options (py "/tmp")) (Some 9%positive)).
  vm_compute. reflexivity.
Defined.

Lemma execute_raises_witness :
  ∃ calls,
    execute no_properties reference_host dangling_heap (quick_options []) (Some 1%positive)
    = (calls, Raise ReferenceError) ∧
    sink_calls calls = [] ∧
    ∃ p, Some 1%positive = Some p ∧
         (deref dangling_heap p = Raise ReferenceError
          ∨ export_node_group_to_python no_properties dangling_heap p true true
            = Raise ReferenceError).
Proof.
  eexists. split; [vm_compute; reflexivity|].
  apply (execute_raises no_properties reference_host dangling_heap (quick_options [])
           (Some 1%positive)).
  vm_compute. reflexivity.
Defined.

End OperatorExamples.
(** ** The property exporter *)

Lemma block_returns (stmts : list (outcome (list pystr))) (lines : list pystr) :
  block stmts = Return lines →
  ∀ line, line ∈ lines → ∃ stmt ls, stmt ∈ stmts ∧ stmt = Return ls ∧ line ∈ ls.
Proof.
  unfold block. revert lines. induction stmts as [|stmt stmts IH]; intros lines Hrun line Hin.
  - apply Return_inj in Hrun as <-. by apply elem_of_nil in Hin.
  - change (for_lines id (stmt :: stmts))
      with (ls ← stmt; rest ← for_lines id stmts; Return (ls ++ rest)) in Hrun.
    apply bind_Return_inv in Hrun as (ls & Hstmt & Hrun).
    apply bind_Return_inv in Hrun as (rest & Hrest & Hrun).
    apply Return_inj in Hrun as <-. apply elem_of_app in Hin as [Hin|Hin].
    + exists stmt, ls. split; [by left|done].
    + destruct (IH rest Hrest line Hin) as (stmt' & ls' & ? & ? & ?).
      exists stmt', ls'. split; [by right|done].
Qed.

Lemma try_for_lines_elem {A} (f : A → outcome (list pystr)) (l : list A) :
  (∀ x, x ∈ l → ∃ ls, f x = Return ls) →
  ∀ line, line ∈ try_for_lines f l ↔ ∃ x ls, x ∈ l ∧ f x = Return ls ∧ line ∈ ls.
Proof.
  induction l as [|x l IH]; intros Hf line; simpl.
  - split; [by intros ?%elem_of_nil|]. by intros (? & ? & ?%elem_of_nil & _).
  - destruct (Hf x) as [ls Hx]; [by left|]. rewrite Hx, elem_of_app, IH.
    + split.
      * intros [Hin|(y & ls' & Hy & Hfy & Hin)].
        -- exists x, ls. split; [by left|done].
        -- exists y, ls'. split; [by right|done].
      * intros (y & ls' & Hy & Hfy & Hin). apply elem_of_cons in Hy as [->|Hy].
        -- left. rewrite Hx in Hfy. by apply Return_inj in Hfy as ->.
        -- right. by exists y, ls'.
    + intros y Hy. apply Hf. by right.
Qed.

Section PropertyExporter.
Context {R : PythonRuntime}.
Variable host : NodeHost.
Variable heap : Heap.

(** The body of the loop of the fallback returns, with one statement or
    none. *)
Lemma generic_property_lines_spec (node : Node) (var_name : pystr) (prop : RnaProperty) :
  ∃ ls, generic_property_lines host node var_name prop = Return ls ∧
        ∀ line, line ∈ ls ↔
          ∃ value, (identifier prop ∉ SKIP_PROPS) ∧ is_readonly prop = false ∧
                   (prop_type prop = py "ENUM" ∨ prop_type prop = py "BOOLEAN") ∧
                   node_getattr host node (identifier prop) = Return (Some value) ∧
                   line = replay_statement var_name prop value.
Proof.
  unfold generic_property_lines, replay_statement.
  destruct (decide (identifier prop ∈ SKIP_PROPS)) as [Hskip|Hskip].
  { exists []. split; [done|]. intros line. split; [by intros ?%elem_of_nil|].
    by intros (? & ? & _). }
  destruct (is_readonly prop).
  { exists []. split; [done|]. intros line. split; [by intros ?%elem_of_nil|].
    by intros (? & _ & ? & _). }
  destruct (decide (prop_type prop = py "ENUM")) as [Henum|Henum].
  { destruct (node_getattr host node (identifier prop)) as [[value|]|e]; simpl.
    - eexists. split; [done|]. intros line. rewrite list_elem_of_singleton. split.
      + intros ->. exists value. by repeat split; auto.
      + by intros (? & _ & _ & _ & [= <-] & ->).
    - exists []. split; [done|]. intros line. split; [by intros ?%elem_of_nil|].
      by intros (? & _ & _ & _ & ? & _).
    - exists []. split; [done|]. intros line. split; [by intros ?%elem_of_nil|].
      by intros (? & _ & _ & _ & ? & _). }
  destruct (decide (prop_type prop = py "BOOLEAN")) as [Hbool|Hbool].
  { destruct (node_getattr host node (identifier prop)) as [[value|]|e]; simpl.
    - eexists. split; [done|]. intros line. rewrite list_elem_of_singleton. split.
      + intros ->. exists value. by repeat split; auto.
      + by intros (? & _ & _ & _ & [= <-] & ->).
    - exists []. split; [done|]. intros line. split; [by intros ?%elem_of_nil|].
      by intros (? & _ & _ & _ & ? & _).
    - exists []. split; [done|]. intros line. split; [by intros ?%elem_of_nil|].
      by intros (? & _ & _ & _ & ? & _). }
  exists []. split; [done|]. intros line. split; [by intros ?%elem_of_nil|].
  by intros (? & _ & _ & [?|?] & _).
Qed.

(** The fallback returns, and its lines are the statements that replay the
    properties the class declares which are writable, enumerations or
    booleans, not among [SKIP_PROPS], and whose value is read and is not
    [None]. *)
Lemma generic_lines_spec (node : Node) (var_name : pystr) :
  ∃ lines, generic_lines host node var_name = Return lines ∧
    ∀ line, line ∈ lines ↔
      ∃ properties prop value,
        bl_rna_properties host node = Return properties ∧ prop ∈ properties ∧
        (identifier prop ∉ SKIP_PROPS) ∧ is_readonly prop = false ∧
        (prop_type prop = py "ENUM" ∨ prop_type prop = py "BOOLEAN") ∧
        node_getattr host node (identifier prop) = Return (Some value) ∧
        line = replay_statement var_name prop value.
Proof.
  unfold generic_lines. destruct (bl_rna_properties host node) as [properties|e].
  - eexists. split; [done|]. intros line. rewrite try_for_lines_elem.
    + split.
      * intros (prop & ls & Hprop & Hls & Hin).
        destruct (generic_property_lines_spec node var_name prop) as (ls' & Hls' & Hspec).
        rewrite Hls in Hls'. apply Return_inj in Hls' as <-.
        apply Hspec in Hin as (value & ?). by exists properties, prop, value.
      * intros (properties' & prop & value & [= <-] & Hprop & Hrest).
        destruct (generic_property_lines_spec node var_name prop) as (ls & Hls & Hspec).
        exists prop, ls. split; [done|]. split; [done|]. apply Hspec. by exists value.
    + intros prop _.
      destruct (generic_property_lines_spec node var_name prop) as (ls & Hls & _).
      by exists ls.
  - exists []. split; [done|]. intros line. split; [by intros ?%elem_of_nil|].
    by intros (? & ? & ? & ? & _).
Qed.

Ltac absurd_idname H := exfalso; vm_compute in H; discriminate H.

Lemma skip_branch {A} (P : Prop) `{!Decision P} (branch rest result : A) :
  ¬ P → rest = result → (if decide P then branch else rest) = result.
Proof. intros HP <-. by apply decide_False. Qed.

(** A node of a kind that has no branch goes to the fallback. *)
Lemma export_node_properties_generic (node : Node) (var_name : pystr) :
  node_bl_idname node ∉ DISPATCHED_IDNAMES →
  export_node_properties host heap node var_name = generic_lines host node var_name.
Proof.
  intros Hnot.
  assert (Forall (λ idname, node_bl_idname node ≠ idname) DISPATCHED_IDNAMES) as Hall.
  { apply Forall_forall. by intros idname Hin <-. }
  unfold export_node_properties, DISPATCHED_IDNAMES in *.
  repeat (apply Forall_cons in Hall as [Hne Hall];
          apply skip_branch; [exact Hne|]; clear Hne).
  reflexivity.
Qed.

Lemma export_node_properties_group (node : Node) (var_name : pystr) :
  node_bl_idname node = py "GeometryNodeGroup" ∨ node_bl_idname node = py "ShaderNodeGroup" →
  export_node_properties host heap node var_name = nested_group_lines heap node var_name.
Proof.
  intros [Hid|Hid]; unfold export_node_properties; rewrite Hid;
    repeat (apply skip_branch; [let H := fresh in intros H; vm_compute in H; discriminate H|]);
    by apply decide_True.
Qed.

(** A node of a kind that [export_node_properties] has no branch for never
    makes it raise, whatever the host raises on its attributes; the lines
    it appends are the statements that replay the properties its class
    declares which are writable, enumerations or booleans, not among
    [SKIP_PROPS], and whose value is read and is not [None]. *)
Theorem export_node_properties_unknown_kind (node : Node) (var_name : pystr) :
  node_bl_idname node ∉ DISPATCHED_IDNAMES →
  ∃ lines, export_node_properties host heap node var_name = Return lines ∧
    ∀ line, line ∈ lines ↔
      ∃ properties prop value,
        bl_rna_properties host node = Return properties ∧ prop ∈ properties ∧
        (identifier prop ∉ SKIP_PROPS) ∧ is_readonly prop = false ∧
        (prop_type prop = py "ENUM" ∨ prop_type prop = py "BOOLEAN") ∧
        node_getattr host node (identifier prop) = Return (Some value) ∧
        line = replay_statement var_name prop value.
Proof.
  intros Hnot. rewrite (export_node_properties_generic node var_name Hnot).
  apply generic_lines_spec.
Qed.

(** *** Indentation *)

Lemma indented_app (x : pystr) : indented (py "    " ++ x).
Proof. reflexivity. Qed.

Lemma indented_app_8 (x : pystr) : indented (py "        " ++ x).
Proof. reflexivity. Qed.

Lemma block_indented (stmts : list (outcome (list pystr))) (lines : list pystr) :
  block stmts = Return lines →
  Forall (λ stmt, ∀ ls, stmt = Return ls → Forall indented ls) stmts →
  Forall indented lines.
Proof.
  intros Hrun Hstmts. apply Forall_forall. intros line Hin.
  destruct (block_returns stmts lines Hrun line Hin) as (stmt & ls & Hstmt & Hls & Hline).
  rewrite Forall_forall in Hstmts. specialize (Hstmts stmt Hstmt ls Hls).
  rewrite Forall_forall in Hstmts. by apply Hstmts.
Qed.

Lemma assign_quoted_indented (node : Node) (var_name name : pystr) ls :
  assign_quoted host node var_name name = Return ls → Forall indented ls.
Proof.
  unfold assign_quoted. intros (value & _ & Hls)%bind_Return_inv.
  apply Return_inj in Hls as <-. repeat constructor.
Qed.

Lemma assign_plain_indented (node : Node) (var_name name : pystr) ls :
  assign_plain host node var_name name = Return ls → Forall indented ls.
Proof.
  unfold assign_plain. intros (value & _ & Hls)%bind_Return_inv.
  apply Return_inj in Hls as <-. repeat constructor.
Qed.

Lemma if_hasattr_indented (node : Node) (name : pystr) (body : outcome (list pystr)) ls :
  if_hasattr host node name body = Return ls →
  (∀ ls', body = Return ls' → Forall indented ls') →
  Forall indented ls.
Proof.
  unfold if_hasattr. destruct (node_hasattr host node name); [by auto|].
  intros Hls%Return_inj. subst ls. constructor.
Qed.

Lemma color_ramp_lines_indented (node : Node) (var_name : pystr) ls :
  color_ramp_lines host node var_name = Return ls → Forall indented ls.
Proof.
  unfold color_ramp_lines.
  intros (color_mode & _ & Hrun)%bind_Return_inv.
  apply bind_Return_inv in Hrun as (interpolation & _ & Hrun).
  apply bind_Return_inv in Hrun as (elements & _ & Hrun).
  apply Return_inj in Hrun as <-. apply Forall_app. split; [repeat constructor|].
  apply Forall_forall. intros line Hin.
  apply list_elem_of_In, in_flat_map in Hin as ([k elem] & _ & Hin).
  apply list_elem_of_In in Hin.
  destruct (decide (k = 0));
    repeat (apply elem_of_cons in Hin as [->|Hin]; [reflexivity|]);
    by apply elem_of_nil in Hin.
Qed.

Lemma image_note_lines_indented (node : Node) (var_name : pystr) ls :
  image_note_lines host node var_name = Return ls → Forall indented ls.
Proof.
  unfold image_note_lines. intros (image & _ & Hrun)%bind_Return_inv.
  destruct image; apply Return_inj in Hrun as <-; repeat constructor.
Qed.

Lemma nested_group_lines_indented (node : Node) (var_name : pystr) ls :
  nested_group_lines heap node var_name = Return ls → Forall indented ls.
Proof.
  unfold nested_group_lines. destruct (node_tree node).
  - intros (nested_tree & _ & Hrun)%bind_Return_inv.
    apply Return_inj in Hrun as <-. repeat constructor.
  - intros Hrun%Return_inj. subst ls. constructor.
Qed.

Lemma replay_statement_indented (var_name : pystr) (prop : RnaProperty) (value : pystr) :
  indented (replay_statement var_name prop value).
Proof. unfold replay_statement. by destruct (decide _). Qed.

Lemma generic_lines_indented (node : Node) (var_name : pystr) ls :
  generic_lines host node var_name = Return ls → Forall indented ls.
Proof.
  intros Hrun. destruct (generic_lines_spec node var_name) as (lines & Hlines & Hspec).
  rewrite Hrun in Hlines. apply Return_inj in Hlines as <-.
  apply Forall_forall. intros line (_ & prop & value & _ & _ & _ & _ & _ & _ & ->)%Hspec.
  apply replay_statement_indented.
Qed.

Ltac indented_stmt :=
  first
    [ eapply assign_quoted_indented; eassumption
    | eapply assign_plain_indented; eassumption
    | eapply image_note_lines_indented; eassumption
    | eapply if_hasattr_indented;
      [eassumption|let ls := fresh "ls" in let H := fresh "Hbody" in
                   intros ls H; indented_stmt] ].

Ltac indented_block H :=
  apply (block_indented _ _ H);
  repeat (apply Forall_cons; split;
          [let ls := fresh "ls" in let Hs := fresh "Hstmt" in
           intros ls Hs; indented_stmt|]);
  apply Forall_nil_2.

Lemma indented_branch (P : Prop) `{!Decision P} (branch rest : outcome (list pystr)) :
  (∀ lines, branch = Return lines → Forall indented lines) →
  (∀ lines, rest = Return lines → Forall indented lines) →
  ∀ lines, (if decide P then branch else rest) = Return lines → Forall indented lines.
Proof. intros Hbranch Hrest lines. destruct (decide P); auto. Qed.

(** Every line that [export_node_properties] appends starts with four
    spaces: the statements that replay the settings of a node stay in the
    body of the routine that creates the node. *)
Theorem export_node_properties_indented (node : Node) (var_name : pystr)
    (lines : list pystr) :
  export_node_properties host heap node var_name = Return lines →
  Forall indented lines.
Proof.
  revert lines. unfold export_node_properties.
  repeat (apply indented_branch;
          [let lines := fresh "lines" in let H := fresh "Hrun" in
           intros lines H;
           first [ indented_block H
                 | by eapply color_ramp_lines_indented
                 | by eapply nested_group_lines_indented
                 | apply Return_inj in H as <-; by constructor ]
          |]).
  apply generic_lines_indented.
Qed.

(** *** The binding of a group node *)

Lemma replay_not_binding (var_name : pystr) (prop : RnaProperty) (value tree : pystr) :
  head var_name ≠ Some 32%N →
  replay_statement var_name prop value ≠ binding_statement var_name tree.
Proof.
  intros Hhead Heq. unfold replay_statement, binding_statement in Heq.
  apply (f_equal (λ l, l !! 4)) in Heq.
  destruct var_name as [|c var_name]; destruct (decide _);
    vm_compute in Heq; try discriminate Heq;
    injection Heq as ->; by apply Hhead.
Qed.

(** A group node that holds a node tree is bound to it, by the statement
    [VAR.node_tree = bpy.data.node_groups["NAME"]], exactly when it is a
    [GeometryNodeGroup] or a [ShaderNodeGroup]: the group nodes of the two
    other kinds that [find_nested_node_groups] follows are left without
    their node tree. *)
Theorem group_node_binding (node : Node) (var_name : pystr) (p : positive)
    (nested_tree : NodeTree) (lines : list pystr) :
  is_group_node node = true →
  node_tree node = Some p → heap !! p = Some nested_tree →
  head var_name ≠ Some 32%N →
  export_node_properties host heap node var_name = Return lines →
  binding_statement var_name (tree_name nested_tree) ∈ lines
  ↔ node_bl_idname node = py "GeometryNodeGroup" ∨ node_bl_idname node = py "ShaderNodeGroup".
Proof.
  intros Hgroup Htree Hp Hhead Hrun.
  assert (∀ idname, node_bl_idname node = idname →
            idname = py "GeometryNodeGroup" ∨ idname = py "ShaderNodeGroup" →
            binding_statement var_name (tree_name nested_tree) ∈ lines) as Hbound.
  { intros idname Hid Hkind. rewrite <- Hid in Hkind.
    rewrite (export_node_properties_group node var_name Hkind) in Hrun.
    unfold nested_group_lines, deref in Hrun. rewrite Htree, Hp in Hrun.
    apply Return_inj in Hrun as <-. do 2 right. by left. }
  assert (∀ idname, node_bl_idname node = idname → idname ∉ DISPATCHED_IDNAMES →
            binding_statement var_name (tree_name nested_tree) ∉ lines) as Hunbound.
  { intros idname Hid Hnot Hin. rewrite <- Hid in Hnot.
    rewrite (export_node_properties_generic node var_name Hnot) in Hrun.
    destruct (generic_lines_spec node var_name) as (lines' & Hlines & Hspec).
    rewrite Hrun in Hlines. apply Return_inj in Hlines as <-.
    apply Hspec in Hin as (_ & prop & value & _ & _ & _ & _ & _ & _ & Heq).
    symmetry in Heq. by apply replay_not_binding in Heq. }
  apply bool_decide_eq_true in Hgroup. unfold GROUP_NODE_IDNAMES in Hgroup.
  repeat (apply elem_of_cons in Hgroup as [Hid|Hgroup]);
    [| | | |by apply elem_of_nil in Hgroup].
  - split; [by auto|]. intros _. apply (Hbound _ Hid). by left.
  - split; [by auto|]. intros _. apply (Hbound _ Hid). by right.
  - split.
    + intros Hin. exfalso. revert Hin. apply (Hunbound _ Hid).
      apply (bool_decide_unpack _). vm_compute. exact I.
    + rewrite Hid. intros [H|H]; absurd_idname H.
  - split.
    + intros Hin. exfalso. revert Hin. apply (Hunbound _ Hid).
      apply (bool_decide_unpack _). vm_compute. exact I.
    + rewrite Hid. intros [H|H]; absurd_idname H.
Qed.

(** *** Node trees of nodes of no known kind *)

(** A node tree whose nodes are all of kinds that [export_node_properties]
    has no branch for is emitted without an exception, whatever the host
    raises on the attributes of its nodes, when the default value of every
    input that is not linked formats and every link is well formed or
    dangling. *)
Theorem export_single_node_group_unknown_kinds (node_group : NodeTree) :
  Forall (λ node, node_bl_idname node ∉ DISPATCHED_IDNAMES) (nodes node_group) →
  (∀ node socket val, node ∈ nodes node_group → socket ∈ inputs node →
                      is_linked socket = false → default_value socket = Some val →
                      ∃ r, format_value val = Return r) →
  Forall (λ link, link_well_formed node_group link ∨ link_dangling node_group link)
         (links node_group) →
  ∃ text, export_single_node_group (export_node_properties host heap) node_group = Return text.
Proof.
  intros Hkinds. apply single_routine_returns. intros i node Hi.
  rewrite Forall_forall in Hkinds.
  rewrite (export_node_properties_generic node _ (Hkinds node (list_elem_of_lookup_2 _ _ _ Hi))).
  destruct (generic_lines_spec node (single_var_name i node)) as (ls & Hls & _).
  by exists ls.
Qed.

End PropertyExporter.

Section PropertyExporterExamples.
#[local] Existing Instance reference_runtime.

Lemma export_node_properties_unknown_kind_witness :
  ∃ lines,
    export_node_properties reference_node_host wrapping_heap (compositor_group_node 2)
      (py "node_0_group") = Return lines ∧
    ∀ line, line ∈ lines ↔
      ∃ properties prop value,
        bl_rna_properties reference_node_host (compositor_group_node 2) = Return properties ∧
        prop ∈ properties ∧
        (identifier prop ∉ SKIP_PROPS) ∧ is_readonly prop = false ∧
        (prop_type prop = py "ENUM" ∨ prop_type prop = py "BOOLEAN") ∧
        node_getattr reference_node_host (compositor_group_node 2) (identifier prop)
        = Return (Some value) ∧
        line = replay_statement (py "node_0_group") prop value.
Proof.
  apply (export_node_properties_unknown_kind reference_node_host wrapping_heap
           (compositor_group_node 2) (py "node_0_group")).
  apply (bool_decide_unpack _). vm_compute. exact I.
Defined.

Lemma export_node_properties_indented_witness :
  ∃ lines,
    export_node_properties reference_node_host wrapping_heap ramp_node (py "node_0_ramp")
    = Return lines ∧
    length lines = 10 ∧ Forall indented lines.
Proof.
  eexists. split; [vm_compute; reflexivity|]. split; [reflexivity|].
  apply (export_node_properties_indented reference_node_host wrapping_heap ramp_node
           (py "node_0_ramp")).
  vm_compute. reflexivity.
Defined.

Lemma group_node_binding_witness :
  ∃ lines,
    export_node_properties reference_node_host wrapping_heap (compositor_group_node 2)
      (py "node_0_group") = Return lines ∧
    (binding_statement (py "node_0_group") (py "Scatter") ∈ lines
     ↔ node_bl_idname (compositor_group_node 2) = py "GeometryNodeGroup"
       ∨ node_bl_idname (compositor_group_node 2) = py "ShaderNodeGroup").
Proof.
  eexists. split; [vm_compute; reflexivity|].
  apply (group_node_binding reference_node_host wrapping_heap (compositor_group_node 2)
           (py "node_0_group") 2 wrapped_geometry_tree).
  - vm_compute. reflexivity.
  - reflexivity.
  - unfold wrapping_heap. rewrite lookup_insert_ne by done. apply lookup_insert_eq.
  - intros H. vm_compute in H. discriminate H.
  - vm_compute. reflexivity.
Defined.

Lemma export_single_node_group_unknown_kinds_witness :
  ∃ text, export_single_node_group (export_node_properties reference_node_host wrapping_heap)
            compositor_tree = Return text.
Proof.
  apply (export_single_node_group_unknown_kinds reference_node_host wrapping_heap
           compositor_tree).
  - constructor; [|constructor]. apply (bool_decide_unpack _). vm_compute. exact I.
  - intros node socket val Hnode Hsocket. exfalso.
    apply list_elem_of_singleton in Hnode as ->. by apply elem_of_nil in Hsocket.
  - constructor.
Defined.

End PropertyExporterExamples.
(** ** The whole export *)

Lemma bind_returns {A B} (m : outcome A) (f : A → outcome B) (a : A) :
  m = Return a → (∃ b, f a = Return b) → ∃ b, m ≫= f = Return b.
Proof. by intros ->. Qed.

Section WholeExport.
Context {R : PythonRuntime}.
Variable export_node_properties : Node → pystr → outcome (list pystr).
Variable heap : Heap.

Lemma deref_all_returns (ps : list positive) :
  (∀ x, x ∈ ps → is_Some (heap !! x)) →
  ∃ gs, deref_all heap ps = Return gs ∧ Forall2 (λ x g, heap !! x = Some g) ps gs.
Proof.
  induction ps as [|x ps IH]; intros Hlive.
  - exists []. by split; [|constructor].
  - destruct (Hlive x) as [g Hg]; [by left|].
    destruct IH as (gs & Hgs & Hall); [intros y Hy; apply Hlive; by right|].
    exists (g :: gs). split; [|by constructor].
    simpl. unfold deref at 1. rewrite Hg. simpl. by rewrite Hgs.
Qed.

Lemma exportable_lines (node_group : NodeTree) :
  exportable export_node_properties node_group →
  ∃ lines, export_single_node_group_lines export_node_properties node_group = Return lines.
Proof.
  intros (Hprops & Hdefaults & Hlinks).
  destruct (single_routine_returns export_node_properties node_group Hprops Hdefaults Hlinks)
    as [text Htext].
  unfold export_single_node_group in Htext.
  destruct (export_single_node_group_lines _ _) as [lines|]; [by exists lines|done].
Qed.

(** [export_node_group_to_python] returns a text, with or without the
    nested groups and the helpers, when no group node holds a node tree
    that is gone and the emitters take the root and every node tree it
    reaches. *)
Theorem export_node_group_to_python_returns (p : positive) (node_group : NodeTree)
    (auto_assign include_nested : bool) :
  closed heap → heap !! p = Some node_group →
  (∀ q g, rtc (references heap) p q → heap !! q = Some g →
          exportable export_node_properties g) →
  ∃ text, export_node_group_to_python export_node_properties heap p
            auto_assign include_nested = Return text.
Proof.
  intros Hclosed Hp Hexportable.
  assert (∃ nested_ptrs,
            (if include_nested then find_nested_node_groups heap p else Return [])
            = Return nested_ptrs ∧
            ∀ x, x ∈ nested_ptrs →
                 tc (references heap) p x ∧ is_Some (heap !! x))
    as (nested_ptrs & Hfind & Hnested).
  { destruct include_nested.
    - destruct (find_fuel_total heap Hclosed (S (size heap)) p ∅)
        as (l & visited' & Hcall & _); [by eexists| |].
      { pose proof (unvisited_size heap ∅). lia. }
      exists l. split; [unfold find_nested_node_groups; by rewrite Hcall|].
      pose proof (find_fuel_post heap _ _ _ _ _ Hcall) as Hpost.
      intros x Hx. split; [by apply (fp_reach _ _ _ _ _ Hpost)|].
      destruct (fp_live _ _ _ _ _ Hpost x Hx) as (gx & Hgx & _). by exists gx.
    - exists []. split; [done|]. by intros x ?%elem_of_nil. }
  destruct (deref_all_returns nested_ptrs) as (nested_groups & Hderef & Hall).
  { intros x Hx. by apply Hnested. }
  assert (∀ g, g ∈ nested_groups → exportable export_node_properties g) as Hgroups.
  { intros g Hg. apply list_elem_of_lookup in Hg as [i Hi].
    destruct (Forall2_lookup_r _ _ _ _ _ Hall Hi) as (x & Hx & Hxg).
    apply (Hexportable x g); [|done].
    apply tc_rtc, Hnested. by eapply list_elem_of_lookup_2. }
  assert (∃ nested_lines,
            main_nested_lines export_node_properties nested_groups = Return nested_lines)
    as [nested_lines Hlines].
  { unfold main_nested_lines. destruct nested_groups as [|g gs] eqn:Heq; [by eexists|].
    rewrite <- Heq in *.
    destruct (for_lines_returns (λ nested_group,
                text ← export_single_node_group export_node_properties nested_group;
                Return (str_split NEWLINE text ++ [[]])) nested_groups) as [routines ->].
    - intros g' Hg'. destruct (Hgroups g' Hg') as (Hprops & Hdefaults & Hlinks).
      destruct (single_routine_returns export_node_properties g' Hprops Hdefaults Hlinks)
        as [text ->].
      by eexists.
    - by eexists. }
  destruct (exportable_lines node_group) as [routine Hroutine].
  { by apply (Hexportable p node_group). }
  unfold export_node_group_to_python, export_node_group_to_python_lines, deref.
  rewrite Hp. simpl. rewrite Hfind. simpl. rewrite Hderef. simpl. rewrite Hlines. simpl.
  rewrite main_routine_lines_single, Hroutine. by eexists.
Qed.

End WholeExport.

Section WholeExportExamples.
#[local] Existing Instance reference_runtime.

Lemma export_node_group_to_python_returns_witness :
  ∃ text, export_node_group_to_python no_properties cycle_heap 1 true true = Return text.
Proof.
  apply (export_node_group_to_python_returns no_properties cycle_heap 1
           (grouping_tree "A" [2%positive])).
  - apply closedb_closed. vm_compute. reflexivity.
  - reflexivity.
  - intros q g _ Hq.
    assert (g = grouping_tree "A" [2%positive] ∨ g = grouping_tree "B" [1%positive]) as Hg.
    { unfold cycle_heap in Hq. apply lookup_insert_Some in Hq as [[_ <-]|[_ Hq]]; [by left|].
      apply lookup_insert_Some in Hq as [[_ <-]|[_ Hq]]; [by right|].
      by rewrite lookup_empty in Hq. }
    split; [|split].
    + intros i node _. by eexists.
    + intros node socket val Hnode Hsocket. exfalso.
      destruct Hg as [-> | ->]; apply list_elem_of_singleton in Hnode as ->;
        by apply elem_of_nil in Hsocket.
    + destruct Hg as [-> | ->]; constructor.
Defined.

End WholeExportExamples.
(** ** The order of the routines *)

Section RoutineOrder.
Context {R : PythonRuntime}.
Variable export_node_properties : Node → pystr → outcome (list pystr).
Variable heap : Heap.

Lemma deref_all_inv (ps : list positive) (gs : list NodeTree) :
  deref_all heap ps = Return gs → Forall2 (λ x g, heap !! x = Some g) ps gs.
Proof.
  revert gs. induction ps as [|x ps IH]; intros gs Hderef.
  - apply Return_inj in Hderef as <-. constructor.
  - simpl in Hderef. apply bind_Return_inv in Hderef as (g & Hg%deref_Return & Hderef).
    apply bind_Return_inv in Hderef as (gs' & Hgs & Hderef).
    apply Return_inj in Hderef as <-. constructor; [done|by apply IH].
Qed.

(** The exported text, section by section: the import, the routines of
    the nested groups in the order of the list of
    [find_nested_node_groups], the routine of the main group, and the
    helpers and the driver. *)
Lemma export_text_sections (p : positive) (auto_assign include_nested : bool) (text : pystr) :
  export_node_group_to_python export_node_properties heap p auto_assign include_nested
    = Return text →
  ∃ node_group nested_ptrs nested_groups routines main_routine,
    heap !! p = Some node_group ∧
    (if include_nested then find_nested_node_groups heap p else Return [])
      = Return nested_ptrs ∧
    Forall2 (λ x nested_group, heap !! x = Some nested_group) nested_ptrs nested_groups ∧
    Forall2 (λ nested_group routine,
       export_single_node_group export_node_properties nested_group = Return routine)
      nested_groups routines ∧
    export_single_node_group export_node_properties node_group = Return main_routine ∧
    text = py "import bpy" ++ [NEWLINE; NEWLINE; NEWLINE]
           ++ nested_section routines
           ++ main_routine ++ [NEWLINE]
           ++ str_join [NEWLINE]
                ([[]]
                 ++ (if emits_assign_to_object node_group nested_groups auto_assign
                     then ASSIGN_TO_OBJECT_HELPER else [])
                 ++ (if emits_assign_to_material node_group auto_assign
                     then ASSIGN_TO_MATERIAL_HELPER else [])
                 ++ main_driver_lines node_group nested_groups auto_assign).
Proof.
  intros H. unfold export_node_group_to_python in H.
  destruct (export_node_group_to_python_lines _ _ _ _ _) as [lines|] eqn:Hl; [|done].
  apply Return_inj in H. unfold export_node_group_to_python_lines in Hl.
  apply bind_Return_inv in Hl as (node_group & Hp%deref_Return & Hl).
  apply bind_Return_inv in Hl as (nested_ptrs & Hfind & Hl).
  apply bind_Return_inv in Hl as (nested_groups & Hderef%deref_all_inv & Hl).
  apply bind_Return_inv in Hl as (nested_lines & Hnested & Hl).
  apply bind_Return_inv in Hl as (routine & Hroutine & Hl).
  apply Return_inj in Hl.
  pose proof (main_routine_lines_nonempty _ _ _ Hroutine) as Hne.
  assert (export_single_node_group export_node_properties node_group
          = Return (str_join [NEWLINE] routine)) as Hmain.
  { unfold export_single_node_group. rewrite <- main_routine_lines_single.
    by rewrite Hroutine. }
  set (rest := [[]]
                 ++ (if emits_assign_to_object node_group nested_groups auto_assign
                     then ASSIGN_TO_OBJECT_HELPER else [])
                 ++ (if emits_assign_to_material node_group auto_assign
                     then ASSIGN_TO_MATERIAL_HELPER else [])
                 ++ main_driver_lines node_group nested_groups auto_assign) in *.
  assert (lines = [py "import bpy"; []; []] ++ nested_lines ++ routine ++ rest) as Hlines.
  { rewrite <- Hl. reflexivity. }
  clear Hl. subst text lines.
  assert (str_join [NEWLINE] (routine ++ rest)
          = str_join [NEWLINE] routine ++ [NEWLINE] ++ str_join [NEWLINE] rest) as Htail.
  { by apply str_join_app. }
  destruct (decide (nested_groups = [])) as [->|Hnonempty].
  - exists node_group, nested_ptrs, [], [], (str_join [NEWLINE] routine).
    do 3 (split; [done|]). split; [constructor|]. split; [done|].
    apply Return_inj in Hnested as <-.
    change ([] ++ routine ++ rest) with (routine ++ rest).
    rewrite (str_join_app _ [py "import bpy"; []; []]); [|done|by destruct routine].
    rewrite Htail.
    change (str_join [NEWLINE] [py "import bpy"; []; []])
      with (py "import bpy" ++ [NEWLINE] ++ [] ++ [NEWLINE] ++ []).
    rewrite <- ?app_assoc. reflexivity.
  - destruct (main_nested_lines_text export_node_properties nested_groups nested_lines
                Hnonempty Hnested) as (routines & Hroutines & Hjoin).
    exists node_group, nested_ptrs, nested_groups, routines, (str_join [NEWLINE] routine).
    do 5 (split; [done|]).
    assert (nested_lines ≠ []) as Hlines.
    { unfold main_nested_lines in Hnested. destruct nested_groups; [done|].
      apply bind_Return_inv in Hnested as (? & _ & Hnested).
      by apply Return_inj in Hnested as <-. }
    assert (routines ≠ []) as Hsome.
    { intros ->. by apply Forall2_nil_inv_r in Hroutines. }
    rewrite (str_join_app _ [py "import bpy"; []; []]); [|done|by destruct nested_lines].
    rewrite (str_join_app _ nested_lines); [|done|by destruct routine].
    rewrite Htail, Hjoin.
    change (str_join [NEWLINE] [py "import bpy"; []; []])
      with (py "import bpy" ++ [NEWLINE] ++ [] ++ [NEWLINE] ++ []).
    unfold nested_section. destruct routines as [|r rs]; [done|].
    rewrite <- ?app_assoc. reflexivity.
Qed.

(** C1, as the code has it: when the node trees have distinct names and no
    node tree references itself, directly or through others, the list that
    [find_nested_node_groups] returns has every node tree once, has the
    node trees that the main one references, has every node tree that one
    of its node trees references strictly before it, and does not have the
    main node tree; and [export_node_group_to_python] emits, after the
    import, one routine for each node tree of the list, in the order of the
    list, then the routine of the main node tree, then the helpers and the
    driver, which hold no routine. *)
Theorem find_nested_node_groups_ordered (p : positive) (l : list positive) :
  unique_names heap → acyclic heap →
  find_nested_node_groups heap p = Return l →
  NoDup l ∧ (p ∉ l) ∧
  (∀ y, references heap p y → y ∈ l) ∧
  (∀ x y, x ∈ l → references heap x y → precedes l y x) ∧
  ∀ auto_assign text,
    export_node_group_to_python export_node_properties heap p auto_assign true = Return text →
    ∃ node_group nested_groups routines main_routine,
      heap !! p = Some node_group ∧
      Forall2 (λ x nested_group, heap !! x = Some nested_group) l nested_groups ∧
      Forall2 (λ nested_group routine,
         export_single_node_group export_node_properties nested_group = Return routine)
        nested_groups routines ∧
      export_single_node_group export_node_properties node_group = Return main_routine ∧
      text = py "import bpy" ++ [NEWLINE; NEWLINE; NEWLINE]
             ++ nested_section routines
             ++ main_routine ++ [NEWLINE]
             ++ str_join [NEWLINE]
                  ([[]]
                   ++ (if emits_assign_to_object node_group nested_groups auto_assign
                       then ASSIGN_TO_OBJECT_HELPER else [])
                   ++ (if emits_assign_to_material node_group auto_assign
                       then ASSIGN_TO_MATERIAL_HELPER else [])
                   ++ main_driver_lines node_group nested_groups auto_assign).
Proof.
  intros Hunique Hacyclic Hfind.
  destruct (find_nested_node_groups_order heap p l Hunique Hacyclic Hfind)
    as (Hnodup & Hroot & Hchildren & Horder).
  do 4 (split; [done|]).
  intros auto_assign text Htext.
  destruct (export_text_sections p auto_assign true text Htext)
    as (node_group & nested_ptrs & nested_groups & routines & main_routine
        & Hp & Hfind' & Hgroups & Hroutines & Hmain & ->).
  rewrite Hfind in Hfind'. apply Return_inj in Hfind' as <-.
  by exists node_group, nested_groups, routines, main_routine.
Qed.

End RoutineOrder.

Section RoutineOrderExamples.
#[local] Existing Instance reference_runtime.

Lemma find_nested_node_groups_ordered_witness :
  find_nested_node_groups shared_heap 1 = Return [5; 4; 2; 3]%positive ∧
  (∃ text, export_node_group_to_python no_properties shared_heap 1 true true = Return text) ∧
  NoDup [5; 4; 2; 3]%positive ∧ (1%positive ∉ [5; 4; 2; 3]%positive) ∧
  (∀ y, references shared_heap 1 y → y ∈ [5; 4; 2; 3]%positive) ∧
  (∀ x y, x ∈ [5; 4; 2; 3]%positive → references shared_heap x y →
          precedes [5; 4; 2; 3]%positive y x) ∧
  ∀ auto_assign text,
    export_node_group_to_python no_properties shared_heap 1 auto_assign true = Return text →
    ∃ node_group nested_groups routines main_routine,
      shared_heap !! 1%positive = Some node_group ∧
      Forall2 (λ x nested_group, shared_heap !! x = Some nested_group)
        [5; 4; 2; 3]%positive nested_groups ∧
      Forall2 (λ nested_group routine,
         export_single_node_group no_properties nested_group = Return routine)
        nested_groups routines ∧
      export_single_node_group no_properties node_group = Return main_routine ∧
      text = py "import bpy" ++ [NEWLINE; NEWLINE; NEWLINE]
             ++ nested_section routines
             ++ main_routine ++ [NEWLINE]
             ++ str_join [NEWLINE]
                  ([[]]
                   ++ (if emits_assign_to_object node_group nested_groups auto_assign
                       then ASSIGN_TO_OBJECT_HELPER else [])
                   ++ (if emits_assign_to_material node_group auto_assign
                       then ASSIGN_TO_MATERIAL_HELPER else [])
                   ++ main_driver_lines node_group nested_groups auto_assign).
Proof.
  assert (find_nested_node_groups shared_heap 1 = Return [5; 4; 2; 3]%positive) as Hfind
    by (vm_compute; reflexivity).
  split; [exact Hfind|].
  split; [eexists; vm_compute; reflexivity|].
  apply (find_nested_node_groups_ordered no_properties shared_heap 1 [5; 4; 2; 3]%positive).
  - apply unique_namesb_unique. vm_compute. reflexivity.
  - apply (rankedb_acyclic shared_heap shared_rank). vm_compute. reflexivity.
  - exact Hfind.
Defined.

(** The claim C1 fails on a reference cycle: A groups B, which groups A.
    The names are distinct, the list of A is A then B, and B, which A
    references, does not come before A in it. *)
Lemma cycle_not_ordered :
  unique_names cycle_heap ∧
  find_nested_node_groups cycle_heap 1 = Return [1; 2]%positive ∧
  1%positive ∈ [1; 2]%positive ∧
  references cycle_heap 1 2 ∧
  ¬ precedes [1; 2]%positive 2 1.
Proof.
  split; [apply unique_namesb_unique; vm_compute; reflexivity|].
  split; [vm_compute; reflexivity|]. split; [by left|]. split.
  - exists (grouping_tree "A" [2%positive]),
      (plain_node "Group" "GeometryNodeGroup" [] [] (Some 2%positive)).
    split; [reflexivity|]. split; [by left|]. split; [|reflexivity].
    vm_compute. reflexivity.
  - intros (i & j & Hi & Hj & Hlt).
    destruct i as [|[|i]]; try discriminate Hi.
    destruct j as [|[|j]]; try discriminate Hj. lia.
Qed.

End RoutineOrderExamples.
